(** * chickadee: the cooking timer and timeline engine

    A shallow embedding of [src/js/timer.js] and [src/js/timeline.js]
    (and of the second copy of the timer script, the one that works on
    [.step-ticket] elements), with the properties of the timer state store,
    the timer controls, the timeline queries and the per-tick display. *)

From Stdlib Require Import ZArith QArith Qround Qpower Lia Lqa Permutation Sorted.
From stdpp Require Import base option list strings pretty gmap.

Local Open Scope Z_scope.

(** ** JavaScript values

    The timer only ever stores [undefined]/[null], booleans and numbers in a
    state object.  Numbers are the integers ([Date.now()] is an integral
    number of milliseconds, and sums and differences of such numbers are
    exact in a double) together with [NaN], which arithmetic on [undefined]
    produces. *)
Module JS.

Inductive number : Type :=
| Fin (z : Z)
| NaN.

Inductive value : Type :=
| VUndefined
| VNull
| VBool (b : bool)
| VNum (n : number).

(** [ToBoolean]: what [!v], [v && w] and [v || w] test. *)
Definition ToBoolean (v : value) : bool :=
  match v with
  | VUndefined | VNull => false
  | VBool b => b
  | VNum (Fin z) => negb (z =? 0)
  | VNum NaN => false
  end.

(** [ToNumber]: the coercion the operators [-] and [+] apply. *)
Definition ToNumber (v : value) : number :=
  match v with
  | VUndefined => NaN
  | VNull => Fin 0
  | VBool true => Fin 1
  | VBool false => Fin 0
  | VNum n => n
  end.

Definition num_sub (a b : number) : number :=
  match a, b with
  | Fin x, Fin y => Fin (x - y)
  | _, _ => NaN
  end.

Definition num_add (a b : number) : number :=
  match a, b with
  | Fin x, Fin y => Fin (x + y)
  | _, _ => NaN
  end.

(** [a - b] and [a + b] on values without strings. *)
Definition sub (a b : value) : number := num_sub (ToNumber a) (ToNumber b).
Definition add (a b : value) : number := num_add (ToNumber a) (ToNumber b).

(** Exceptions a call can end with. *)
Inductive exn : Type :=
| SyntaxError
| TypeError.

Inductive Result (A : Type) : Type :=
| Ok (a : A)
| Throw (e : exn).
Arguments Ok {A} a.
Arguments Throw {A} e.

#[global] Instance Result_ret : MRet Result := fun _ a => Ok a.
#[global] Instance Result_bind : MBind Result := fun _ _ k r =>
  match r with
  | Ok a => k a
  | Throw e => Throw e
  end.

Definition throws {A} (r : Result A) : Prop :=
  match r with
  | Ok _ => False
  | Throw _ => True
  end.

End JS.
Import JS.

(** ** Timer state objects and their JSON form *)

(** The object literal built by [startTimer]; [F] is what a property
    holds. *)
Record State (F : Type) : Type := mkState {
  startTime : F;
  servingSize : F;
  currentStepId : F;
  isPaused : F;
  pausedAt : F
}.
Arguments mkState {F} _ _ _ _ _.
Arguments startTime {F} _.
Arguments servingSize {F} _.
Arguments currentStepId {F} _.
Arguments isPaused {F} _.
Arguments pausedAt {F} _.

Definition State_map {F G : Type} (f : F -> G) (s : State F) : State G :=
  {| startTime := f (startTime s);
     servingSize := f (servingSize s);
     currentStepId := f (currentStepId s);
     isPaused := f (isPaused s);
     pausedAt := f (pausedAt s) |}.

(** A state object in the running script. *)
Definition TimerState : Type := State value.

Module JSON.

(** What a property holds in JSON text: [null], a boolean or a number. *)
Inductive json : Type :=
| JNull
| JBool (b : bool)
| JNumber (z : Z).

(** A serialised state object; [None] is a property that is not there. *)
Definition StoredState : Type := State (option json).

(** The top-level value of a well-formed text: the literal [null], or an
    object from recipe slugs to state objects, which is all the script ever
    writes.  Other top-level values (a number, a string, an array) and
    entries that are not objects are left out, and a slug is read as an own
    property of the object. *)
Inductive document : Type :=
| DNull
| DObject (m : gmap string StoredState).

(** The text under the storage key, taken up to what [JSON.parse] makes of
    it: the empty string, a text that does not parse, or a text that parses
    to a document. *)
Inductive Text : Type :=
| EmptyText
| Malformed
| WellFormed (d : document).

(** The outcome of [JSON.parse] in the script. *)
Inductive parsed : Type :=
| PNull
| PObject (m : gmap string TimerState).

Definition parse_property (j : option json) : value :=
  match j with
  | None => VUndefined
  | Some JNull => VNull
  | Some (JBool b) => VBool b
  | Some (JNumber z) => VNum (Fin z)
  end.

(** [JSON.stringify] leaves out an [undefined] property and writes [NaN]
    as [null]; everything else is written so that it parses back to
    itself. *)
Definition stringify_property (v : value) : option json :=
  match v with
  | VUndefined => None
  | VNull => Some JNull
  | VBool b => Some (JBool b)
  | VNum (Fin z) => Some (JNumber z)
  | VNum NaN => Some JNull
  end.

Definition parse (t : Text) : Result parsed :=
  match t with
  | EmptyText | Malformed => Throw SyntaxError
  | WellFormed DNull => Ok PNull
  | WellFormed (DObject m) => Ok (PObject (State_map parse_property <$> m))
  end.

Definition stringify (p : parsed) : Text :=
  match p with
  | PNull => WellFormed DNull
  | PObject m => WellFormed (DObject (State_map stringify_property <$> m))
  end.

(** [!data] for a string. *)
Definition is_empty (t : Text) : bool :=
  match t with
  | EmptyText => true
  | _ => false
  end.

(** The names of the members of [Object.prototype].  An object made by
    [JSON.parse] inherits them: under such a key [parsed[key]] finds the
    inherited member when the object has no property of its own, and
    [parsed['__proto__'] = state] stores nothing. *)
Definition Object_prototype_keys : list string :=
  ["constructor"; "hasOwnProperty"; "isPrototypeOf"; "propertyIsEnumerable";
   "toLocaleString"; "toString"; "valueOf"; "__proto__";
   "__defineGetter__"; "__defineSetter__";
   "__lookupGetter__"; "__lookupSetter__"].

(** A key that names none of them: a recipe slug such as ["carbonara"]. *)
Definition plain_key (key : string) : Prop := key ∉ Object_prototype_keys.

(** [parsed[key]], for a key read as a property of the object's own, as it
    is for every [plain_key]; reading a property of [null] throws. *)
Definition get (p : parsed) (key : string) : Result (option TimerState) :=
  match p with
  | PNull => Throw TypeError
  | PObject m => Ok (m !! key)
  end.

(** [parsed[key] = state], which for every [plain_key] makes [key] a
    property of the object's own. *)
Definition set (p : parsed) (key : string) (state : TimerState) : Result parsed :=
  match p with
  | PNull => Throw TypeError
  | PObject m => Ok (PObject (<[key := state]> m))
  end.

(** [delete parsed[key]]. *)
Definition delete_property (p : parsed) (key : string) : Result parsed :=
  match p with
  | PNull => Throw TypeError
  | PObject m => Ok (PObject (delete key m))
  end.

End JSON.

(** ** The timer state store ([TimerManager]) *)

(** [localStorage], seen through the one key [storageKey] the script uses:
    [None] when the key is not there ([getItem] returns [null]). *)
Definition Storage : Type := option JSON.Text.

Module TimerManager.

Definition getState (recipeSlug : string) (localStorage : Storage)
  : Result (option TimerState) :=
  match localStorage with
  | None => mret None
  | Some data =>
      if JSON.is_empty data then mret None
      else
        parsed ← JSON.parse data;
        JSON.get parsed recipeSlug
  end.

Definition setState (recipeSlug : string) (state : TimerState)
    (localStorage : Storage) : Result Storage :=
  parsed ← match localStorage with
           | None => mret (JSON.PObject ∅)
           | Some data =>
               if JSON.is_empty data then mret (JSON.PObject ∅)
               else JSON.parse data
           end;
  parsed' ← JSON.set parsed recipeSlug state;
  mret (Some (JSON.stringify parsed')).

Definition clearState (recipeSlug : string) (localStorage : Storage)
  : Result Storage :=
  match localStorage with
  | None => mret localStorage
  | Some data =>
      if JSON.is_empty data then mret localStorage
      else
        parsed ← JSON.parse data;
        parsed' ← JSON.delete_property parsed recipeSlug;
        mret (Some (JSON.stringify parsed'))
  end.

(** [now] is the value of [Date.now()] at the call. *)
Definition getElapsedMs (now : Z) (recipeSlug : string)
    (localStorage : Storage) : Result number :=
  state ← getState recipeSlug localStorage;
  match state with
  | None => mret (Fin 0)
  | Some state =>
      if negb (ToBoolean (startTime state)) then mret (Fin 0)
      else if ToBoolean (isPaused state) && ToBoolean (pausedAt state)
      then mret (JS.sub (pausedAt state) (startTime state))
      else mret (JS.sub (VNum (Fin now)) (startTime state))
  end.

End TimerManager.

(** ** The timer controls

    [World] is what the controls read and write besides the page: the
    storage entry, the module-level [currentRecipeSlug] and whether the
    once-per-second interval is installed.  The page elements the controls
    show and hide hold no timer state and are left out. *)
Record World : Type := mkWorld {
  localStorage : Storage;
  currentRecipeSlug : option string;
  timerInterval : bool
}.

(** [if (!currentRecipeSlug) return]: [null] and the empty string. *)
Definition slug_of (w : World) : option string :=
  match currentRecipeSlug w with
  | Some s => if String.eqb s "" then None else Some s
  | None => None
  end.

(** [selector ? parseInt(selector.value) : 4]; [selector] is [None] when the
    page has no serving selector, else what [parseInt] makes of its value. *)
Definition getSelectedServingSize (selector : option number) : number :=
  match selector with
  | Some n => n
  | None => Fin 4
  end.

Definition startTimerInterval (w : World) : World :=
  {| localStorage := localStorage w;
     currentRecipeSlug := currentRecipeSlug w;
     timerInterval := true |}.

Definition stopTimerInterval (w : World) : World :=
  {| localStorage := localStorage w;
     currentRecipeSlug := currentRecipeSlug w;
     timerInterval := false |}.

Definition with_storage (w : World) (ls : Storage) : World :=
  {| localStorage := ls;
     currentRecipeSlug := currentRecipeSlug w;
     timerInterval := timerInterval w |}.

Definition startTimer (now : Z) (selector : option number) (w : World)
  : Result World :=
  match slug_of w with
  | None => mret w
  | Some slug =>
      let state : TimerState :=
        {| startTime := VNum (Fin now);
           servingSize := VNum (getSelectedServingSize selector);
           currentStepId := VNull;
           isPaused := VBool false;
           pausedAt := VNull |} in
      ls ← TimerManager.setState slug state (localStorage w);
      mret (startTimerInterval (with_storage w ls))
  end.

Definition pauseTimer (now : Z) (w : World) : Result World :=
  match slug_of w with
  | None => mret w
  | Some slug =>
      state ← TimerManager.getState slug (localStorage w);
      match state with
      | None => mret w
      | Some state =>
          let state : TimerState :=
            {| startTime := startTime state;
               servingSize := servingSize state;
               currentStepId := currentStepId state;
               isPaused := VBool true;
               pausedAt := VNum (Fin now) |} in
          ls ← TimerManager.setState slug state (localStorage w);
          mret (stopTimerInterval (with_storage w ls))
      end
  end.

Definition resumeTimer (now : Z) (w : World) : Result World :=
  match slug_of w with
  | None => mret w
  | Some slug =>
      state ← TimerManager.getState slug (localStorage w);
      match state with
      | None => mret w
      | Some state =>
          if negb (ToBoolean (isPaused state)) then mret w
          else
            let pauseDuration := JS.sub (VNum (Fin now)) (pausedAt state) in
            let state : TimerState :=
              {| startTime := VNum (JS.add (startTime state) (VNum pauseDuration));
                 servingSize := servingSize state;
                 currentStepId := currentStepId state;
                 isPaused := VBool false;
                 pausedAt := VNull |} in
            ls ← TimerManager.setState slug state (localStorage w);
            mret (startTimerInterval (with_storage w ls))
      end
  end.

(** [confirmed] is the answer to the [confirm] dialog. *)
Definition resetTimer (confirmed : bool) (w : World) : Result World :=
  match slug_of w with
  | None => mret w
  | Some slug =>
      if confirmed then
        ls ← TimerManager.clearState slug (localStorage w);
        mret (stopTimerInterval (with_storage w ls))
      else mret w
  end.

(** The three controls of the state machine [Stopped -> Running <-> Paused]. *)
Inductive control : Type :=
| Start (now : Z) (selector : option number)
| Pause (now : Z)
| Resume (now : Z).

Definition run (c : control) (w : World) : Result World :=
  match c with
  | Start now selector => startTimer now selector w
  | Pause now => pauseTimer now w
  | Resume now => resumeTimer now w
  end.

(** One click: the handler ran to its end. *)
Inductive step (w : World) : World -> Prop :=
| step_run c w' : run c w = Ok w' -> step w w'.

(** [Stopped]: the current recipe has no entry in the store. *)
Definition Stopped (slug : string) (w : World) : Prop :=
  slug_of w = Some slug /\ TimerManager.getState slug (localStorage w) = Ok None.

Inductive reachable (slug : string) : World -> Prop :=
| reachable_stopped w : Stopped slug w -> reachable slug w
| reachable_step w w' : reachable slug w -> step w w' -> reachable slug w'.

(** ** Numbers with fractions

    The minutes of a timeline and of the step cards are doubles.  A double is
    written as the rational it is, and an operation of the script is the
    exact one followed by rounding to the nearest double, the even one of two
    that are equally near: 53 binary digits, the subnormal numbers included.
    Comparisons of doubles are exact.  A minute written as a decimal
    fraction, [0.7] say, is the double nearest to it, [Double.round (7 # 10)].
    [Infinity] and [NaN] are left out: the numbers are taken to stay below
    [2^1024] in size, as minutes do. *)
Module Double.

(** [2^e]. *)
Definition pow2 (e : Z) : Q := (2 ^ e)%Q.

(** The integer nearest to [x], the even one of two that are equally
    near. *)
Definition nearest_even (x : Q) : Z :=
  let f := Qfloor x in
  match (x - inject_Z f ?= 1 # 2)%Q with
  | Lt => f
  | Gt => f + 1
  | Eq => if Z.even f then f else f + 1
  end.

(** For [x > 0], the [k] with [2^(k-1) <= x < 2^k]. *)
Definition mag (x : Q) : Z :=
  let l := Z.log2 (Qnum x) - Z.log2 (Zpos (Qden x)) in
  if Qle_bool (pow2 l) x then l + 1 else l.

(** The exponent of the last binary digit of the doubles around [x]:
    [mag x - 53], and [-1074] for the subnormal numbers. *)
Definition exponent (x : Q) : Z := Z.max (mag x - 53) (-1074).

(** The double nearest to [x >= 0]. *)
Definition round_pos (x : Q) : Q :=
  let e := exponent x in
  (inject_Z (nearest_even (x / pow2 e)) * pow2 e)%Q.

(** The double nearest to [x]; it is also the double a decimal literal [x]
    denotes. *)
Definition round (x : Q) : Q :=
  match (x ?= 0)%Q with
  | Lt => (- round_pos (- x))%Q
  | _ => round_pos x
  end.

(** [a + b], [a - b], [a * b] and [a / b]: the exact operation on the two
    doubles, rounded.  Rounding the operands changes nothing when they are
    doubles, and reads them as a literal is read when they are not. *)
Definition add (a b : Q) : Q := round (round a + round b).
Definition sub (a b : Q) : Q := round (round a - round b).
Definition mul (a b : Q) : Q := round (round a * round b).
Definition div (a b : Q) : Q := round (round a / round b).

End Double.

(** ** The timeline engine ([TimelineManager])

    The process data gives [startMinute] and [durationMinutes] as numbers,
    fractions allowed.  [sort] uses only the sign of
    [a.startMinute - b.startMinute], which for two doubles is the sign of
    the exact difference. *)

Definition Qlt_bool (a b : Q) : bool := negb (Qle_bool b a).

(** [Array.prototype.sort(compare)].  The language requires the sort to be
    stable and leaves the algorithm open; insertion from the right is one
    that is: an element [x] goes before the elements [y] after it for which
    [compare(x, y) <= 0]. *)
Fixpoint sort_insert {A : Type} (compare : A -> A -> Q) (x : A) (l : list A)
  : list A :=
  match l with
  | [] => [x]
  | y :: l' =>
      if Qle_bool (compare x y) 0 then x :: l
      else y :: sort_insert compare x l'
  end.

Fixpoint Array_sort {A : Type} (compare : A -> A -> Q) (l : list A) : list A :=
  match l with
  | [] => []
  | x :: l' => sort_insert compare x (Array_sort compare l')
  end.

Module TimelineManager.

(** [CookingActionSchema]. *)
Record Action : Type := mkAction {
  id : string;
  instruction : string;
  startMinute : Q;
  durationMinutes : option Q;
  isCriticalPath : bool;
  resource : option string;
  image : option string
}.

(** An element of [timeline], by its [type]: ['action'], ['parallel']
    ([ParallelBlockSchema]), or anything else. *)
Inductive TimelineItem : Type :=
| ItemAction (a : Action)
| ItemParallel (block_id : string) (block_startMinute : Q) (actions : list Action)
| ItemOther (type : string) (other_startMinute : Q).

(** [item.startMinute]. *)
Definition item_startMinute (item : TimelineItem) : Q :=
  match item with
  | ItemAction a => startMinute a
  | ItemParallel _ s _ => s
  | ItemOther _ s => s
  end.

(** [x || 0] for an optional number. *)
Definition or_zero (x : option Q) : Q :=
  match x with
  | Some q => q
  | None => 0%Q
  end.

Definition calculateAbsoluteTime (startTime : Z) (startMinute : Q) : Q :=
  Double.add (inject_Z startTime) (Double.mul startMinute 60000).

(** The callback of [filter] in [getUpcomingSteps]. *)
Definition is_upcoming (elapsedMinutes : Q) (item : TimelineItem) : bool :=
  match item with
  | ItemAction a => Qlt_bool elapsedMinutes (startMinute a)
  | ItemParallel _ s _ => Qlt_bool elapsedMinutes s
  | ItemOther _ _ => false
  end.

Definition getUpcomingSteps (timeline : list TimelineItem) (elapsedMinutes : Q)
  : list TimelineItem :=
  Array_sort (fun a b => (item_startMinute a - item_startMinute b)%Q)
    (List.filter (is_upcoming elapsedMinutes) timeline).

Definition getNextStep (timeline : list TimelineItem) (elapsedMinutes : Q)
  : option TimelineItem :=
  match getUpcomingSteps timeline elapsedMinutes with
  | [] => None
  | first :: _ => Some first
  end.

(** The body of the [for] loop in [getCurrentStep]. *)
Definition current_visit (elapsedMinutes : Q) (current : option Action)
    (item : TimelineItem) : option Action :=
  match item with
  | ItemAction a =>
      if Qle_bool (startMinute a) elapsedMinutes then
        let endMinute := Double.add (startMinute a) (or_zero (durationMinutes a)) in
        if Qlt_bool elapsedMinutes endMinute then Some a else current
      else current
  | _ => current
  end.

Definition getCurrentStep (timeline : list TimelineItem) (elapsedMinutes : Q)
  : option Action :=
  fold_left (current_visit elapsedMinutes) timeline None.

(** The body of the outer [for] loop in [getCriticalPathSteps]. *)
Definition critical_visit (steps : list Action) (item : TimelineItem)
  : list Action :=
  match item with
  | ItemAction a => if isCriticalPath a then steps ++ [a] else steps
  | ItemParallel _ _ actions => steps ++ List.filter isCriticalPath actions
  | ItemOther _ _ => steps
  end.

Definition getCriticalPathSteps (timeline : list TimelineItem) : list Action :=
  Array_sort (fun a b => (startMinute a - startMinute b)%Q)
    (fold_left critical_visit timeline []).

End TimelineManager.

(** ** The per-tick display

    The page as the tick sees it: the step cards in document order, each with
    the numbers of its [data-] attributes, its class list and its countdown
    element when it has one. *)
Module DOM.

Record Element : Type := mkElement {
  el_classList : gset string;
  textContent : string
}.

Record Card : Type := mkCard {
  data_startMinute : Q;            (* parseFloat(card.dataset.startMinute) *)
  data_durationMinutes : option Q; (* card.dataset.durationMinutes, when set *)
  classList : gset string;
  countdownEl : option Element     (* card.querySelector('.step-countdown') *)
}.

Definition add (classes : list string) (cl : gset string) : gset string :=
  cl ∪ list_to_set classes.

Definition remove (classes : list string) (cl : gset string) : gset string :=
  cl ∖ list_to_set classes.

Definition with_classList (card : Card) (cl : gset string) : Card :=
  {| data_startMinute := data_startMinute card;
     data_durationMinutes := data_durationMinutes card;
     classList := cl;
     countdownEl := countdownEl card |}.

Definition with_countdownEl (card : Card) (el : Element) : Card :=
  {| data_startMinute := data_startMinute card;
     data_durationMinutes := data_durationMinutes card;
     classList := classList card;
     countdownEl := Some el |}.

(** [startMinute - elapsedMinutes]. *)
Definition remaining (elapsedMinutes : Q) (card : Card) : Q :=
  Double.sub (data_startMinute card) elapsedMinutes.

(** [nextStep] and [minRemaining] of [highlightNextStep]; [nextStep] is the
    position of the card it refers to, and [None] for [minRemaining] is
    [Infinity]. *)
Record Highlight : Type := mkHighlight {
  nextStep : option nat;
  minRemaining : option Q
}.

Definition below (r : Q) (bound : option Q) : bool :=
  match bound with
  | None => true
  | Some m => Qlt_bool r m
  end.

(** What the callback of [forEach] in [highlightNextStep] does to [nextStep]
    and [minRemaining] at the card in position [i]. *)
Definition highlight_visit (elapsedMinutes : Q) (h : Highlight) (i : nat)
    (card : Card) : Highlight :=
  let r := remaining elapsedMinutes card in
  if Qlt_bool 0 r && below r (minRemaining h)
  then {| nextStep := Some i; minRemaining := Some r |}
  else h.

Fixpoint highlight_loop (elapsedMinutes : Q) (i : nat) (cards : list Card)
    (h : Highlight) : Highlight :=
  match cards with
  | [] => h
  | card :: cards' =>
      highlight_loop elapsedMinutes (S i) cards'
        (highlight_visit elapsedMinutes h i card)
  end.

Definition pad (n : Z) : string :=
  let s := pretty n in
  if (String.length s <? 2)%nat then "0" +:+ s else s.

Definition formatTime (totalSeconds : Z) : string :=
  let hours := totalSeconds / 3600 in
  let minutes := Z.rem totalSeconds 3600 / 60 in
  let seconds := Z.rem totalSeconds 60 in
  if 0 <? hours
  then pad hours +:+ ":" +:+ pad minutes +:+ ":" +:+ pad seconds
  else pad minutes +:+ ":" +:+ pad seconds.

End DOM.

(** [src/js/timer.js]: the cards are the [.step-card] elements. *)
Module StepCard.
Import DOM.

Definition countdown_visit (elapsedMinutes : Q) (card : Card) : Card :=
  let startMinute := data_startMinute card in
  let durationMinutes := TimelineManager.or_zero (data_durationMinutes card) in
  let endMinute := Double.add startMinute durationMinutes in
  match countdownEl card with
  | None => card
  | Some el =>
      let remainingMinutes := Double.sub startMinute elapsedMinutes in
      if Qlt_bool 0 endMinute && Qlt_bool endMinute elapsedMinutes
      then with_classList card (add ["hidden"] (classList card))
      else
        let shown := remove ["hidden"] (classList card) in
        if Qle_bool remainingMinutes 0 then
          with_countdownEl
            (with_classList card (add ["opacity-60"] shown))
            {| textContent := "✓ Now!";
               el_classList :=
                 remove ["text-accent"] (add ["text-success"] (el_classList el)) |}
        else
          let remainingSeconds := Qfloor (Double.mul remainingMinutes 60) in
          with_countdownEl
            (with_classList card (remove ["opacity-60"] shown))
            {| textContent := formatTime remainingSeconds;
               el_classList :=
                 add ["text-accent"] (remove ["text-success"] (el_classList el)) |}
  end.

Definition unmark (card : Card) : Card :=
  with_classList card (remove ["border-2"; "border-accent"] (classList card)).

Definition mark (card : Card) : Card :=
  with_classList card (add ["border-2"; "border-accent"] (classList card)).

Definition highlightNextStep (elapsedMinutes : Q) (cards : list Card)
  : list Card :=
  let h := highlight_loop elapsedMinutes 0 cards
             {| nextStep := None; minRemaining := None |} in
  let cards := unmark <$> cards in
  match nextStep h with
  | Some i => alter mark i cards
  | None => cards
  end.

Definition updateStepCountdowns (elapsedMs : Z) (cards : list Card)
  : list Card :=
  let elapsedMinutes := Double.div (inject_Z elapsedMs) 60000 in
  highlightNextStep elapsedMinutes (countdown_visit elapsedMinutes <$> cards).

End StepCard.

(** The second copy of the timer script: the cards are the [.step-ticket]
    elements. *)
Module StepTicket.
Import DOM.

Definition countdown_visit (elapsedMinutes : Q) (card : Card) : Card :=
  let startMinute := data_startMinute card in
  let durationMinutes := TimelineManager.or_zero (data_durationMinutes card) in
  let endMinute := Double.add startMinute durationMinutes in
  match countdownEl card with
  | None => card
  | Some el =>
      let remainingMinutes := Double.sub startMinute elapsedMinutes in
      if Qlt_bool 0 endMinute && Qlt_bool endMinute elapsedMinutes
      then with_classList card (add ["hidden"] (classList card))
      else
        let shown :=
          remove ["step-ticket--waiting"; "step-ticket--firing";
                  "step-ticket--done"; "step-ticket--next"]
            (remove ["hidden"] (classList card)) in
        if Qle_bool remainingMinutes 0 then
          with_countdownEl
            (with_classList card (add ["step-ticket--done"] shown))
            {| textContent := "Now";
               el_classList := add ["step-countdown--done"] (el_classList el) |}
        else
          let remainingSeconds := Qfloor (Double.mul remainingMinutes 60) in
          with_countdownEl
            (with_classList card (add ["step-ticket--waiting"] shown))
            {| textContent := "T-" +:+ formatTime remainingSeconds;
               el_classList := remove ["step-countdown--done"] (el_classList el) |}
  end.

Definition unmark (card : Card) : Card :=
  with_classList card
    (remove ["step-ticket--next"; "step-ticket--firing"] (classList card)).

(** The two [classList.add] calls on [nextStep] after the loop. *)
Definition mark (minRemaining : option Q) (card : Card) : Card :=
  let cl := add ["step-ticket--next"] (classList card) in
  let close :=
    match minRemaining with
    | Some m => Qlt_bool m (1 # 2)
    | None => false
    end in
  with_classList card (if close then add ["step-ticket--firing"] cl else cl).

Definition highlightNextStep (elapsedMinutes : Q) (cards : list Card)
  : list Card :=
  let h := highlight_loop elapsedMinutes 0 cards
             {| nextStep := None; minRemaining := None |} in
  let cards := unmark <$> cards in
  match nextStep h with
  | Some i => alter (mark (minRemaining h)) i cards
  | None => cards
  end.

Definition updateStepCountdowns (elapsedMs : Z) (cards : list Card)
  : list Card :=
  let elapsedMinutes := Double.div (inject_Z elapsedMs) 60000 in
  highlightNextStep elapsedMinutes (countdown_visit elapsedMinutes <$> cards).

End StepTicket.

(** ** Specifications read off the prose *)

(** What [elapsedMs] is to return, case by case: [0] with no state or no
    start time, the frozen [pausedAt - startTime] when paused, and
    [now - startTime] when running. *)
Inductive elapsedMs_spec (now : Z) : option TimerState -> Z -> Prop :=
| elapsed_no_state :
    elapsedMs_spec now None 0
| elapsed_no_startTime st :
    ToBoolean (startTime st) = false ->
    elapsedMs_spec now (Some st) 0
| elapsed_paused st t0 p :
    startTime st = VNum (Fin t0) -> t0 <> 0 ->
    isPaused st = VBool true ->
    pausedAt st = VNum (Fin p) -> p <> 0 ->
    elapsedMs_spec now (Some st) (p - t0)
| elapsed_running st t0 :
    startTime st = VNum (Fin t0) -> t0 <> 0 ->
    isPaused st = VBool false ->
    elapsedMs_spec now (Some st) (now - t0).

(** [pausedAt] holds a value: it is neither missing nor [null]. *)
Definition is_set (v : value) : Prop := v <> VUndefined /\ v <> VNull.

(** The data-model invariant of a state object. *)
Definition pause_fields_agree (st : TimerState) : Prop :=
  is_set (pausedAt st) <-> isPaused st = VBool true.

(** A state object as it comes back from the store after [setState]. *)
Definition reread (st : TimerState) : TimerState :=
  State_map (fun v => JSON.parse_property (JSON.stringify_property v)) st.

(** ** The store and the controls, as the properties speak of them *)

Section StoreSpec.

Import JSON.

(** The storage values under which [getState] returns: nothing there, the
    empty string, or an object. *)
Inductive readable : Storage -> gmap string StoredState -> Prop :=
| readable_missing : readable None ∅
| readable_empty : readable (Some EmptyText) ∅
| readable_object m : readable (Some (WellFormed (DObject m))) m.

(** A value JSON gives back as it was written: anything but [NaN]. *)
Definition storable (v : value) : Prop :=
  parse_property (stringify_property v) = v.

Definition all_storable (st : TimerState) : Prop :=
  storable (startTime st) /\ storable (servingSize st)
  /\ storable (currentStepId st) /\ storable (isPaused st)
  /\ storable (pausedAt st).

(** What [pauseTimer] and [resumeTimer] make of the state they read. *)
Definition paused (now : Z) (st : TimerState) : TimerState :=
  {| startTime := startTime st;
     servingSize := servingSize st;
     currentStepId := currentStepId st;
     isPaused := VBool true;
     pausedAt := VNum (Fin now) |}.

Definition resumed (now : Z) (st : TimerState) : TimerState :=
  {| startTime :=
       VNum (JS.add (startTime st) (VNum (JS.sub (VNum (Fin now)) (pausedAt st))));
     servingSize := servingSize st;
     currentStepId := currentStepId st;
     isPaused := VBool false;
     pausedAt := VNull |}.

Definition started (now : Z) (selector : option number) : TimerState :=
  {| startTime := VNum (Fin now);
     servingSize := VNum (getSelectedServingSize selector);
     currentStepId := VNull;
     isPaused := VBool false;
     pausedAt := VNull |}.

(** The inductive form of the invariant: a stored state is either paused
    with a timestamp in [pausedAt], or not paused with [pausedAt] null. *)
Definition pause_fields_good (st : TimerState) : Prop :=
  (isPaused st = VBool true /\ exists p, pausedAt st = VNum (Fin p))
  \/ (isPaused st = VBool false /\ pausedAt st = VNull).

Definition controls_invariant (slug : string) (w : World) : Prop :=
  slug_of w = Some slug
  /\ exists r, TimerManager.getState slug (localStorage w) = Ok r
       /\ forall st, r = Some st -> pause_fields_good st.

End StoreSpec.

(** ** Sorting by a numeric key *)

Definition by_key {A : Type} (key : A -> Q) (a b : A) : Q := (key a - key b)%Q.

Definition key_le {A : Type} (key : A -> Q) (a b : A) : Prop := (key a <= key b)%Q.

(** The elements of [l] whose key is [q], in the order of [l]. *)
Definition with_key {A : Type} (key : A -> Q) (q : Q) (l : list A) : list A :=
  List.filter (fun x => Qeq_bool (key x) q) l.

(** ** The timeline and the tick, as the properties speak of them *)

Section TimelineSpec.

Import TimelineManager.

(** A top-level item that is an action or a parallel block. *)
Definition is_step (item : TimelineItem) : Prop :=
  match item with
  | ItemAction _ | ItemParallel _ _ _ => True
  | ItemOther _ _ => False
  end.

(** [item.type === 'action']: a top-level action. *)
Definition is_action (item : TimelineItem) : bool :=
  match item with
  | ItemAction _ => true
  | _ => false
  end.

(** [elapsedMinutes] lies in [[startMinute, startMinute + durationMinutes)],
    a missing duration counting as [0]; the sum is the sum of doubles. *)
Definition in_window (elapsedMinutes : Q) (a : Action) : Prop :=
  (startMinute a <= elapsedMinutes)%Q
  /\ (elapsedMinutes
      < Double.add (startMinute a) (or_zero (durationMinutes a)))%Q.

End TimelineSpec.

Section TickSpec.

Import DOM.

(** Position [i] holds the first card, in document order, among those with
    the smallest strictly positive remaining time. *)
Definition is_next (e : Q) (cards : list Card) (i : nat) : Prop :=
  exists c, cards !! i = Some c
    /\ (0 < remaining e c)%Q
    /\ (forall j c', cards !! j = Some c' -> (0 < remaining e c')%Q ->
          (remaining e c <= remaining e c')%Q)
    /\ (forall j c', (j < i)%nat -> cards !! j = Some c' ->
          (0 < remaining e c')%Q -> (remaining e c < remaining e c')%Q).

(** What the loop of [highlightNextStep] knows after the cards [seen]. *)
Definition highlight_ok (e : Q) (seen : list Card) (h : Highlight) : Prop :=
  match nextStep h, minRemaining h with
  | Some i, Some m =>
      is_next e seen i /\ exists c, seen !! i = Some c /\ m = remaining e c
  | None, None => forall j c, seen !! j = Some c -> ~ (0 < remaining e c)%Q
  | _, _ => False
  end.

(** Both copies of [highlightNextStep] have this shape: every card is
    unmarked in the loop, and the card [nextStep] refers to is marked after
    it. *)
Definition highlight_with (unmark : Card -> Card) (mark : option Q -> Card -> Card)
    (e : Q) (cards : list Card) : list Card :=
  let h := highlight_loop e 0 cards {| nextStep := None; minRemaining := None |} in
  match nextStep h with
  | Some i => alter (mark (minRemaining h)) i (unmark <$> cards)
  | None => unmark <$> cards
  end.

End TickSpec.

(** ** Example data *)

Section StoreData.

Import JSON.

(** A timer started at [1000] for four servings, as [startTimer] stores it. *)
Definition carbonara_running : World :=
  {| localStorage :=
       Some (WellFormed (DObject
         {[ "carbonara" :=
              {| startTime := Some (JNumber 1000);
                 servingSize := Some (JNumber 4);
                 currentStepId := Some JNull;
                 isPaused := Some (JBool false);
                 pausedAt := Some JNull |} ]}));
     currentRecipeSlug := Some "carbonara";
     timerInterval := true |}.

(** Scenario D: started at [T0], paused five seconds later. *)
Definition carbonara_held : TimerState :=
  {| startTime := VNum (Fin 1700000000000);
     servingSize := VNum (Fin 4);
     currentStepId := VNull;
     isPaused := VBool true;
     pausedAt := VNum (Fin 1700000005000) |}.

Definition store_D : Storage :=
  Some (WellFormed (DObject
    {[ "carbonara" := State_map stringify_property carbonara_held ]})).

(** A state flagged as paused whose [pausedAt] was never written. *)
Definition carbonara_odd : TimerState :=
  {| startTime := VNum (Fin 1000);
     servingSize := VNum (Fin 4);
     currentStepId := VNull;
     isPaused := VBool true;
     pausedAt := VNull |}.

Definition store_odd : Storage :=
  Some (WellFormed (DObject
    {[ "carbonara" := State_map stringify_property carbonara_odd ]})).

(** Scenario E: two recipes in the store, one is reset. *)
Definition store_E : Storage :=
  Some (WellFormed (DObject
    {[ "carbonara" := State_map stringify_property carbonara_held;
       "ragu" := State_map stringify_property carbonara_odd ]})).

(** No timer yet; then started at [1000], then paused at [2000]. *)
Definition carbonara_stopped : World :=
  {| localStorage := None;
     currentRecipeSlug := Some "carbonara";
     timerInterval := false |}.

Definition carbonara_paused : World :=
  {| localStorage :=
       Some (WellFormed (DObject
         {[ "carbonara" :=
              {| startTime := Some (JNumber 1000);
                 servingSize := Some (JNumber 4);
                 currentStepId := Some JNull;
                 isPaused := Some (JBool true);
                 pausedAt := Some (JNumber 2000) |} ]}));
     currentRecipeSlug := Some "carbonara";
     timerInterval := false |}.

End StoreData.

Section TimelineData.

Import TimelineManager.

Definition step_a : Action :=
  {| id := "a"; instruction := "Boil the water"; startMinute := 0;
     durationMinutes := Some 5%Q; isCriticalPath := true;
     resource := None; image := None |}.

Definition step_b : Action :=
  {| id := "b"; instruction := "Cook the pasta"; startMinute := 5;
     durationMinutes := Some 3%Q; isCriticalPath := true;
     resource := None; image := None |}.

Definition step_x : Action :=
  {| id := "x"; instruction := "Render the guanciale"; startMinute := 0;
     durationMinutes := Some 10%Q; isCriticalPath := true;
     resource := Some "burner"; image := None |}.

Definition step_y : Action :=
  {| id := "y"; instruction := "Whisk the eggs"; startMinute := 0;
     durationMinutes := Some 10%Q; isCriticalPath := false;
     resource := None; image := None |}.

End TimelineData.

Section TickData.

Import DOM.

(** A step that starts at minute [1] and takes five minutes. *)
Definition sear_card : Card :=
  {| data_startMinute := 1;
     data_durationMinutes := Some 5%Q;
     classList := ∅;
     countdownEl := Some {| el_classList := ∅; textContent := "--:--" |} |}.

End TickData.

(** ** More of the store and the controls *)

(** The two storage values no store function gets past: a text that does
    not parse, and the text [null]. *)
Definition unreadable (ls : Storage) : Prop :=
  ls = Some JSON.Malformed \/ ls = Some (JSON.WellFormed JSON.DNull).

(** The state object [startTimer] builds, as it reads back from the store:
    a serving size that is [NaN] comes back as [null]. *)
Definition fresh_state (now : Z) (selector : option number) : TimerState :=
  {| startTime := VNum (Fin now);
     servingSize :=
       match getSelectedServingSize selector with
       | Fin n => VNum (Fin n)
       | NaN => VNull
       end;
     currentStepId := VNull;
     isPaused := VBool false;
     pausedAt := VNull |}.

(** A second recipe beside the carbonara of the examples. *)
Definition two_timers : World :=
  {| localStorage :=
       Some (JSON.WellFormed (JSON.DObject
         {[ "carbonara" :=
              {| startTime := Some (JSON.JNumber 1000);
                 servingSize := Some (JSON.JNumber 4);
                 currentStepId := Some JSON.JNull;
                 isPaused := Some (JSON.JBool false);
                 pausedAt := Some JSON.JNull |};
            "ragu" :=
              {| startTime := Some (JSON.JNumber 500);
                 servingSize := Some (JSON.JNumber 2);
                 currentStepId := Some JSON.JNull;
                 isPaused := Some (JSON.JBool true);
                 pausedAt := Some (JSON.JNumber 800) |} ]}));
     currentRecipeSlug := Some "carbonara";
     timerInterval := true |}.

Definition ragu_held : TimerState :=
  {| startTime := VNum (Fin 500);
     servingSize := VNum (Fin 2);
     currentStepId := VNull;
     isPaused := VBool true;
     pausedAt := VNum (Fin 800) |}.

Definition carbonara_started : TimerState :=
  {| startTime := VNum (Fin 1000);
     servingSize := VNum (Fin 4);
     currentStepId := VNull;
     isPaused := VBool false;
     pausedAt := VNull |}.

(** ** More of the timeline *)

(** The critical actions an item contributes, in order: itself when it is a
    critical action, its critical members when it is a parallel block. *)
Definition critical_of (item : TimelineManager.TimelineItem)
  : list TimelineManager.Action :=
  match item with
  | TimelineManager.ItemAction a =>
      if TimelineManager.isCriticalPath a then [a] else []
  | TimelineManager.ItemParallel _ _ actions =>
      List.filter TimelineManager.isCriticalPath actions
  | TimelineManager.ItemOther _ _ => []
  end.

(** [a] is an action of the timeline, at the top level or in a block. *)
Definition action_of_timeline (a : TimelineManager.Action)
    (timeline : list TimelineManager.TimelineItem) : Prop :=
  In (TimelineManager.ItemAction a) timeline
  \/ exists i s actions,
       In (TimelineManager.ItemParallel i s actions) timeline /\ In a actions.

(** ** More of the tick *)

(** [endMinute] of a card: [startMinute + durationMinutes]. *)
Definition end_minute (card : DOM.Card) : Q :=
  Double.add (DOM.data_startMinute card)
    (TimelineManager.or_zero (DOM.data_durationMinutes card)).

(** The step of the card is over: [endMinute > 0 && elapsedMinutes >
    endMinute]. *)
Definition past (elapsedMinutes : Q) (card : DOM.Card) : Prop :=
  (0 < end_minute card)%Q /\ (end_minute card < elapsedMinutes)%Q.

(** The minutes [updateStepCountdowns] works with. *)
Definition minutes_of (elapsedMs : Z) : Q :=
  Double.div (inject_Z elapsedMs) 60000.

(** A second card for the examples: a marker step at minute [0]. *)
Definition prep_card : DOM.Card :=
  {| DOM.data_startMinute := 0;
     DOM.data_durationMinutes := None;
     DOM.classList := ∅;
     DOM.countdownEl :=
       Some {| DOM.el_classList := ∅; DOM.textContent := "--:--" |} |}.

(** The callback of the first loop of [updateStepCountdowns] in
    [src/js/timer.js], the outcome of its two tests and the countdown text
    given: [over] is [endMinute > 0 && elapsedMinutes > endMinute], [due] is
    [remainingMinutes <= 0]. *)
Definition StepCard_visit_with (over due : bool) (text : string)
    (card : DOM.Card) : DOM.Card :=
  match DOM.countdownEl card with
  | None => card
  | Some el =>
      if over
      then DOM.with_classList card (DOM.add ["hidden"] (DOM.classList card))
      else
        let shown := DOM.remove ["hidden"] (DOM.classList card) in
        if due then
          DOM.with_countdownEl
            (DOM.with_classList card (DOM.add ["opacity-60"] shown))
            {| DOM.textContent := "✓ Now!";
               DOM.el_classList :=
                 DOM.remove ["text-accent"]
                   (DOM.add ["text-success"] (DOM.el_classList el)) |}
        else
          DOM.with_countdownEl
            (DOM.with_classList card (DOM.remove ["opacity-60"] shown))
            {| DOM.textContent := text;
               DOM.el_classList :=
                 DOM.add ["text-accent"]
                   (DOM.remove ["text-success"] (DOM.el_classList el)) |}
  end.

Definition is_over (e : Q) (card : DOM.Card) : bool :=
  Qlt_bool 0 (end_minute card) && Qlt_bool (end_minute card) e.

Definition is_due (e : Q) (card : DOM.Card) : bool :=
  Qle_bool (DOM.remaining e card) 0.

(** [formatTime(Math.floor(remainingMinutes * 60))]. *)
Definition countdown_text (e : Q) (card : DOM.Card) : string :=
  DOM.formatTime (Qfloor (Double.mul (DOM.remaining e card) 60)).

(** ** The process generators

    [scripts/generate-process.js] and [scripts/image-to-recipe.js] turn the
    steps of a recipe into the timeline the engine reads. *)
Module Generator.

(** [StepSchema]. *)
Record Step : Type := mkStep {
  id : string;
  instruction : string;
  durationMinutes : option Q;
  ingredients : option (list string);
  notes : option string;
  image : option string
}.

(** What the generators read of a recipe ([RecipeSchema]). *)
Record Recipe : Type := mkRecipe {
  slug : string;
  title : string;
  steps : list Step
}.

(** [CookingProcessSchema]. *)
Record CookingProcess : Type := mkProcess {
  recipeSlug : string;
  totalDurationMinutes : Q;
  timeline : list TimelineManager.TimelineItem;
  finishCriteria : option string
}.

(** [step.instruction + (step.notes ? ` (${step.notes})` : '')]: no notes
    and empty notes add nothing. *)
Definition instruction_with_notes (step : Step) : string :=
  match notes step with
  | Some n => if String.eqb n "" then instruction step
              else instruction step +:+ " (" +:+ n +:+ ")"
  | None => instruction step
  end.

(** [currentMinute] and [timeline] of the loop. *)
Record Progress : Type := mkProgress {
  currentMinute : Q;
  items : list TimelineManager.TimelineItem
}.

(** The body of the loop of [generateProcess]; [keep_image] tells the two
    scripts apart: [generate-process.js] copies [step.image],
    [image-to-recipe.js] does not. *)
Definition push_step (keep_image : bool) (p : Progress) (step : Step) : Progress :=
  {| items :=
       items p ++
       [TimelineManager.ItemAction
          {| TimelineManager.id := id step;
             TimelineManager.instruction := instruction_with_notes step;
             TimelineManager.startMinute := currentMinute p;
             TimelineManager.durationMinutes :=
               Some (TimelineManager.or_zero (durationMinutes step));
             TimelineManager.isCriticalPath := true;
             TimelineManager.resource := None;
             TimelineManager.image := if keep_image then image step else None |}];
     currentMinute :=
       Double.add (currentMinute p)
         (TimelineManager.or_zero (durationMinutes step)) |}.

Definition run_steps (keep_image : bool) (steps : list Step) : Progress :=
  fold_left (push_step keep_image) steps {| currentMinute := 0; items := [] |}.

(** [generateCookingProcess] of [scripts/image-to-recipe.js]. *)
Definition generateCookingProcess (recipe : Recipe) : CookingProcess :=
  let p := run_steps false (steps recipe) in
  {| recipeSlug := slug recipe;
     totalDurationMinutes := currentMinute p;
     timeline := items p;
     finishCriteria := Some "Recipe completed as described" |}.

(** [generateProcess] of [scripts/generate-process.js], on the parsed
    contents of [recipes.json] and [processes.json] (an absent
    [processes.json] is the empty object): [None] is [process.exit(1)] for a
    slug with no recipe, otherwise the process and the object written
    back.  The slug is read and written as a property of the objects' own,
    as it is for every slug but the names of [Object.prototype]. *)
Definition generateProcess (recipes : gmap string Recipe)
    (processes : gmap string CookingProcess) (recipeSlug : string)
  : option (CookingProcess * gmap string CookingProcess) :=
  match recipes !! recipeSlug with
  | None => None
  | Some recipe =>
      let p := run_steps true (steps recipe) in
      let process :=
        {| Generator.recipeSlug := recipeSlug;
           totalDurationMinutes := currentMinute p;
           timeline := items p;
           finishCriteria := Some "Recipe completed" |} in
      Some (process, <[recipeSlug := process]> processes)
  end.

End Generator.

(** The minutes the steps before position [k] take, added up in the order
    of the steps as [currentMinute +=] does. *)
Definition minutes_before (k : nat) (steps : list Generator.Step) : Q :=
  fold_left Double.add
    (TimelineManager.or_zero ∘ Generator.durationMinutes <$> take k steps) 0%Q.

(** No step has a negative duration. *)
Definition durations_not_negative (steps : list Generator.Step) : Prop :=
  Forall (fun step =>
            (0 <= TimelineManager.or_zero (Generator.durationMinutes step))%Q)
    steps.

(** The timeline of the steps from [cur] on, one action per step. *)
Fixpoint timeline_from (keep_image : bool) (cur : Q)
    (steps : list Generator.Step) : list TimelineManager.TimelineItem :=
  match steps with
  | [] => []
  | step :: rest =>
      Generator.items
        (Generator.push_step keep_image
           {| Generator.currentMinute := cur; Generator.items := [] |} step)
      ++ timeline_from keep_image
           (Double.add cur
              (TimelineManager.or_zero (Generator.durationMinutes step))) rest
  end.

Definition carbonara_recipe : Generator.Recipe :=
  {| Generator.slug := "carbonara";
     Generator.title := "Pasta alla carbonara";
     Generator.steps :=
       [ {| Generator.id := "step-1"; Generator.instruction := "Boil the water";
            Generator.durationMinutes := Some 10%Q;
            Generator.ingredients := None; Generator.notes := Some "salted";
            Generator.image := None |};
         {| Generator.id := "step-2"; Generator.instruction := "Add the pasta";
            Generator.durationMinutes := None;
            Generator.ingredients := None; Generator.notes := None;
            Generator.image := None |};
         {| Generator.id := "step-3"; Generator.instruction := "Cook the pasta";
            Generator.durationMinutes := Some (17 # 2);
            Generator.ingredients := None; Generator.notes := None;
            Generator.image := Some "pasta.jpg" |} ] |}.

(** ** The serving size ([recipe-data.js])

    [updateServingSize] ends by saving the size into the timer state of the
    current recipe.  This is that last part, [size] being [parseInt(newSize)];
    the rewriting of the ingredient list before it does not touch the store
    and is taken to return. *)
Definition updateServingSize (size : number) (w : World) : Result World :=
  match slug_of w with
  | None => mret w
  | Some slug =>
      state ← TimerManager.getState slug (localStorage w);
      let state : TimerState :=
        match state with
        | Some state => state
        | None => mkState VUndefined VUndefined VUndefined VUndefined VUndefined
        end in
      let state : TimerState :=
        {| startTime := startTime state;
           servingSize := VNum size;
           currentStepId := currentStepId state;
           isPaused := isPaused state;
           pausedAt := pausedAt state |} in
      ls ← TimerManager.setState slug state (localStorage w);
      mret (with_storage w ls)
  end.

(** The serving size as it reads back from the store. *)
Definition stored_size (size : number) : value :=
  match size with
  | Fin n => VNum (Fin n)
  | NaN => VNull
  end.

(** ** The controls with the page ([src/js/timer.js])

    The handlers as the script runs them, page included.  [Env] is all they
    read and write: the storage entry, the three module-level variables, the
    elements they fetch by id, the step cards (whose countdown elements are
    taken to be all the [.step-countdown] elements of the page), the serving
    selector and the clock.  A handler that throws leaves the changes it
    made up to there. *)
Module Page.

Record Env : Type := mkEnv {
  store : Storage;                  (* localStorage *)
  recipeSlug : option string;       (* currentRecipeSlug *)
  ticking : bool;                   (* timerInterval holds an interval *)
  expanded : bool;                  (* sectionsExpanded *)
  byId : gmap string DOM.Element;   (* document.getElementById *)
  stepCards : list DOM.Card;        (* querySelectorAll('.step-card') *)
  servingSelector : option number;  (* parseInt(selector.value), if there *)
  clock : nat -> Z;                 (* what Date.now() returns, call by call *)
  reads : nat                       (* the calls of Date.now() so far *)
}.

Definition with_store (env : Env) (ls : Storage) : Env :=
  mkEnv ls (recipeSlug env) (ticking env) (expanded env) (byId env)
    (stepCards env) (servingSelector env) (clock env) (reads env).

Definition with_recipeSlug (env : Env) (slug : option string) : Env :=
  mkEnv (store env) slug (ticking env) (expanded env) (byId env)
    (stepCards env) (servingSelector env) (clock env) (reads env).

Definition with_ticking (env : Env) (b : bool) : Env :=
  mkEnv (store env) (recipeSlug env) b (expanded env) (byId env)
    (stepCards env) (servingSelector env) (clock env) (reads env).

Definition with_expanded (env : Env) (b : bool) : Env :=
  mkEnv (store env) (recipeSlug env) (ticking env) b (byId env)
    (stepCards env) (servingSelector env) (clock env) (reads env).

Definition with_byId (env : Env) (m : gmap string DOM.Element) : Env :=
  mkEnv (store env) (recipeSlug env) (ticking env) (expanded env) m
    (stepCards env) (servingSelector env) (clock env) (reads env).

Definition with_stepCards (env : Env) (cards : list DOM.Card) : Env :=
  mkEnv (store env) (recipeSlug env) (ticking env) (expanded env) (byId env)
    cards (servingSelector env) (clock env) (reads env).

Definition with_reads (env : Env) (n : nat) : Env :=
  mkEnv (store env) (recipeSlug env) (ticking env) (expanded env) (byId env)
    (stepCards env) (servingSelector env) (clock env) n.

(** How a piece of the script ends: it returns, or it throws, either way
    with the environment it has reached. *)
Inductive Outcome (A : Type) : Type :=
| Returned (a : A) (env : Env)
| Thrown (e : exn) (env : Env).
Arguments Returned {A} a env.
Arguments Thrown {A} e env.

Definition Exec (A : Type) : Type := Env -> Outcome A.

#[global] Instance Exec_ret : MRet Exec := fun _ a env => Returned a env.
#[global] Instance Exec_bind : MBind Exec := fun _ _ k m env =>
  match m env with
  | Returned a env' => k a env'
  | Thrown e env' => Thrown e env'
  end.

Definition skip : Exec unit := mret tt.

(** [Date.now()]. *)
Definition Date_now : Exec Z := fun env =>
  Returned (clock env (reads env)) (with_reads env (S (reads env))).

(** Edits of one element. *)
Definition classList_add (classes : list string) (el : DOM.Element)
  : DOM.Element :=
  {| DOM.el_classList := DOM.add classes (DOM.el_classList el);
     DOM.textContent := DOM.textContent el |}.

Definition classList_remove (classes : list string) (el : DOM.Element)
  : DOM.Element :=
  {| DOM.el_classList := DOM.remove classes (DOM.el_classList el);
     DOM.textContent := DOM.textContent el |}.

Definition set_textContent (text : string) (el : DOM.Element) : DOM.Element :=
  {| DOM.el_classList := DOM.el_classList el; DOM.textContent := text |}.

(** [document.getElementById(id).classList...]: a [TypeError] when there is
    no such element. *)
Definition on_element (id : string) (f : DOM.Element -> DOM.Element)
  : Exec unit := fun env =>
  match byId env !! id with
  | Some el => Returned tt (with_byId env (<[id := f el]> (byId env)))
  | None => Thrown TypeError env
  end.

(** [const el = document.getElementById(id); if (el) el...]. *)
Definition on_element_if_there (id : string) (f : DOM.Element -> DOM.Element)
  : Exec unit := fun env =>
  match byId env !! id with
  | Some el => Returned tt (with_byId env (<[id := f el]> (byId env)))
  | None => Returned tt env
  end.

Definition on_countdown (f : DOM.Element -> DOM.Element) (card : DOM.Card)
  : DOM.Card :=
  match DOM.countdownEl card with
  | Some el => DOM.with_countdownEl card (f el)
  | None => card
  end.

(** [document.querySelectorAll('.step-countdown').forEach(...)]. *)
Definition on_countdowns (f : DOM.Element -> DOM.Element) : Exec unit :=
  fun env => Returned tt (with_stepCards env (on_countdown f <$> stepCards env)).

(** [if (!currentRecipeSlug)]. *)
Definition current_slug (env : Env) : option string :=
  match recipeSlug env with
  | Some s => if String.eqb s "" then None else Some s
  | None => None
  end.

(** The store functions on the environment. *)
Definition getState (slug : string) : Exec (option TimerState) := fun env =>
  match TimerManager.getState slug (store env) with
  | Ok r => Returned r env
  | Throw e => Thrown e env
  end.

Definition setState (slug : string) (state : TimerState) : Exec unit :=
  fun env =>
  match TimerManager.setState slug state (store env) with
  | Ok ls => Returned tt (with_store env ls)
  | Throw e => Thrown e env
  end.

Definition clearState (slug : string) : Exec unit := fun env =>
  match TimerManager.clearState slug (store env) with
  | Ok ls => Returned tt (with_store env ls)
  | Throw e => Thrown e env
  end.

(** [getElapsedMs], which reads the clock in its last branch only. *)
Definition getElapsedMs (slug : string) : Exec number :=
  state ← getState slug;
  match state with
  | None => mret (Fin 0)
  | Some state =>
      if negb (ToBoolean (startTime state)) then mret (Fin 0)
      else if ToBoolean (isPaused state) && ToBoolean (pausedAt state)
      then mret (JS.sub (pausedAt state) (startTime state))
      else
        now ← Date_now;
        mret (JS.sub (VNum (Fin now)) (startTime state))
  end.

(** [formatTime(Math.floor(elapsedMs / 1000))], also for [NaN]. *)
Definition elapsed_text (elapsedMs : number) : string :=
  match elapsedMs with
  | Fin ms => DOM.formatTime (ms / 1000)
  | NaN => "NaN:NaN"
  end.

(** What [updateStepCountdowns(NaN)] does: every comparison fails, so no
    card is hidden, dimmed or marked, and the countdowns read [NaN:NaN]. *)
Definition countdown_NaN (card : DOM.Card) : DOM.Card :=
  match DOM.countdownEl card with
  | None => card
  | Some el =>
      DOM.with_countdownEl
        (DOM.with_classList card
           (DOM.remove ["opacity-60"]
              (DOM.remove ["hidden"] (DOM.classList card))))
        {| DOM.textContent := "NaN:NaN";
           DOM.el_classList :=
             DOM.add ["text-accent"]
               (DOM.remove ["text-success"] (DOM.el_classList el)) |}
  end.

Definition cards_after (elapsedMs : number) (cards : list DOM.Card)
  : list DOM.Card :=
  match elapsedMs with
  | Fin ms => StepCard.updateStepCountdowns ms cards
  | NaN => StepCard.unmark <$> (countdown_NaN <$> cards)
  end.

Definition updateStepCountdowns (elapsedMs : number) : Exec unit := fun env =>
  Returned tt (with_stepCards env (cards_after elapsedMs (stepCards env))).

Definition updateTimerDisplay : Exec unit := fun env =>
  match current_slug env with
  | None => Returned tt env
  | Some slug =>
      (elapsedMs ← getElapsedMs slug;
       _ ← on_element_if_there "elapsed-time"
             (set_textContent (elapsed_text elapsedMs));
       updateStepCountdowns elapsedMs) env
  end.

Definition startTimerInterval : Exec unit := fun env =>
  updateTimerDisplay (with_ticking env true).

Definition stopTimerInterval : Exec unit := fun env =>
  Returned tt (if ticking env then with_ticking env false else env).

Definition showTimerRunning : Exec unit :=
  _ ← on_element "timer-status" (classList_remove ["hidden"]);
  _ ← on_element "start-btn" (classList_add ["hidden"]);
  _ ← on_element "pause-btn" (classList_remove ["hidden"]);
  _ ← on_element "resume-btn" (classList_add ["hidden"]);
  _ ← on_element "reset-btn" (classList_remove ["hidden"]);
  on_countdowns (classList_remove ["hidden"]).

Definition showTimerPaused : Exec unit :=
  _ ← on_element "timer-status" (classList_remove ["hidden"]);
  _ ← on_element "start-btn" (classList_add ["hidden"]);
  _ ← on_element "pause-btn" (classList_add ["hidden"]);
  _ ← on_element "resume-btn" (classList_remove ["hidden"]);
  _ ← on_element "reset-btn" (classList_remove ["hidden"]);
  on_countdowns (classList_remove ["hidden"]).

Definition showTimerStopped : Exec unit :=
  _ ← on_element "timer-status" (classList_add ["hidden"]);
  _ ← on_element "start-btn" (classList_remove ["hidden"]);
  _ ← on_element "pause-btn" (classList_add ["hidden"]);
  _ ← on_element "resume-btn" (classList_add ["hidden"]);
  _ ← on_element "reset-btn" (classList_add ["hidden"]);
  on_countdowns (classList_add ["hidden"]).

Definition updateToggleButtonState (isExpanded : bool) : Exec unit := fun env =>
  let env' :=
    match byId env !! "toggle-icon", byId env !! "toggle-text" with
    | Some icon, Some text =>
        with_byId env
          (<["toggle-text" :=
               set_textContent
                 (if isExpanded then "Hide Recipe Details"
                  else "Show Recipe Details") text]>
             (<["toggle-icon" :=
                  set_textContent (if isExpanded then "🙈" else "👁️") icon]>
                (byId env)))
    | _, _ => env
    end in
  Returned tt (with_expanded env' isExpanded).

Definition collapseIngredientsSection : Exec unit :=
  _ ← on_element_if_there "serving-section" (classList_add ["hidden"]);
  _ ← on_element_if_there "ingredients-section" (classList_add ["hidden"]);
  _ ← on_element_if_there "recipe-header-section" (classList_add ["hidden"]);
  _ ← on_element_if_there "sections-toggle" (classList_remove ["hidden"]);
  updateToggleButtonState false.

Definition expandIngredientsSection : Exec unit :=
  _ ← on_element_if_there "serving-section" (classList_remove ["hidden"]);
  _ ← on_element_if_there "ingredients-section" (classList_remove ["hidden"]);
  _ ← on_element_if_there "recipe-header-section" (classList_remove ["hidden"]);
  on_element_if_there "sections-toggle" (classList_add ["hidden"]).

Definition toggleCollapsedSections : Exec unit := fun env =>
  let now_expanded := negb (expanded env) in
  let edit :=
    if now_expanded then classList_remove ["hidden"]
    else classList_add ["hidden"] in
  (_ ← on_element_if_there "serving-section" edit;
   _ ← on_element_if_there "ingredients-section" edit;
   _ ← on_element_if_there "recipe-header-section" edit;
   updateToggleButtonState now_expanded) (with_expanded env now_expanded).

Definition reset_card (card : DOM.Card) : DOM.Card :=
  on_countdown
    (fun el => classList_remove ["text-success"] (set_textContent "--:--" el))
    (DOM.with_classList card
       (DOM.remove ["opacity-60"; "border-2"; "border-accent"]
          (DOM.classList card))).

Definition resetStepDisplays : Exec unit := fun env =>
  Returned tt (with_stepCards env (reset_card <$> stepCards env)).

Definition initTimer (slug : string) : Exec unit := fun env =>
  (state ← getState slug;
   match state with
   | None => skip
   | Some state =>
       if ToBoolean (startTime state) then
         _ ← (if ToBoolean (isPaused state) then showTimerPaused
              else (_ ← showTimerRunning; startTimerInterval));
         _ ← collapseIngredientsSection;
         updateTimerDisplay
       else skip
   end) (with_recipeSlug env (Some slug)).

Definition startTimer : Exec unit := fun env =>
  match current_slug env with
  | None => Returned tt env
  | Some slug =>
      (now ← Date_now;
       let state : TimerState :=
         {| startTime := VNum (Fin now);
            servingSize := VNum (getSelectedServingSize (servingSelector env));
            currentStepId := VNull;
            isPaused := VBool false;
            pausedAt := VNull |} in
       _ ← setState slug state;
       _ ← showTimerRunning;
       _ ← startTimerInterval;
       collapseIngredientsSection) env
  end.

Definition pauseTimer : Exec unit := fun env =>
  match current_slug env with
  | None => Returned tt env
  | Some slug =>
      (state ← getState slug;
       match state with
       | None => skip
       | Some state =>
           now ← Date_now;
           let state : TimerState :=
             {| startTime := startTime state;
                servingSize := servingSize state;
                currentStepId := currentStepId state;
                isPaused := VBool true;
                pausedAt := VNum (Fin now) |} in
           _ ← setState slug state;
           _ ← stopTimerInterval;
           showTimerPaused
       end) env
  end.

Definition resumeTimer : Exec unit := fun env =>
  match current_slug env with
  | None => Returned tt env
  | Some slug =>
      (state ← getState slug;
       match state with
       | None => skip
       | Some state =>
           if negb (ToBoolean (isPaused state)) then skip
           else
             now ← Date_now;
             let pauseDuration := JS.sub (VNum (Fin now)) (pausedAt state) in
             let state : TimerState :=
               {| startTime :=
                    VNum (JS.add (startTime state) (VNum pauseDuration));
                  servingSize := servingSize state;
                  currentStepId := currentStepId state;
                  isPaused := VBool false;
                  pausedAt := VNull |} in
             _ ← setState slug state;
             _ ← showTimerRunning;
             startTimerInterval
       end) env
  end.

(** [confirmed] is the answer to the [confirm] dialog. *)
Definition resetTimer (confirmed : bool) : Exec unit := fun env =>
  match current_slug env with
  | None => Returned tt env
  | Some slug =>
      if confirmed then
        (_ ← clearState slug;
         _ ← stopTimerInterval;
         _ ← showTimerStopped;
         _ ← resetStepDisplays;
         expandIngredientsSection) env
      else Returned tt env
  end.

(** The [visibilitychange] listener, [visible] being
    [document.visibilityState === 'visible']. *)
Definition on_visibilitychange (visible : bool) : Exec unit := fun env =>
  match (if visible then current_slug env else None) with
  | None => Returned tt env
  | Some slug =>
      (state ← getState slug;
       match state with
       | None => skip
       | Some state =>
           if ToBoolean (startTime state) then updateTimerDisplay else skip
       end) env
  end.

End Page.

(** The part of the environment the controls of the state machine are
    about. *)
Definition world_of (env : Page.Env) : World :=
  {| localStorage := Page.store env;
     currentRecipeSlug := Page.recipeSlug env;
     timerInterval := Page.ticking env |}.

(** An element is on the page and shown, or on the page and hidden. *)
Definition shown (id : string) (env : Page.Env) : Prop :=
  exists el, Page.byId env !! id = Some el /\ "hidden" ∉ DOM.el_classList el.

Definition hidden (id : string) (env : Page.Env) : Prop :=
  exists el, Page.byId env !! id = Some el /\ "hidden" ∈ DOM.el_classList el.

(** The five elements the controls fetch without a test are there. *)
Definition controls_there (env : Page.Env) : Prop :=
  Forall (fun id => is_Some (Page.byId env !! id))
    ["timer-status"; "start-btn"; "pause-btn"; "resume-btn"; "reset-btn"].

(** The look of the controls while the timer runs, is paused, is stopped. *)
Definition looks_running (env : Page.Env) : Prop :=
  shown "timer-status" env /\ hidden "start-btn" env /\ shown "pause-btn" env
  /\ hidden "resume-btn" env /\ shown "reset-btn" env.

Definition looks_paused (env : Page.Env) : Prop :=
  shown "timer-status" env /\ hidden "start-btn" env /\ hidden "pause-btn" env
  /\ shown "resume-btn" env /\ shown "reset-btn" env.

Definition looks_stopped (env : Page.Env) : Prop :=
  hidden "timer-status" env /\ shown "start-btn" env /\ hidden "pause-btn" env
  /\ hidden "resume-btn" env /\ hidden "reset-btn" env.

(** A piece of the script returns from [env], with a result and an
    environment that satisfy [Q]. *)
Definition returns {A} (m : Page.Exec A) (env : Page.Env)
    (Q : A -> Page.Env -> Prop) : Prop :=
  exists a env', m env = Page.Returned a env' /\ Q a env'.

(** From [env] to [env'] only page work was done, and of the elements
    fetched by id only those in [ids] were edited: the store, the current
    recipe, the interval and the clock are as they were, no element came or
    went. *)
Definition page_work (ids : list string) (env env' : Page.Env) : Prop :=
  Page.store env' = Page.store env
  /\ Page.recipeSlug env' = Page.recipeSlug env
  /\ Page.ticking env' = Page.ticking env
  /\ Page.clock env' = Page.clock env
  /\ Page.servingSelector env' = Page.servingSelector env
  /\ (forall id, id ∉ ids -> Page.byId env' !! id = Page.byId env !! id)
  /\ (forall id, is_Some (Page.byId env' !! id) <-> is_Some (Page.byId env !! id)).

Definition hidden_if_there (id : string) (env : Page.Env) : Prop :=
  forall el, Page.byId env !! id = Some el -> "hidden" ∈ DOM.el_classList el.

Definition shown_if_there (id : string) (env : Page.Env) : Prop :=
  forall el, Page.byId env !! id = Some el -> "hidden" ∉ DOM.el_classList el.

(** The ids of the five controls, and of the sections and the toggle. *)
Definition control_ids : list string :=
  ["timer-status"; "start-btn"; "pause-btn"; "resume-btn"; "reset-btn"].

Definition section_ids : list string :=
  ["serving-section"; "ingredients-section"; "recipe-header-section";
   "sections-toggle"; "toggle-icon"; "toggle-text"].

(** The shape the three [showTimer...] functions share: one edit for each
    control, in the same order, then one for every countdown. *)
Definition show_with (status start pause resume reset c
                      : DOM.Element -> DOM.Element) : Page.Exec unit :=
  _ ← Page.on_element "timer-status" status;
  _ ← Page.on_element "start-btn" start;
  _ ← Page.on_element "pause-btn" pause;
  _ ← Page.on_element "resume-btn" resume;
  _ ← Page.on_element "reset-btn" reset;
  Page.on_countdowns c.

(** The store and the current recipe are as they were. *)
Definition store_kept (env env' : Page.Env) : Prop :=
  Page.store env' = Page.store env
  /\ Page.recipeSlug env' = Page.recipeSlug env.

(** The text under the storage key can be read. *)
Definition readable_store (env : Page.Env) : Prop :=
  exists m, readable (Page.store env) m.

(** A piece of the script that is page work only: from a readable store it
    leaves the store and the current recipe alone, whether it returns or
    throws, and what it throws is a [TypeError]. *)
Definition page_part {A} (m : Page.Exec A) : Prop :=
  forall env, readable_store env ->
    match m env with
    | Page.Returned _ env' => store_kept env env'
    | Page.Thrown e env' => store_kept env env' /\ e = TypeError
    end.

(** How a handler of the page ends, against what the control of the state
    machine stores: when the control returns [w'], the handler returns or
    throws a [TypeError], and either way has stored what [w'] holds; when
    the control throws, the handler throws the same and has changed nothing
    (it may have read the clock). *)
Definition stores_like (outcome : Page.Outcome unit) (env : Page.Env)
    (control : Result World) : Prop :=
  match control with
  | Ok w' =>
      exists env',
        (outcome = Page.Returned tt env' \/ outcome = Page.Thrown TypeError env')
        /\ Page.store env' = localStorage w'
        /\ Page.recipeSlug env' = Page.recipeSlug env
  | Throw e =>
      exists n, outcome = Page.Thrown e (Page.with_reads env n)
  end.

(** ** A page for the examples

    The five controls as the template has them before a timer is started,
    the elapsed time, one of the sections of the recipe, two step cards, and
    in the store a carbonara started at [1000] and paused at [2000]; the
    clock reads [3000] and goes on by a second with each reading. *)
Definition plain_element (classes : gset string) : DOM.Element :=
  {| DOM.el_classList := classes; DOM.textContent := "" |}.

Definition kitchen : Page.Env :=
  {| Page.store := localStorage carbonara_paused;
     Page.recipeSlug := Some "carbonara";
     Page.ticking := false;
     Page.expanded := false;
     Page.byId :=
       {[ "timer-status" := plain_element {[ "hidden" ]};
          "start-btn" := plain_element ∅;
          "pause-btn" := plain_element {[ "hidden" ]};
          "resume-btn" := plain_element {[ "hidden" ]};
          "reset-btn" := plain_element {[ "hidden" ]};
          "elapsed-time" := plain_element ∅;
          "serving-section" := plain_element ∅ ]};
     Page.stepCards := [prep_card; sear_card];
     Page.servingSelector := Some (Fin 4);
     Page.clock := fun n => 3000 + 1000 * Z.of_nat n;
     Page.reads := 0 |}.

(** The state of the carbonara in the store of [kitchen]. *)
Definition carbonara_paused_state : TimerState :=
  {| startTime := VNum (Fin 1000);
     servingSize := VNum (Fin 4);
     currentStepId := VNull;
     isPaused := VBool true;
     pausedAt := VNum (Fin 2000) |}.

(** The second of the two example cards after a tick of [src/js/timer.js]
    and after a tick of the ticket copy. *)
Definition ticked_card (elapsedMs : Z) : DOM.Card :=
  default sear_card
    (StepCard.updateStepCountdowns elapsedMs [prep_card; sear_card] !! 1%nat).

Definition ticked_ticket (elapsedMs : Z) : DOM.Card :=
  default sear_card
    (StepTicket.updateStepCountdowns elapsedMs [prep_card; sear_card] !! 1%nat).

(** The carbonara of [carbonara_paused], resumed at [9000]: the seven
    seconds of the pause are added to the start time. *)
Definition carbonara_resumed : World :=
  {| localStorage :=
       Some (JSON.WellFormed (JSON.DObject
         {[ "carbonara" :=
              {| startTime := Some (JSON.JNumber 8000);
                 servingSize := Some (JSON.JNumber 4);
                 currentStepId := Some JSON.JNull;
                 isPaused := Some (JSON.JBool false);
                 pausedAt := Some JSON.JNull |} ]}));
     currentRecipeSlug := Some "carbonara";
     timerInterval := true |}.

(** ** Examples with minutes that are no binary fractions

    [Double.round (7 # 10)] is the double the literal [0.7] denotes. *)
Definition toast_action : TimelineManager.Action :=
  {| TimelineManager.id := "toast";
     TimelineManager.instruction := "Toast the pepper";
     TimelineManager.startMinute := Double.round (7 # 10);
     TimelineManager.durationMinutes := Some (Double.round (1 # 10));
     TimelineManager.isCriticalPath := true;
     TimelineManager.resource := None;
     TimelineManager.image := None |}.

Definition grate_action : TimelineManager.Action :=
  {| TimelineManager.id := "grate";
     TimelineManager.instruction := "Grate the pecorino";
     TimelineManager.startMinute := Double.round (1 # 10);
     TimelineManager.durationMinutes := Some (Double.round (4 # 10));
     TimelineManager.isCriticalPath := true;
     TimelineManager.resource := None;
     TimelineManager.image := None |}.

Definition toast_card : DOM.Card :=
  {| DOM.data_startMinute := Double.round (7 # 10);
     DOM.data_durationMinutes := Some (Double.round (1 # 10));
     DOM.classList := ∅;
     DOM.countdownEl :=
       Some {| DOM.el_classList := ∅; DOM.textContent := "--:--" |} |}.

Definition quick_step (id : string) (minutes : Q) : Generator.Step :=
  {| Generator.id := id; Generator.instruction := id;
     Generator.durationMinutes := Some (Double.round minutes);
     Generator.ingredients := None; Generator.notes := None;
     Generator.image := None |}.

Definition quick_steps : list Generator.Step :=
  [quick_step "q1" (1 # 10); quick_step "q2" (4 # 10); quick_step "q3" 1].

(** ** The store: reading back what was written *)

Section Store.

Import JSON.

Lemma stringify_parse_property (j : option json) :
  stringify_property (parse_property j) = j.
Proof. destruct j as [[| b | z] |]; reflexivity. Qed.

Lemma stringify_parse_state (s : StoredState) :
  State_map stringify_property (State_map parse_property s) = s.
Proof.
  destruct s; unfold State_map; cbn.
  by rewrite !stringify_parse_property.
Qed.

Lemma reread_parsed (s : StoredState) :
  reread (State_map parse_property s) = State_map parse_property s.
Proof.
  destruct s; unfold reread, State_map; cbn.
  by rewrite !stringify_parse_property.
Qed.

Lemma stringify_parse_map (m : gmap string StoredState) :
  State_map stringify_property <$> (State_map parse_property <$> m) = m.
Proof.
  rewrite <- map_fmap_compose.
  rewrite <- (map_fmap_id m) at 2.
  apply map_fmap_ext. intros k s _. apply stringify_parse_state.
Qed.

Lemma getState_object slug (m : gmap string StoredState) :
  TimerManager.getState slug (Some (WellFormed (DObject m)))
  = Ok (State_map parse_property <$> m !! slug).
Proof. cbn. by rewrite lookup_fmap. Qed.

Lemma setState_object slug st (m : gmap string StoredState) :
  TimerManager.setState slug st (Some (WellFormed (DObject m)))
  = Ok (Some (WellFormed (DObject (<[slug := State_map stringify_property st]> m)))).
Proof. cbn. by rewrite fmap_insert, stringify_parse_map. Qed.

Lemma clearState_object slug (m : gmap string StoredState) :
  TimerManager.clearState slug (Some (WellFormed (DObject m)))
  = Ok (Some (WellFormed (DObject (delete slug m)))).
Proof. cbn. by rewrite fmap_delete, stringify_parse_map. Qed.

Lemma getState_Ok_readable slug ls r :
  TimerManager.getState slug ls = Ok r ->
  exists m, readable ls m /\ r = State_map parse_property <$> m !! slug.
Proof.
  destruct ls as [[| | [| m]] |]; cbn; intros H; try discriminate.
  - exists ∅. split; [apply readable_empty |].
    rewrite lookup_empty. injection H as <-. reflexivity.
  - exists m. split; [apply readable_object |].
    rewrite lookup_fmap in H. injection H as <-. reflexivity.
  - exists ∅. split; [apply readable_missing |].
    rewrite lookup_empty. injection H as <-. reflexivity.
Qed.

Lemma getState_readable slug ls m :
  readable ls m ->
  TimerManager.getState slug ls = Ok (State_map parse_property <$> m !! slug).
Proof.
  destruct 1; cbn; try by rewrite lookup_empty.
  by rewrite lookup_fmap.
Qed.

Lemma setState_readable slug st ls m :
  readable ls m ->
  TimerManager.setState slug st ls
  = Ok (Some (WellFormed (DObject (<[slug := State_map stringify_property st]> m)))).
Proof.
  destruct 1; try apply setState_object; cbn; by rewrite fmap_insert, fmap_empty.
Qed.

(** [setState] then [getState]: the state comes back, up to what JSON
    keeps of it. *)
Lemma getState_setState slug st ls m :
  readable ls m ->
  exists ls', TimerManager.setState slug st ls = Ok ls'
    /\ TimerManager.getState slug ls' = Ok (Some (reread st))
    /\ readable ls' (<[slug := State_map stringify_property st]> m).
Proof.
  intros Hr. eexists. split; [by apply setState_readable |].
  split; [| constructor].
  rewrite getState_object, lookup_insert_eq. cbn.
  destruct st; reflexivity.
Qed.

End Store.

(** ** The store: [getState], [getElapsedMs], [clearState] *)

Section StoreClaims.

Import JSON.

(** [getState] throws in two cases only: the text does not parse, or it is
    the literal [null]. *)
Lemma getState_throws_iff slug ls :
  throws (TimerManager.getState slug ls)
  <-> ls = Some Malformed \/ ls = Some (WellFormed DNull).
Proof.
  destruct ls as [[| | [| m]] |]; cbn; split; intros H;
    try tauto; try (destruct H; discriminate); auto.
Qed.

(** C1, as stated, fails: with malformed JSON under the storage key,
    [getState] does not return "no state", the [SyntaxError] of [JSON.parse]
    reaches the caller. *)
Lemma getState_malformed_counterexample :
  TimerManager.getState "carbonara" (Some Malformed) = Throw SyntaxError
  /\ TimerManager.getState "carbonara" (Some Malformed) <> Ok None.
Proof. split; [reflexivity | discriminate]. Qed.

(** C1, amended: for every recipe identifier, [getState] returns "no state"
    without throwing when the value under the storage key is missing or the
    empty string; when it is malformed JSON, the parse failure is propagated
    to the caller. *)
Theorem getState_missing_or_malformed (recipeSlug : string) :
  TimerManager.getState recipeSlug None = Ok None
  /\ TimerManager.getState recipeSlug (Some EmptyText) = Ok None
  /\ TimerManager.getState recipeSlug (Some Malformed) = Throw SyntaxError.
Proof. repeat split. Qed.

(** [getElapsedMs] never throws on a store [getState] can read, and its
    result is a number, not [NaN]. *)
Lemma getElapsedMs_finite now slug ls st :
  TimerManager.getState slug ls = Ok st ->
  exists ms, TimerManager.getElapsedMs now slug ls = Ok (Fin ms).
Proof.
  intros H. unfold TimerManager.getElapsedMs. rewrite H. cbn.
  destruct st as [st |]; [| by eexists].
  destruct st as [t0 sv cs ip pa]; cbn.
  destruct t0 as [| | [] | [z |]]; cbn; try by eexists.
  all: try (destruct (z =? 0); cbn; try by eexists).
  all: destruct ip as [| | [] | [i |]]; cbn; try by eexists.
  all: try (destruct (i =? 0); cbn; try by eexists).
  all: destruct pa as [| | [] | [p |]]; cbn; try by eexists.
  all: destruct (p =? 0); cbn; by eexists.
Qed.

(** C3: for every recipe identifier, [getElapsedMs] returns [0] when there
    is no stored state or the state has no [startTime]; [pausedAt - startTime]
    when the state is paused, whatever the clock says at the query; and
    [now - startTime] when the state is running. *)
Theorem getElapsedMs_meets_spec (now : Z) (recipeSlug : string) (ls : Storage)
    (st : option TimerState) (ms : Z) :
  TimerManager.getState recipeSlug ls = Ok st ->
  elapsedMs_spec now st ms ->
  TimerManager.getElapsedMs now recipeSlug ls = Ok (Fin ms).
Proof.
  intros Hget Hspec. unfold TimerManager.getElapsedMs. rewrite Hget. cbn.
  destruct Hspec as [| st Hno | st t0 p Ht0 Hnz Hip Hpa Hp | st t0 Ht0 Hnz Hip].
  - reflexivity.
  - by rewrite Hno.
  - rewrite Ht0, Hip, Hpa. cbn.
    apply Z.eqb_neq in Hnz, Hp. by rewrite Hnz, Hp.
  - rewrite Ht0, Hip. cbn.
    apply Z.eqb_neq in Hnz. by rewrite Hnz.
Qed.

(** C10: for every stored state whose [isPaused] is true but whose
    [pausedAt] is absent, [null] or [0], [getElapsedMs] does not freeze the
    elapsed time: it takes the running branch and returns
    [now - startTime]. *)
Theorem getElapsedMs_paused_without_pausedAt (now : Z) (recipeSlug : string)
    (ls : Storage) (st : TimerState) (t0 : Z) :
  TimerManager.getState recipeSlug ls = Ok (Some st) ->
  startTime st = VNum (Fin t0) -> t0 <> 0 ->
  isPaused st = VBool true ->
  pausedAt st = VUndefined \/ pausedAt st = VNull \/ pausedAt st = VNum (Fin 0) ->
  TimerManager.getElapsedMs now recipeSlug ls = Ok (Fin (now - t0)).
Proof.
  intros Hget Ht0 Hnz Hip Hpa. unfold TimerManager.getElapsedMs.
  rewrite Hget. cbn. rewrite Ht0, Hip. cbn.
  apply Z.eqb_neq in Hnz. rewrite Hnz. cbn.
  by destruct Hpa as [-> | [-> | ->]].
Qed.


End StoreClaims.

(** ** The controls: [startTimer], [pauseTimer], [resumeTimer] *)

Section Controls.

Import JSON.

Lemma storable_parse j : storable (parse_property j).
Proof. unfold storable. by rewrite stringify_parse_property. Qed.

Lemma storable_iff v : storable v <-> v <> VNum NaN.
Proof.
  unfold storable. destruct v as [| | b | [z |]]; cbn; split; try done.
Qed.

Lemma reread_storable st : all_storable st -> reread st = st.
Proof.
  destruct st; unfold all_storable, reread, State_map, storable; cbn.
  intros (-> & -> & -> & -> & ->). reflexivity.
Qed.

Lemma getState_storable slug ls st :
  TimerManager.getState slug ls = Ok (Some st) -> all_storable st.
Proof.
  intros H. apply getState_Ok_readable in H as (m & _ & H).
  destruct (m !! slug) as [s |]; [| discriminate].
  injection H as ->. destruct s; repeat split; apply storable_parse.
Qed.

Lemma startTimer_stored now selector w slug r :
  slug_of w = Some slug ->
  TimerManager.getState slug (localStorage w) = Ok r ->
  exists w',
    startTimer now selector w = Ok w'
    /\ slug_of w' = Some slug
    /\ TimerManager.getState slug (localStorage w')
       = Ok (Some (reread (started now selector))).
Proof.
  intros Hslug Hget.
  apply getState_Ok_readable in Hget as (m & Hr & _).
  destruct (getState_setState slug (started now selector) _ _ Hr)
    as (ls' & Hset & Hget' & _).
  unfold startTimer. rewrite Hslug. fold (started now selector).
  rewrite Hset. cbn. eexists. split; [reflexivity |]. by split.
Qed.

Lemma pauseTimer_none now w slug :
  slug_of w = Some slug ->
  TimerManager.getState slug (localStorage w) = Ok None ->
  pauseTimer now w = Ok w.
Proof. intros Hslug Hget. unfold pauseTimer. by rewrite Hslug, Hget. Qed.

Lemma pauseTimer_stored now w slug st :
  slug_of w = Some slug ->
  TimerManager.getState slug (localStorage w) = Ok (Some st) ->
  exists w',
    pauseTimer now w = Ok w'
    /\ slug_of w' = Some slug
    /\ TimerManager.getState slug (localStorage w') = Ok (Some (paused now st))
    /\ timerInterval w' = false.
Proof.
  intros Hslug Hget.
  pose proof (getState_storable _ _ _ Hget) as (H1 & H2 & H3 & _).
  pose proof Hget as Hget0.
  apply getState_Ok_readable in Hget as (m & Hr & _).
  destruct (getState_setState slug (paused now st) _ _ Hr)
    as (ls' & Hset & Hget' & _).
  unfold pauseTimer. rewrite Hslug, Hget0. cbn. fold (paused now st).
  rewrite Hset. cbn. eexists. split; [reflexivity |].
  split; [done |]. split; [| done].
  cbn. rewrite Hget'. do 2 f_equal. apply reread_storable.
  by repeat split.
Qed.

Lemma resumeTimer_not_paused now w slug st :
  slug_of w = Some slug ->
  TimerManager.getState slug (localStorage w) = Ok (Some st) ->
  ToBoolean (isPaused st) = false ->
  resumeTimer now w = Ok w.
Proof.
  intros Hslug Hget Hip. unfold resumeTimer. rewrite Hslug, Hget. cbn.
  by rewrite Hip.
Qed.

Lemma resumeTimer_none now w slug :
  slug_of w = Some slug ->
  TimerManager.getState slug (localStorage w) = Ok None ->
  resumeTimer now w = Ok w.
Proof. intros Hslug Hget. unfold resumeTimer. by rewrite Hslug, Hget. Qed.

Lemma resumeTimer_stored now w slug st :
  slug_of w = Some slug ->
  TimerManager.getState slug (localStorage w) = Ok (Some st) ->
  ToBoolean (isPaused st) = true ->
  exists w',
    resumeTimer now w = Ok w'
    /\ slug_of w' = Some slug
    /\ TimerManager.getState slug (localStorage w')
       = Ok (Some (reread (resumed now st)))
    /\ timerInterval w' = true.
Proof.
  intros Hslug Hget Hip.
  pose proof Hget as Hget0.
  apply getState_Ok_readable in Hget as (m & Hr & _).
  destruct (getState_setState slug (resumed now st) _ _ Hr)
    as (ls' & Hset & Hget' & _).
  unfold resumeTimer. rewrite Hslug, Hget0.
  cbv beta iota zeta delta [mbind Result_bind]. rewrite Hip.
  cbv beta iota zeta delta [negb]. fold (resumed now st). rewrite Hset.
  eexists. split; [reflexivity |]. by repeat split.
Qed.

End Controls.

Section ControlClaims.

Import JSON.

Lemma getElapsedMs_running now slug ls st t0 :
  TimerManager.getState slug ls = Ok (Some st) ->
  startTime st = VNum (Fin t0) -> t0 <> 0 ->
  ToBoolean (isPaused st) = false ->
  TimerManager.getElapsedMs now slug ls = Ok (Fin (now - t0)).
Proof.
  intros Hget Ht0 Hnz Hip. unfold TimerManager.getElapsedMs.
  rewrite Hget. cbn. rewrite Ht0, Hip. cbn.
  apply Z.eqb_neq in Hnz. by rewrite Hnz.
Qed.

Lemma getElapsedMs_frozen now slug ls st t0 p :
  TimerManager.getState slug ls = Ok (Some st) ->
  startTime st = VNum (Fin t0) -> t0 <> 0 ->
  isPaused st = VBool true ->
  pausedAt st = VNum (Fin p) -> p <> 0 ->
  TimerManager.getElapsedMs now slug ls = Ok (Fin (p - t0)).
Proof.
  intros Hget Ht0 Hnz Hip Hpa Hp. unfold TimerManager.getElapsedMs.
  rewrite Hget. cbn. rewrite Ht0, Hip, Hpa. cbn.
  apply Z.eqb_neq in Hnz, Hp. by rewrite Hnz, Hp.
Qed.

(** Two calls of [pauseTimer] in a row: the second one writes its own clock
    reading over [pausedAt]. *)
Lemma pauseTimer_twice t1 t2 w slug st :
  slug_of w = Some slug ->
  TimerManager.getState slug (localStorage w) = Ok (Some st) ->
  exists w1 w2,
    pauseTimer t1 w = Ok w1 /\ pauseTimer t2 w1 = Ok w2
    /\ TimerManager.getState slug (localStorage w1) = Ok (Some (paused t1 st))
    /\ TimerManager.getState slug (localStorage w2) = Ok (Some (paused t2 st)).
Proof.
  intros Hslug Hget.
  destruct (pauseTimer_stored t1 _ _ _ Hslug Hget) as (w1 & Hp1 & Hs1 & Hg1 & _).
  destruct (pauseTimer_stored t2 _ _ _ Hs1 Hg1) as (w2 & Hp2 & _ & Hg2 & _).
  exists w1, w2. by repeat split.
Qed.

(** With the same clock reading the second call changes nothing. *)
Lemma pauseTimer_twice_same_clock t w slug st w1 w2 :
  slug_of w = Some slug ->
  TimerManager.getState slug (localStorage w) = Ok (Some st) ->
  pauseTimer t w = Ok w1 -> pauseTimer t w1 = Ok w2 ->
  TimerManager.getState slug (localStorage w2)
  = TimerManager.getState slug (localStorage w1).
Proof.
  intros Hslug Hget H1 H2.
  destruct (pauseTimer_twice t t _ _ _ Hslug Hget) as (v1 & v2 & E1 & E2 & G1 & G2).
  rewrite H1 in E1. injection E1 as <-.
  rewrite H2 in E2. injection E2 as <-.
  by rewrite G1, G2.
Qed.

(** C7: for every running timer state and every pause duration, the elapsed
    time read right before [pauseTimer] equals the elapsed time read right
    after the following [resumeTimer]: the resume moves [startTime] forward
    by [now - pausedAt] and clears the pause fields. *)
Theorem pause_resume_no_drift (t1 t2 : Z) (w : World) (slug : string)
    (st : TimerState) (t0 : Z) :
  slug_of w = Some slug ->
  TimerManager.getState slug (localStorage w) = Ok (Some st) ->
  startTime st = VNum (Fin t0) -> 0 < t0 ->
  ToBoolean (isPaused st) = false ->
  t1 <= t2 ->
  exists w1 w2,
    pauseTimer t1 w = Ok w1 /\ resumeTimer t2 w1 = Ok w2
    /\ TimerManager.getState slug (localStorage w2)
       = Ok (Some {| startTime := VNum (Fin (t0 + (t2 - t1)));
                     servingSize := servingSize st;
                     currentStepId := currentStepId st;
                     isPaused := VBool false;
                     pausedAt := VNull |})
    /\ TimerManager.getElapsedMs t1 slug (localStorage w) = Ok (Fin (t1 - t0))
    /\ TimerManager.getElapsedMs t2 slug (localStorage w2) = Ok (Fin (t1 - t0)).
Proof.
  intros Hslug Hget Ht0 Hpos Hip Hle.
  pose proof (getState_storable _ _ _ Hget) as (_ & S2 & S3 & _).
  destruct (pauseTimer_stored t1 _ _ _ Hslug Hget) as (w1 & Hp1 & Hs1 & Hg1 & _).
  destruct (resumeTimer_stored t2 _ _ _ Hs1 Hg1 eq_refl) as (w2 & Hr2 & _ & Hg2 & _).
  assert (Hst : reread (resumed t2 (paused t1 st))
                = {| startTime := VNum (Fin (t0 + (t2 - t1)));
                     servingSize := servingSize st;
                     currentStepId := currentStepId st;
                     isPaused := VBool false;
                     pausedAt := VNull |}).
  { unfold resumed, paused. cbn. rewrite Ht0. cbn.
    apply reread_storable. by repeat split. }
  rewrite Hst in Hg2.
  exists w1, w2. repeat split; try done.
  - apply (getElapsedMs_running _ _ _ _ _ Hget Ht0); [lia | done].
  - replace (t1 - t0) with (t2 - (t0 + (t2 - t1))) by lia.
    apply (getElapsedMs_running _ _ _ _ _ Hg2); [done | cbn; lia | done].
Qed.

Lemma pause_fields_good_agree st : pause_fields_good st -> pause_fields_agree st.
Proof.
  unfold pause_fields_agree, is_set.
  intros [[-> [p ->]] | [-> ->]]; split; try done.
  intros [_ H]. done.
Qed.

Lemma step_invariant slug w w' :
  controls_invariant slug w -> step w w' -> controls_invariant slug w'.
Proof.
  intros (Hslug & r & Hget & Hgood) [c w'' Hrun].
  destruct c as [now selector | now | now]; cbn in Hrun.
  - destruct (startTimer_stored now selector _ _ _ Hslug Hget) as (v & Hv & Hs & Hg).
    rewrite Hv in Hrun. injection Hrun as <-.
    split; [done |]. eexists. split; [exact Hg |].
    intros st [= <-]. right. by split.
  - destruct r as [st |].
    + destruct (pauseTimer_stored now _ _ _ Hslug Hget) as (v & Hv & Hs & Hg & _).
      rewrite Hv in Hrun. injection Hrun as <-.
      split; [done |]. eexists. split; [exact Hg |].
      intros st' [= <-]. left. split; [done | by eexists].
    + rewrite (pauseTimer_none _ _ _ Hslug Hget) in Hrun. injection Hrun as <-.
      split; [done |]. by exists None.
  - destruct r as [st |].
    + destruct (ToBoolean (isPaused st)) eqn:Hip.
      * destruct (resumeTimer_stored now _ _ _ Hslug Hget Hip) as (v & Hv & Hs & Hg & _).
        rewrite Hv in Hrun. injection Hrun as <-.
        split; [done |]. eexists. split; [exact Hg |].
        intros st' [= <-]. right. by split.
      * rewrite (resumeTimer_not_paused _ _ _ _ Hslug Hget Hip) in Hrun.
        injection Hrun as <-. split; [done |]. by exists (Some st).
    + rewrite (resumeTimer_none _ _ _ Hslug Hget) in Hrun. injection Hrun as <-.
      split; [done |]. by exists None.
Qed.

Lemma reachable_invariant slug w :
  reachable slug w -> controls_invariant slug w.
Proof.
  induction 1 as [w [Hslug Hget] | w w' _ IH Hstep].
  - split; [done |]. exists None. by split.
  - by apply (step_invariant slug w).
Qed.


End ControlClaims.

Section ControlExamples.

Import JSON.

Lemma controls_total slug c w :
  controls_invariant slug w -> exists w', run c w = Ok w'.
Proof.
  intros (Hslug & r & Hget & _).
  destruct c as [now selector | now | now]; cbn.
  - destruct (startTimer_stored now selector _ _ _ Hslug Hget) as (v & Hv & _).
    by exists v.
  - destruct r as [st |].
    + destruct (pauseTimer_stored now _ _ _ Hslug Hget) as (v & Hv & _).
      by exists v.
    + exists w. by apply (pauseTimer_none _ _ slug).
  - destruct r as [st |].
    + destruct (ToBoolean (isPaused st)) eqn:Hip.
      * destruct (resumeTimer_stored now _ _ _ Hslug Hget Hip) as (v & Hv & _).
        by exists v.
      * exists w. by apply (resumeTimer_not_paused _ _ slug st).
    + exists w. by apply (resumeTimer_none _ _ slug).
Qed.

(** C5 fails on the code.  A timer started at [1000] is paused at [2000] and
    paused again at [3000]: the second call stores [pausedAt = 3000] over
    [2000], so the stored state changes and the frozen elapsed time moves
    from [1000] to [2000]. *)
Theorem pauseTimer_twice_moves_pausedAt :
  exists w1 w2,
    pauseTimer 2000 carbonara_running = Ok w1
    /\ pauseTimer 3000 w1 = Ok w2
    /\ TimerManager.getState "carbonara" (localStorage w1)
       = Ok (Some {| startTime := VNum (Fin 1000); servingSize := VNum (Fin 4);
                     currentStepId := VNull; isPaused := VBool true;
                     pausedAt := VNum (Fin 2000) |})
    /\ TimerManager.getState "carbonara" (localStorage w2)
       = Ok (Some {| startTime := VNum (Fin 1000); servingSize := VNum (Fin 4);
                     currentStepId := VNull; isPaused := VBool true;
                     pausedAt := VNum (Fin 3000) |})
    /\ localStorage w2 <> localStorage w1
    /\ TimerManager.getElapsedMs 5000 "carbonara" (localStorage w1) = Ok (Fin 1000)
    /\ TimerManager.getElapsedMs 5000 "carbonara" (localStorage w2) = Ok (Fin 2000).
Proof.
  destruct (pauseTimer_twice 2000 3000 carbonara_running "carbonara"
              {| startTime := VNum (Fin 1000); servingSize := VNum (Fin 4);
                 currentStepId := VNull; isPaused := VBool false;
                 pausedAt := VNull |} eq_refl eq_refl)
    as (w1 & w2 & H1 & H2 & G1 & G2).
  exists w1, w2. split; [done |]. split; [done |]. split; [done |].
  split; [done |]. split; [| split].
  - intros Heq. rewrite Heq, G1 in G2. discriminate.
  - by apply (getElapsedMs_frozen _ _ _ _ 1000 2000 G1).
  - by apply (getElapsedMs_frozen _ _ _ _ 1000 3000 G2).
Qed.

End ControlExamples.

(** ** Rounding to a double

    [Double.round] is monotone, leaves a double as it is, and sends [0] to
    [0]; this is all the properties below use of it. *)

Section DoubleFacts.

Import Double.
Local Open Scope Q_scope.

Lemma pow2_pos e : 0 < pow2 e.
Proof. apply Qpower_0_lt. reflexivity. Qed.

Lemma pow2_add a b : pow2 (a + b) == pow2 a * pow2 b.
Proof. apply Qpower_plus. discriminate. Qed.

Lemma pow2_sub a b : pow2 (a - b) == pow2 a / pow2 b.
Proof. apply Qpower_minus. discriminate. Qed.

Lemma pow2_le a b : (a <= b)%Z -> pow2 a <= pow2 b.
Proof. intros H. apply Qpower_le_compat_l; [exact H | discriminate]. Qed.

Lemma pow2_lt_inv a b : pow2 a < pow2 b -> (a < b)%Z.
Proof. intros H. apply (Qpower_lt_compat_l_inv 2); [exact H | reflexivity]. Qed.

Lemma pow2_Z n : (0 <= n)%Z -> pow2 n == inject_Z (2 ^ n).
Proof. intros H. unfold pow2. by rewrite Zpower_Qpower. Qed.

(** [2^k] lies on the grid of step [2^e] when [e <= k]. *)
Lemma pow2_multiple e k :
  (e <= k)%Z -> pow2 k == inject_Z (2 ^ (k - e)) * pow2 e.
Proof.
  intros H. rewrite <- pow2_Z by lia. rewrite <- pow2_add.
  by replace (k - e + e)%Z with k by lia.
Qed.

Lemma nearest_even_le x y : x <= y -> (nearest_even x <= nearest_even y)%Z.
Proof.
  intros Hxy. unfold nearest_even.
  pose proof (Qfloor_le x) as Lx. pose proof (Qlt_floor x) as Ux.
  pose proof (Qfloor_le y) as Ly. pose proof (Qlt_floor y) as Uy.
  pose proof (Qfloor_resp_le _ _ Hxy) as Hf.
  rewrite inject_Z_plus in Ux, Uy.
  destruct (Z.eq_dec (Qfloor x) (Qfloor y)) as [E | N].
  - rewrite E in *.
    destruct (Qcompare_spec (x - inject_Z (Qfloor y)) (1 # 2)),
             (Qcompare_spec (y - inject_Z (Qfloor y)) (1 # 2));
      destruct (Z.even (Qfloor y)); first [lia | exfalso; lra].
  - destruct (Qcompare_spec (x - inject_Z (Qfloor x)) (1 # 2)),
             (Qcompare_spec (y - inject_Z (Qfloor y)) (1 # 2));
      destruct (Z.even (Qfloor x)), (Z.even (Qfloor y)); lia.
Qed.

Lemma nearest_even_Z n : nearest_even (inject_Z n) = n.
Proof.
  unfold nearest_even. rewrite Qfloor_Z.
  destruct (Qcompare_spec (inject_Z n - inject_Z n) (1 # 2)) as [H | H | H];
    [exfalso; lra | reflexivity | exfalso; lra].
Qed.

Lemma nearest_even_proper x y : x == y -> nearest_even x = nearest_even y.
Proof.
  intros H. apply Z.le_antisymm; apply nearest_even_le; rewrite H; apply Qle_refl.
Qed.


Lemma inject_Z_pos n : (0 < n)%Z -> 0 < inject_Z n.
Proof. intros H. change 0 with (inject_Z 0). by rewrite <- Zlt_Qlt. Qed.

Lemma mag_spec x : 0 < x -> pow2 (mag x - 1) <= x /\ x < pow2 (mag x).
Proof.
  intros Hx. destruct x as [n d]. unfold mag. cbn [Qnum Qden].
  assert (0 < n)%Z as Hn by (unfold Qlt in Hx; cbn in Hx; lia).
  set (la := Z.log2 n). set (ld := Z.log2 (Z.pos d)).
  assert (0 <= la)%Z as Hla by apply Z.log2_nonneg.
  assert (0 <= ld)%Z as Hld by apply Z.log2_nonneg.
  destruct (Z.log2_spec n Hn) as [Ln Un]. fold la in Ln, Un.
  destruct (Z.log2_spec (Z.pos d) (Pos2Z.is_pos d)) as [Ld Ud].
  fold ld in Ld, Ud.
  assert (0 < 2 ^ la)%Z as Pa by (apply Z.pow_pos_nonneg; lia).
  assert (0 < 2 ^ ld)%Z as Pd by (apply Z.pow_pos_nonneg; lia).
  assert (n # d == inject_Z n / inject_Z (Z.pos d)) as Hq by apply Qmake_Qdiv.
  assert (0 < inject_Z (Z.pos d)) as Hd by (by apply inject_Z_pos).
  assert (n # d < pow2 (la - ld + 1)) as Hup.
  { replace (la - ld + 1)%Z with (Z.succ la - ld)%Z by lia.
    rewrite pow2_sub, !pow2_Z, Hq by lia.
    apply Qlt_shift_div_l; [by apply inject_Z_pos |].
    unfold Qdiv. rewrite <- Qmult_assoc, (Qmult_comm (/ _)), Qmult_assoc.
    apply Qlt_shift_div_r; [exact Hd |].
    rewrite <- !inject_Z_mult, <- Zlt_Qlt. nia. }
  assert (pow2 (la - ld - 1) <= n # d) as Hlow.
  { replace (la - ld - 1)%Z with (la - Z.succ ld)%Z by lia.
    rewrite pow2_sub, !pow2_Z, Hq by lia.
    apply Qle_shift_div_r;
      [apply inject_Z_pos, Z.pow_pos_nonneg; lia |].
    unfold Qdiv. rewrite <- Qmult_assoc, (Qmult_comm (/ _)), Qmult_assoc.
    apply Qle_shift_div_l; [exact Hd |].
    rewrite <- !inject_Z_mult, <- Zle_Qle. nia. }
  destruct (Qle_bool (pow2 (la - ld)) (n # d)) eqn:E.
  - apply Qle_bool_iff in E.
    replace (la - ld + 1 - 1)%Z with (la - ld)%Z by lia. by split.
  - split; [exact Hlow |].
    apply Qnot_le_lt. intros H. apply Qle_bool_iff in H. congruence.
Qed.

Lemma mag_unique x k : pow2 (k - 1) <= x -> x < pow2 k -> mag x = k.
Proof.
  intros L U.
  assert (0 < x) as Hx by (eapply Qlt_le_trans; [apply pow2_pos | exact L]).
  destruct (mag_spec x Hx) as [L' U'].
  assert (k - 1 < mag x)%Z
    by (apply pow2_lt_inv; eapply Qle_lt_trans; eassumption).
  assert (mag x - 1 < k)%Z
    by (apply pow2_lt_inv; eapply Qle_lt_trans; eassumption).
  lia.
Qed.

Lemma mag_below x k : 0 < x -> x < pow2 k -> (mag x <= k)%Z.
Proof.
  intros Hx U. destruct (mag_spec x Hx) as [L _].
  assert (mag x - 1 < k)%Z
    by (apply pow2_lt_inv; eapply Qle_lt_trans; eassumption).
  lia.
Qed.

Lemma mag_le x y : 0 < x -> x <= y -> (mag x <= mag y)%Z.
Proof.
  intros Hx Hxy.
  assert (0 < y) as Hy by (eapply Qlt_le_trans; eassumption).
  apply mag_below; [exact Hx |].
  eapply Qle_lt_trans; [exact Hxy | apply (mag_spec y Hy)].
Qed.

(** Rounding on the grid of step [2^e]. *)
Lemma grid_le e x y :
  x <= y ->
  inject_Z (nearest_even (x / pow2 e)) * pow2 e
  <= inject_Z (nearest_even (y / pow2 e)) * pow2 e.
Proof.
  intros Hxy. pose proof (pow2_pos e) as Hp.
  apply Qmult_le_compat_r; [| by apply Qlt_le_weak].
  rewrite <- Zle_Qle. apply nearest_even_le.
  apply Qmult_le_compat_r; [exact Hxy |].
  apply Qlt_le_weak, Qinv_lt_0_compat, Hp.
Qed.

Lemma grid_fix e n x :
  x == inject_Z n * pow2 e ->
  inject_Z (nearest_even (x / pow2 e)) * pow2 e == x.
Proof.
  intros Hx. pose proof (pow2_pos e) as Hp.
  assert (x / pow2 e == inject_Z n) as H.
  { rewrite Hx. apply Qdiv_mult_l. intros E. rewrite E in Hp. discriminate. }
  rewrite (nearest_even_proper _ _ H), nearest_even_Z. by rewrite Hx.
Qed.

Lemma grid_below e n x :
  x <= inject_Z n * pow2 e ->
  inject_Z (nearest_even (x / pow2 e)) * pow2 e <= inject_Z n * pow2 e.
Proof.
  intros H. eapply Qle_trans; [apply (grid_le e _ _ H) |].
  rewrite (grid_fix e n _ (Qeq_refl _)). apply Qle_refl.
Qed.

Lemma grid_above e n x :
  inject_Z n * pow2 e <= x ->
  inject_Z n * pow2 e <= inject_Z (nearest_even (x / pow2 e)) * pow2 e.
Proof.
  intros H. eapply Qle_trans; [| apply (grid_le e _ _ H)].
  rewrite (grid_fix e n _ (Qeq_refl _)). apply Qle_refl.
Qed.


Lemma exponent_le x y : 0 < x -> x <= y -> (exponent x <= exponent y)%Z.
Proof. intros Hx Hxy. pose proof (mag_le x y Hx Hxy). unfold exponent. lia. Qed.

Lemma round_pos_nonneg x : 0 <= x -> 0 <= round_pos x.
Proof.
  intros Hx. unfold round_pos.
  eapply Qle_trans; [| apply (grid_above _ 0)]; rewrite Qmult_0_l;
    [apply Qle_refl | exact Hx].
Qed.

Lemma round_pos_zero x : x <= 0 -> round_pos x <= 0.
Proof.
  intros Hx. unfold round_pos.
  eapply Qle_trans; [apply (grid_below _ 0) |]; rewrite Qmult_0_l;
    [exact Hx | apply Qle_refl].
Qed.

Lemma round_pos_le x y : 0 <= x -> x <= y -> round_pos x <= round_pos y.
Proof.
  intros Hx Hxy.
  assert (0 <= y) as Hy by (eapply Qle_trans; eassumption).
  destruct (Qlt_le_dec 0 x) as [Px | Zx].
  2: { eapply Qle_trans; [by apply round_pos_zero | by apply round_pos_nonneg]. }
  assert (0 < y) as Py by (eapply Qlt_le_trans; eassumption).
  pose proof (exponent_le x y Px Hxy) as He.
  destruct (Z.eq_dec (exponent x) (exponent y)) as [E | N].
  { unfold round_pos. rewrite E. by apply grid_le. }
  (* the exponents differ: a power of two lies between [x] and [y] *)
  assert (exponent y = mag y - 53 /\ mag x < mag y)%Z as [Ey Hm]
    by (unfold exponent in *; lia).
  destruct (mag_spec x Px) as [_ Ux]. destruct (mag_spec y Py) as [Ly _].
  set (k := (mag y - 1)%Z) in *.
  assert (x <= pow2 k) as Hxk.
  { apply Qlt_le_weak. eapply Qlt_le_trans; [exact Ux |]. apply pow2_le. lia. }
  assert (exponent x <= k)%Z as Hek by lia.
  assert (exponent y <= k)%Z as Hek' by lia.
  apply (Qle_trans _ (pow2 k)).
  - unfold round_pos. rewrite (pow2_multiple _ _ Hek).
    apply grid_below. by rewrite <- pow2_multiple.
  - unfold round_pos. rewrite (pow2_multiple _ _ Hek').
    apply grid_above. by rewrite <- pow2_multiple.
Qed.

Lemma round_pos_proper x y : 0 <= x -> x == y -> round_pos x == round_pos y.
Proof.
  intros Hx H. apply Qle_antisym; apply round_pos_le; rewrite <- ?H;
    first [exact Hx | apply Qle_refl].
Qed.

(** Rounding is monotone. *)
Lemma round_le x y : x <= y -> round x <= round y.
Proof.
  intros Hxy. unfold round.
  destruct (Qcompare_spec x 0) as [Ex | Nx | Px],
           (Qcompare_spec y 0) as [Ey | Ny | Py].
  - apply round_pos_le; [rewrite Ex; apply Qle_refl | exact Hxy].
  - exfalso. lra.
  - apply round_pos_le; [rewrite Ex; apply Qle_refl | exact Hxy].
  - apply (Qle_trans _ 0).
    + apply (Qopp_le_compat 0). apply round_pos_nonneg. lra.
    + apply round_pos_nonneg. rewrite Ey. apply Qle_refl.
  - apply Qopp_le_compat. apply round_pos_le; lra.
  - apply (Qle_trans _ 0).
    + apply (Qopp_le_compat 0). apply round_pos_nonneg. lra.
    + apply round_pos_nonneg. lra.
  - exfalso. lra.
  - exfalso. lra.
  - apply round_pos_le; lra.
Qed.

#[global] Instance round_proper : Proper (Qeq ==> Qeq) round.
Proof.
  intros x y H. apply Qle_antisym; apply round_le; rewrite H; apply Qle_refl.
Qed.

Lemma round_0 : round 0 == 0.
Proof. reflexivity. Qed.

(** A number on a grid fine enough for it is a double. *)
Lemma round_pos_fix y e n :
  0 < y -> y == inject_Z n * pow2 e -> (exponent y <= e)%Z -> round_pos y == y.
Proof.
  intros Py Hy He. unfold round_pos. apply (grid_fix _ (n * 2 ^ (e - exponent y))).
  rewrite inject_Z_mult, <- Qmult_assoc, <- pow2_multiple by exact He.
  exact Hy.
Qed.

Lemma round_pos_idem x : 0 <= x -> round_pos (round_pos x) == round_pos x.
Proof.
  intros Hx. pose proof (round_pos_nonneg x Hx) as Hy.
  destruct (Qlt_le_dec 0 (round_pos x)) as [Py | Zy].
  2: { pose proof (round_pos_zero _ Zy). pose proof (round_pos_nonneg _ Hy).
       lra. }
  destruct (Qlt_le_dec 0 x) as [Px | Zx].
  2: { exfalso. pose proof (round_pos_zero x Zx). lra. }
  set (e := exponent x). set (K := Z.max (mag x) e).
  destruct (mag_spec x Px) as [_ Ux].
  assert (e <= K)%Z as HeK by lia.
  assert (round_pos x <= pow2 K) as HyK.
  { unfold round_pos. fold e. rewrite (pow2_multiple _ _ HeK).
    apply grid_below. rewrite <- pow2_multiple by exact HeK.
    apply Qlt_le_weak. eapply Qlt_le_trans; [exact Ux |]. apply pow2_le. lia. }
  destruct (Qle_lt_or_eq _ _ HyK) as [Lt | Eq].
  - apply (round_pos_fix _ e (nearest_even (x / pow2 e))); [exact Py | reflexivity |].
    pose proof (mag_below _ _ Py Lt). unfold exponent in *. lia.
  - apply (round_pos_fix _ K 1); [exact Py | by rewrite Qmult_1_l |].
    assert (mag (round_pos x) = K + 1)%Z as Hm.
    { apply mag_unique.
      - replace (K + 1 - 1)%Z with K by lia. rewrite Eq. apply Qle_refl.
      - rewrite Eq. apply Qpower_lt_compat_l; [lia | reflexivity]. }
    unfold exponent in *. lia.
Qed.

Lemma round_nonneg x : 0 <= x -> round x = round_pos x.
Proof.
  intros Hx. unfold round.
  destruct (Qcompare_spec x 0); [reflexivity | exfalso; lra | reflexivity].
Qed.

Lemma round_neg x : x < 0 -> round x = - round_pos (- x).
Proof.
  intros Hx. unfold round.
  destruct (Qcompare_spec x 0); [exfalso; lra | reflexivity | exfalso; lra].
Qed.

(** What rounding gives is a double: rounding it again changes nothing. *)
Lemma round_idem x : round (round x) == round x.
Proof.
  destruct (Qlt_le_dec x 0) as [Nx | Px].
  - rewrite (round_neg x Nx).
    assert (0 <= - x) as Hx by lra.
    pose proof (round_pos_nonneg _ Hx) as Hy.
    destruct (Qlt_le_dec 0 (round_pos (- x))) as [Py | Zy].
    + rewrite round_neg by lra.
      rewrite (round_pos_proper (- - round_pos (- x)) (round_pos (- x)))
        by (lra || apply Qopp_involutive).
      by rewrite round_pos_idem.
    + assert (- round_pos (- x) == 0) as E by lra.
      rewrite E. reflexivity.
  - rewrite (round_nonneg x Px).
    rewrite round_nonneg by (by apply round_pos_nonneg).
    by apply round_pos_idem.
Qed.

Lemma round_nonneg_le x : 0 <= x -> 0 <= round x.
Proof.
  intros H. pose proof (round_le 0 x H) as L. by rewrite round_0 in L.
Qed.

Lemma round_nonpos_le x : x <= 0 -> round x <= 0.
Proof.
  intros H. pose proof (round_le x 0 H) as L. by rewrite round_0 in L.
Qed.

(** A rounded number that is positive comes from a positive one. *)
Lemma round_pos_inv x : 0 < round x -> 0 < x.
Proof.
  intros H. apply Qnot_le_lt. intros Hx.
  pose proof (round_nonpos_le x Hx). lra.
Qed.

(** Adding what is not negative to a double does not give less. *)
Lemma add_nonneg_le a b : round a == a -> 0 <= b -> a <= add a b.
Proof.
  intros Ha Hb. unfold add. pose proof (round_nonneg_le b Hb).
  pose proof (round_idem a) as Hi.
  pose proof (round_le (round a) (round a + round b) ltac:(lra)). lra.
Qed.

End DoubleFacts.

(** ** Sorting: permutation, order, stability *)

Lemma Qlt_bool_iff (a b : Q) : Qlt_bool a b = true <-> (a < b)%Q.
Proof.
  unfold Qlt_bool. rewrite negb_true_iff, <- not_true_iff_false, Qle_bool_iff.
  split; [apply Qnot_le_lt | apply Qlt_not_le].
Qed.

Section SortByKey.

Context {A : Type} (key : A -> Q).

Lemma by_key_le (a b : A) :
  Qle_bool (by_key key a b) 0 = true <-> key_le key a b.
Proof. rewrite Qle_bool_iff. unfold by_key, key_le. split; intros; lra. Qed.

Lemma by_key_gt (a b : A) :
  Qle_bool (by_key key a b) 0 = false -> (key b < key a)%Q.
Proof.
  intros H. apply Qnot_le_lt. intros Hle.
  assert (Qle_bool (by_key key a b) 0 = true) by (apply by_key_le; exact Hle).
  congruence.
Qed.

Lemma sort_insert_Permutation x l :
  Permutation (sort_insert (by_key key) x l) (x :: l).
Proof.
  induction l as [| y l IH]; cbn; [done |].
  destruct (Qle_bool (by_key key x y) 0); [done |].
  rewrite IH. apply perm_swap.
Qed.

Lemma Array_sort_Permutation l : Permutation (Array_sort (by_key key) l) l.
Proof.
  induction l as [| x l IH]; cbn; [done |].
  rewrite sort_insert_Permutation. by constructor.
Qed.

Lemma sort_insert_sorted x l :
  StronglySorted (key_le key) l ->
  StronglySorted (key_le key) (sort_insert (by_key key) x l).
Proof.
  induction 1 as [| y l Hl IH Hy]; cbn.
  - repeat constructor.
  - destruct (Qle_bool (by_key key x y) 0) eqn:E.
    + apply by_key_le in E. constructor; [by constructor |].
      constructor; [done |].
      eapply List.Forall_impl; [| exact Hy].
      intros z Hz. unfold key_le in *. lra.
    + apply by_key_gt in E. constructor; [done |].
      eapply Permutation_Forall; [symmetry; apply sort_insert_Permutation |].
      constructor; [unfold key_le; lra | done].
Qed.

Lemma Array_sort_sorted l :
  StronglySorted (key_le key) (Array_sort (by_key key) l).
Proof.
  induction l as [| x l IH]; cbn; [constructor | by apply sort_insert_sorted].
Qed.

Lemma sort_insert_with_key q x l :
  with_key key q (sort_insert (by_key key) x l) = with_key key q (x :: l).
Proof.
  induction l as [| y l IH]; [done |].
  cbn [sort_insert]. destruct (Qle_bool (by_key key x y) 0) eqn:E; [done |].
  apply by_key_gt in E.
  unfold with_key in *. cbn [List.filter] in *. rewrite IH.
  destruct (Qeq_bool (key x) q) eqn:Ex, (Qeq_bool (key y) q) eqn:Ey; try done.
  apply Qeq_bool_iff in Ex, Ey. lra.
Qed.

(** The sort is stable: elements with equal keys keep their order. *)
Lemma Array_sort_with_key q l :
  with_key key q (Array_sort (by_key key) l) = with_key key q l.
Proof.
  induction l as [| x l IH]; [done |].
  cbn [Array_sort]. rewrite sort_insert_with_key.
  unfold with_key in *. cbn [List.filter]. by rewrite IH.
Qed.

Lemma with_key_In q x l :
  In x (with_key key q l) <-> In x l /\ (key x == q)%Q.
Proof. unfold with_key. by rewrite filter_In, Qeq_bool_iff. Qed.

(** Sorted by key and stable determine the outcome: two sorted lists with
    the same elements of every key, in the same order, are equal. *)
Lemma sorted_stable_unique (r r' : list A) :
  StronglySorted (key_le key) r -> StronglySorted (key_le key) r' ->
  (forall q, with_key key q r = with_key key q r') ->
  r = r'.
Proof.
  intros Hr. revert r'.
  induction Hr as [| x r Hr IH Hx]; intros r' Hr' Heq.
  - destruct r' as [| y r']; [done |].
    specialize (Heq (key y)). unfold with_key in Heq. cbn in Heq.
    rewrite Qeq_bool_refl in Heq. discriminate.
  - destruct Hr' as [| y r' Hr' Hy].
    { specialize (Heq (key x)). unfold with_key in Heq. cbn in Heq.
      rewrite Qeq_bool_refl in Heq. discriminate. }
    assert (Hxy : (key x == key y)%Q).
    { assert (In x (with_key key (key x) (y :: r'))) as Hin1.
      { rewrite <- Heq. unfold with_key. cbn. rewrite Qeq_bool_refl. by left. }
      assert (In y (with_key key (key y) (x :: r))) as Hin2.
      { rewrite Heq. unfold with_key. cbn. rewrite Qeq_bool_refl. by left. }
      apply with_key_In in Hin1 as [Hin1 _], Hin2 as [Hin2 _].
      assert (key y <= key x)%Q.
      { destruct Hin1 as [<- | Hin1]; [lra |].
        rewrite List.Forall_forall in Hy. apply (Hy x Hin1). }
      assert (key x <= key y)%Q.
      { destruct Hin2 as [<- | Hin2]; [lra |].
        rewrite List.Forall_forall in Hx. apply (Hx y Hin2). }
      lra. }
    assert (x = y /\ forall q, with_key key q r = with_key key q r') as [-> Htl].
    { split.
      - specialize (Heq (key x)). unfold with_key in Heq. cbn in Heq.
        rewrite Qeq_bool_refl in Heq.
        assert (Qeq_bool (key y) (key x) = true) as E
          by (apply Qeq_bool_iff; lra).
        rewrite E in Heq. congruence.
      - intros q. specialize (Heq q). unfold with_key in *. cbn in Heq.
        destruct (Qeq_bool (key x) q) eqn:Ex, (Qeq_bool (key y) q) eqn:Ey.
        + congruence.
        + apply Qeq_bool_iff in Ex. apply Qeq_bool_neq in Ey. lra.
        + apply Qeq_bool_iff in Ey. apply Qeq_bool_neq in Ex. lra.
        + done. }
    f_equal. by apply IH.
Qed.

End SortByKey.

(** ** The timeline engine: [getUpcomingSteps], [getCurrentStep] *)

Section TimelineClaims.

Import TimelineManager.

Lemma is_upcoming_iff e item :
  is_upcoming e item = true <-> is_step item /\ (e < item_startMinute item)%Q.
Proof.
  destruct item as [a | i s l | t s]; cbn; rewrite ?Qlt_bool_iff;
    split; try tauto; try discriminate.
Qed.

(** C4: for every timeline and elapsed time, [getUpcomingSteps] returns
    exactly the top-level items (actions and parallel blocks) whose
    [startMinute] is strictly greater than the elapsed time, sorted ascending
    by [startMinute], items with equal [startMinute] keeping their order in
    the timeline; it is the only list with these properties. *)
Theorem getUpcomingSteps_sorted_stable (timeline : list TimelineItem) (e : Q) :
  let upcoming := getUpcomingSteps timeline e in
  let selected := List.filter (is_upcoming e) timeline in
  (forall item, In item upcoming
     <-> In item timeline /\ is_step item /\ (e < item_startMinute item)%Q)
  /\ Permutation upcoming selected
  /\ StronglySorted (key_le item_startMinute) upcoming
  /\ (forall q, with_key item_startMinute q upcoming
               = with_key item_startMinute q selected)
  /\ (forall r, StronglySorted (key_le item_startMinute) r ->
        (forall q, with_key item_startMinute q r
                   = with_key item_startMinute q selected) ->
        r = upcoming).
Proof.
  cbn zeta. unfold getUpcomingSteps.
  change (fun a b : TimelineItem => (item_startMinute a - item_startMinute b)%Q)
    with (by_key item_startMinute).
  split; [| split; [| split; [| split]]].
  - intros item. rewrite <- is_upcoming_iff, <- filter_In.
    split; apply Permutation_in;
      [| symmetry]; apply Array_sort_Permutation.
  - apply Array_sort_Permutation.
  - apply Array_sort_sorted.
  - intros q. apply Array_sort_with_key.
  - intros r Hsorted Hstable.
    apply (sorted_stable_unique item_startMinute); [done | |].
    + apply Array_sort_sorted.
    + intros q. by rewrite Hstable, Array_sort_with_key.
Qed.

Lemma current_visit_in_window e current a :
  in_window e a -> current_visit e current (ItemAction a) = Some a.
Proof.
  intros [H1 H2]. cbn.
  apply Qle_bool_iff in H1. apply Qlt_bool_iff in H2. by rewrite H1, H2.
Qed.

Lemma current_visit_outside e current a :
  ~ in_window e a -> current_visit e current (ItemAction a) = current.
Proof.
  intros H. cbn.
  destruct (Qle_bool (startMinute a) e) eqn:E1; [| done].
  destruct (Qlt_bool e (Double.add (startMinute a) (or_zero (durationMinutes a))))
    eqn:E2; [| done].
  destruct H. split; [by apply Qle_bool_iff | by apply Qlt_bool_iff].
Qed.

Lemma in_window_dec e a : {in_window e a} + {~ in_window e a}.
Proof.
  unfold in_window.
  destruct (Qlt_le_dec e (startMinute a)) as [H | H].
  - right. intros [H1 _]. lra.
  - destruct (Qlt_le_dec e (Double.add (startMinute a)
                              (or_zero (durationMinutes a)))) as [H' | H'].
    + by left.
    + right. intros [_ H2]. lra.
Qed.

(** Parallel blocks, and with them the actions inside, can be struck from
    the timeline without changing the current step. *)
Lemma getCurrentStep_ignores_blocks timeline e :
  getCurrentStep (List.filter is_action timeline) e = getCurrentStep timeline e.
Proof.
  unfold getCurrentStep. generalize (@None Action) as current.
  induction timeline as [| item timeline IH]; intros current; [done |].
  destruct item as [a | i s l | t s]; cbn [List.filter is_action fold_left];
    apply IH.
Qed.

(** C2: for every timeline and elapsed time, [getCurrentStep] returns the
    top-level action whose window [[startMinute, startMinute +
    durationMinutes)] contains the elapsed time, the last such action in
    timeline order when there are several, and nothing when there is none;
    actions inside parallel blocks play no part.  The end of the window is
    the sum the script computes, a sum of doubles ([in_window]). *)
Theorem getCurrentStep_last_wins (timeline : list TimelineItem) (e : Q) :
  match getCurrentStep timeline e with
  | Some a =>
      in_window e a
      /\ exists before after,
           timeline = before ++ ItemAction a :: after
           /\ forall a', In (ItemAction a') after -> ~ in_window e a'
  | None => forall a, In (ItemAction a) timeline -> ~ in_window e a
  end.
Proof.
  unfold getCurrentStep.
  induction timeline as [| item timeline IH] using rev_ind; [by cbn |].
  rewrite fold_left_app. cbn [fold_left].
  destruct item as [a | i s l | t s].
  - destruct (in_window_dec e a) as [Hin | Hout].
    + rewrite current_visit_in_window by done.
      split; [done |]. exists timeline, []. by split.
    + rewrite current_visit_outside by done.
      destruct (fold_left (current_visit e) timeline None) as [a0 |].
      * destruct IH as (Hw & before & after & -> & Hlast).
        split; [done |]. exists before, (after ++ [ItemAction a]).
        split; [by rewrite <- app_assoc |].
        intros a' [H | [[= <-] | []]]%in_app_or; [by apply Hlast | done].
      * intros a' [H | [[= <-] | []]]%in_app_or; [by apply IH | done].
  - cbn [current_visit].
    destruct (fold_left (current_visit e) timeline None) as [a0 |].
    + destruct IH as (Hw & before & after & -> & Hlast).
      split; [done |]. exists before, (after ++ [ItemParallel i s l]).
      split; [by rewrite <- app_assoc |].
      intros a' [H | [[=] | []]]%in_app_or. by apply Hlast.
    + intros a' [H | [[=] | []]]%in_app_or. by apply IH.
  - cbn [current_visit].
    destruct (fold_left (current_visit e) timeline None) as [a0 |].
    + destruct IH as (Hw & before & after & -> & Hlast).
      split; [done |]. exists before, (after ++ [ItemOther t s]).
      split; [by rewrite <- app_assoc |].
      intros a' [H | [[=] | []]]%in_app_or. by apply Hlast.
    + intros a' [H | [[=] | []]]%in_app_or. by apply IH.
Qed.

End TimelineClaims.

(** ** The tick: which card is marked *)

Section Highlight.

Import DOM.

Lemma is_next_unique e cards i j :
  is_next e cards i -> is_next e cards j -> i = j.
Proof.
  intros (ci & Hi & Hpi & Hmi & Hsi) (cj & Hj & Hpj & Hmj & Hsj).
  destruct (Nat.lt_trichotomy i j) as [Hlt | [-> | Hlt]]; [| done |].
  - specialize (Hsj i ci Hlt Hi Hpi). specialize (Hmi j cj Hj Hpj). lra.
  - specialize (Hsi j cj Hlt Hj Hpj). specialize (Hmj i ci Hi Hpi). lra.
Qed.

Lemma lookup_snoc_inv {A} (l : list A) (x y : A) j :
  (l ++ [x]) !! j = Some y ->
  (j < length l)%nat /\ l !! j = Some y \/ j = length l /\ y = x.
Proof.
  intros H. destruct (decide (j < length l)%nat) as [Hlt | Hge].
  - left. split; [done |]. by rewrite lookup_app_l in H.
  - right. rewrite lookup_app_r in H by lia.
    destruct (j - length l)%nat as [| k] eqn:E; cbn in H; [| done].
    split; [lia | congruence].
Qed.

Lemma highlight_visit_ok e seen h c :
  highlight_ok e seen h ->
  highlight_ok e (seen ++ [c]) (highlight_visit e h (length seen) c).
Proof.
  unfold highlight_ok, highlight_visit.
  destruct h as [[i |] [m |]]; cbn [nextStep minRemaining below]; try done.
  - intros [(ci & Hi & Hpi & Hmi & Hsi) (ci' & Hi' & ->)].
    assert (ci' = ci) as -> by congruence. clear Hi'.
    destruct (Qlt_bool 0 (remaining e c)) eqn:E0;
      [destruct (Qlt_bool (remaining e c) (remaining e ci)) eqn:E1 |];
      cbn [andb nextStep minRemaining].
    + apply Qlt_bool_iff in E0, E1.
      assert ((seen ++ [c]) !! length seen = Some c) as Hc
        by (by rewrite list_lookup_middle).
      split; [| by exists c]. exists c. repeat split; try done.
      * intros j c' [[_ Hj] | [_ ->]]%lookup_snoc_inv Hp; [| lra].
        specialize (Hmi j c' Hj Hp). lra.
      * intros j c' Hlt Hj Hp. rewrite lookup_app_l in Hj by done.
        specialize (Hmi j c' Hj Hp). lra.
    + apply Qlt_bool_iff in E0.
      assert (~ (remaining e c < remaining e ci)%Q) as E1'
        by (rewrite <- Qlt_bool_iff; congruence).
      assert ((seen ++ [c]) !! i = Some ci) as Hci
        by (rewrite lookup_app_l; [done | by eapply lookup_lt_Some]).
      split; [| by exists ci]. exists ci. repeat split; try done.
      * intros j c' [[_ Hj] | [_ ->]]%lookup_snoc_inv Hp; [by eapply Hmi | lra].
      * intros j c' Hlt Hj Hp. apply (Hsi j c' Hlt); [| done].
        rewrite lookup_app_l in Hj; [done |].
        apply lookup_lt_Some in Hi. lia.
    + assert (~ (0 < remaining e c)%Q) as E0'
        by (rewrite <- Qlt_bool_iff; congruence).
      assert ((seen ++ [c]) !! i = Some ci) as Hci
        by (rewrite lookup_app_l; [done | by eapply lookup_lt_Some]).
      split; [| by exists ci]. exists ci. repeat split; try done.
      * intros j c' [[_ Hj] | [_ ->]]%lookup_snoc_inv Hp; [by eapply Hmi | done].
      * intros j c' Hlt Hj Hp. apply (Hsi j c' Hlt); [| done].
        rewrite lookup_app_l in Hj; [done |].
        apply lookup_lt_Some in Hi. lia.
  - intros Hnone.
    destruct (Qlt_bool 0 (remaining e c)) eqn:E0; cbn [andb nextStep minRemaining].
    + apply Qlt_bool_iff in E0.
      assert ((seen ++ [c]) !! length seen = Some c) as Hc
        by (by rewrite list_lookup_middle).
      split; [| by exists c]. exists c. repeat split; try done.
      * intros j c' [[_ Hj] | [_ ->]]%lookup_snoc_inv Hp; [| lra].
        by destruct (Hnone j c' Hj).
      * intros j c' Hlt Hj Hp. rewrite lookup_app_l in Hj by done.
        by destruct (Hnone j c' Hj).
    + assert (~ (0 < remaining e c)%Q) as E0'
        by (rewrite <- Qlt_bool_iff; congruence).
      intros j c' [[_ Hj] | [_ ->]]%lookup_snoc_inv; [by eapply Hnone | done].
Qed.

Lemma highlight_loop_ok e cards seen h :
  highlight_ok e seen h ->
  highlight_ok e (seen ++ cards) (highlight_loop e (length seen) cards h).
Proof.
  revert seen h. induction cards as [| c cards IH]; intros seen h Hok; cbn.
  - by rewrite app_nil_r.
  - replace (seen ++ c :: cards) with ((seen ++ [c]) ++ cards)
      by (by rewrite <- app_assoc).
    replace (S (length seen)) with (length (seen ++ [c]))
      by (rewrite length_app; cbn; lia).
    apply IH. by apply highlight_visit_ok.
Qed.

Lemma highlight_loop_spec e cards :
  highlight_ok e cards
    (highlight_loop e 0 cards {| nextStep := None; minRemaining := None |}).
Proof.
  apply (highlight_loop_ok e cards []). intros j c H. done.
Qed.

End Highlight.

Section HighlightResult.

Import DOM.

Lemma highlight_with_lookup unmark mark e cards i c' :
  highlight_with unmark mark e cards !! i = Some c' ->
  exists c, cards !! i = Some c
    /\ ((is_next e cards i /\ c' = mark (Some (remaining e c)) (unmark c))
        \/ (~ is_next e cards i /\ c' = unmark c)).
Proof.
  unfold highlight_with. pose proof (highlight_loop_spec e cards) as Hok.
  destruct (highlight_loop e 0 cards _) as [[i0 |] [m |]];
    unfold highlight_ok in Hok; cbn [nextStep minRemaining] in *; try done.
  - destruct Hok as [Hnext (c0 & Hc0 & ->)].
    destruct (decide (i = i0)) as [-> | Hne].
    + rewrite list_lookup_alter_eq, list_lookup_fmap, Hc0. cbn.
      intros [= <-]. exists c0. split; [done |]. left. by split.
    + rewrite list_lookup_alter_ne, list_lookup_fmap by done.
      destruct (cards !! i) as [c |] eqn:Hc; cbn; [| done].
      intros [= <-]. exists c. split; [done |]. right. split; [| done].
      intros Hi. apply Hne. by apply (is_next_unique e cards).
  - rewrite list_lookup_fmap.
    destruct (cards !! i) as [c |] eqn:Hc; cbn; [| done].
    intros [= <-]. exists c. split; [done |]. right. split; [| done].
    intros (ci & Hi & Hp & _). by apply (Hok i ci).
Qed.

Lemma is_next_fmap (f : Card -> Card) e cards i :
  (forall c, data_startMinute (f c) = data_startMinute c) ->
  is_next e (f <$> cards) i <-> is_next e cards i.
Proof.
  intros Hf.
  assert (forall c, remaining e (f c) = remaining e c) as Hrem
    by (intros c; unfold remaining; by rewrite Hf).
  unfold is_next. split.
  - intros (c1 & H1 & Hp & Hmin & Hfirst).
    rewrite list_lookup_fmap in H1.
    destruct (cards !! i) as [c |] eqn:Hc; [| done].
    injection H1 as <-. rewrite Hrem in *.
    exists c. repeat split; try done.
    + intros j c' Hj Hp'. rewrite <- (Hrem c'). apply (Hmin j).
      * by rewrite list_lookup_fmap, Hj.
      * by rewrite Hrem.
    + intros j c' Hlt Hj Hp'. rewrite <- (Hrem c'). apply (Hfirst j); [done | |].
      * by rewrite list_lookup_fmap, Hj.
      * by rewrite Hrem.
  - intros (c & Hc & Hp & Hmin & Hfirst).
    exists (f c). rewrite list_lookup_fmap, Hc, Hrem. repeat split; try done.
    + intros j c1 Hj Hp'. rewrite list_lookup_fmap in Hj.
      destruct (cards !! j) as [c' |] eqn:Hc'; [| done].
      injection Hj as <-. rewrite Hrem in *. by apply (Hmin j).
    + intros j c1 Hlt Hj Hp'. rewrite list_lookup_fmap in Hj.
      destruct (cards !! j) as [c' |] eqn:Hc'; [| done].
      injection Hj as <-. rewrite Hrem in *. by apply (Hfirst j).
Qed.

Lemma StepTicket_countdown_visit_startMinute e c :
  data_startMinute (StepTicket.countdown_visit e c) = data_startMinute c.
Proof.
  unfold StepTicket.countdown_visit.
  destruct (countdownEl c); [| done].
  destruct (_ && _); [done |]. by destruct (Qle_bool _ _).
Qed.

Lemma StepCard_countdown_visit_startMinute e c :
  data_startMinute (StepCard.countdown_visit e c) = data_startMinute c.
Proof.
  unfold StepCard.countdown_visit.
  destruct (countdownEl c); [| done].
  destruct (_ && _); [done |]. by destruct (Qle_bool _ _).
Qed.

(** The ticket copy does what C6 says: after a tick, the card marked
    [step-ticket--next] is the first one with the smallest strictly positive
    remaining time, and it carries [step-ticket--firing] exactly when that
    time is under half a minute. *)
Lemma StepTicket_marks_next_and_firing (elapsedMs : Z) (cards : list Card)
    (i : nat) (c' : Card) :
  let e := (Double.div (inject_Z elapsedMs) 60000) in
  StepTicket.updateStepCountdowns elapsedMs cards !! i = Some c' ->
  ("step-ticket--next" ∈ classList c' <-> is_next e cards i)
  /\ ("step-ticket--firing" ∈ classList c'
      <-> is_next e cards i
          /\ exists c, cards !! i = Some c /\ (remaining e c < 1 # 2)%Q).
Proof.
  intros e. unfold StepTicket.updateStepCountdowns. fold e.
  change (StepTicket.highlightNextStep e ?l)
    with (highlight_with StepTicket.unmark StepTicket.mark e l).
  intros (c1 & Hc1 & Hcase)%highlight_with_lookup.
  rewrite is_next_fmap in Hcase by apply StepTicket_countdown_visit_startMinute.
  rewrite list_lookup_fmap in Hc1.
  destruct (cards !! i) as [c |] eqn:Hc; [| done]. injection Hc1 as <-.
  assert (remaining e (StepTicket.countdown_visit e c) = remaining e c) as Hrem
    by (unfold remaining; by rewrite StepTicket_countdown_visit_startMinute).
  rewrite Hrem in Hcase. clear Hrem.
  set (c1 := StepTicket.countdown_visit e c) in *.
  destruct Hcase as [[Hnext ->] | [Hnot ->]].
  - unfold StepTicket.mark, StepTicket.unmark, add, remove. cbn.
    destruct (Qlt_bool (remaining e c) (1 # 2)) eqn:E; cbn.
    + apply Qlt_bool_iff in E. split; [set_solver |].
      split; [| set_solver]. intros _. split; [done |]. by exists c.
    + assert (~ (remaining e c < 1 # 2)%Q) as E'
        by (rewrite <- Qlt_bool_iff; congruence).
      split; [set_solver |]. split.
      * intros H. exfalso. set_solver.
      * intros [_ (c0 & [= <-] & H)]. done.
  - unfold StepTicket.unmark, add, remove. cbn. split.
    + split; [set_solver | done].
    + split; [set_solver | tauto].
Qed.

(** In [src/js/timer.js] the mark of the next card is the pair [border-2],
    [border-accent]. *)
Lemma StepCard_marks_next (elapsedMs : Z) (cards : list Card)
    (i : nat) (c' : Card) :
  let e := (Double.div (inject_Z elapsedMs) 60000) in
  StepCard.updateStepCountdowns elapsedMs cards !! i = Some c' ->
  ("border-accent" ∈ classList c' <-> is_next e cards i)
  /\ ("border-2" ∈ classList c' <-> is_next e cards i).
Proof.
  intros e. unfold StepCard.updateStepCountdowns. fold e.
  change (StepCard.highlightNextStep e ?l)
    with (highlight_with StepCard.unmark (fun _ => StepCard.mark) e l).
  intros (c1 & Hc1 & Hcase)%highlight_with_lookup.
  rewrite is_next_fmap in Hcase by apply StepCard_countdown_visit_startMinute.
  destruct Hcase as [[Hnext ->] | [Hnot ->]].
  - unfold StepCard.mark, StepCard.unmark, add, remove. cbn. set_solver.
  - unfold StepCard.unmark, add, remove. cbn. set_solver.
Qed.

End HighlightResult.

Section TickExamples.

Import DOM.

(** [src/js/timer.js] puts no class on a card besides these four. *)
Lemma StepCard_classes (elapsedMs : Z) (cards : list Card) (i : nat) (c c' : Card) :
  cards !! i = Some c ->
  StepCard.updateStepCountdowns elapsedMs cards !! i = Some c' ->
  classList c' ⊆ classList c
    ∪ list_to_set ["hidden"; "opacity-60"; "border-2"; "border-accent"].
Proof.
  intros Hc. unfold StepCard.updateStepCountdowns.
  set (e := (Double.div (inject_Z elapsedMs) 60000)).
  change (StepCard.highlightNextStep e ?l)
    with (highlight_with StepCard.unmark (fun _ => StepCard.mark) e l).
  intros (c1 & Hc1 & Hcase)%highlight_with_lookup.
  rewrite list_lookup_fmap, Hc in Hc1. injection Hc1 as <-.
  assert (classList (StepCard.countdown_visit e c) ⊆ classList c
            ∪ list_to_set ["hidden"; "opacity-60"]) as Hvisit.
  { unfold StepCard.countdown_visit.
    destruct (countdownEl c); [| set_solver].
    destruct (_ && _); [unfold add; cbn; set_solver |].
    destruct (Qle_bool _ _); unfold add, remove; cbn; set_solver. }
  destruct Hcase as [[_ ->] | [_ ->]];
    unfold StepCard.mark, StepCard.unmark, add, remove; cbn; set_solver.
Qed.

(** C6 fails on [src/js/timer.js].  With one card starting at minute [1]
    and [45] seconds elapsed, the card is the next one with [15] seconds
    left: the tick marks it as next ([border-2], [border-accent]) and puts
    nothing else on it, exactly as with a full minute left; the ticket copy
    of the script adds [step-ticket--firing] at the same input. *)
Theorem StepCard_next_without_firing :
  classList <$> StepCard.updateStepCountdowns 45000 [sear_card]
    = [list_to_set ["border-2"; "border-accent"]]
  /\ classList <$> StepCard.updateStepCountdowns 0 [sear_card]
    = [list_to_set ["border-2"; "border-accent"]]
  /\ classList <$> StepTicket.updateStepCountdowns 45000 [sear_card]
    = [list_to_set ["step-ticket--waiting"; "step-ticket--next";
                    "step-ticket--firing"]]
  /\ classList <$> StepTicket.updateStepCountdowns 0 [sear_card]
    = [list_to_set ["step-ticket--waiting"; "step-ticket--next"]].
Proof. repeat split; vm_compute; reflexivity. Qed.

End TickExamples.

(** ** Worked scenarios *)

Section Scenarios.

Import JSON TimelineManager.

(** Scenario A: at minute [2] the current step is ["a"], the next ["b"]. *)
Example scenario_A :
  getCurrentStep [ItemAction step_a; ItemAction step_b] 2 = Some step_a
  /\ getNextStep [ItemAction step_a; ItemAction step_b] 2 = Some (ItemAction step_b).
Proof. split; reflexivity. Qed.

(** Scenario B: at minute [6] the current step is ["b"]. *)
Example scenario_B :
  getCurrentStep [ItemAction step_a; ItemAction step_b] 6 = Some step_b.
Proof. reflexivity. Qed.

(** Scenario C: of two actions with the same window the later one wins. *)
Example scenario_C :
  getCurrentStep [ItemAction step_x; ItemAction step_y] 1 = Some step_y.
Proof. reflexivity. Qed.

(** An action inside a parallel block is never the current step. *)
Example scenario_parallel :
  getCurrentStep [ItemParallel "p" 0 [step_x; step_y]] 1 = None.
Proof. reflexivity. Qed.

(** Items out of order come back sorted, equal start minutes in timeline
    order. *)
Example scenario_upcoming :
  getUpcomingSteps
    [ItemAction step_b; ItemParallel "p" 5 [step_x]; ItemAction step_a;
     ItemOther "note" 7; ItemParallel "q" 2 []] 1
  = [ItemParallel "q" 2 []; ItemAction step_b; ItemParallel "p" 5 [step_x]].
Proof. reflexivity. Qed.

Lemma getElapsedMs_meets_spec_witness :
  TimerManager.getState "carbonara" store_D = Ok (Some carbonara_held)
  /\ elapsedMs_spec 1700000999999 (Some carbonara_held) 5000
  /\ TimerManager.getElapsedMs 1700000999999 "carbonara" store_D = Ok (Fin 5000).
Proof.
  assert (H1 : TimerManager.getState "carbonara" store_D
               = Ok (Some carbonara_held)) by reflexivity.
  assert (H2 : elapsedMs_spec 1700000999999 (Some carbonara_held) 5000).
  { apply (elapsed_paused _ carbonara_held 1700000000000 1700000005000);
      (reflexivity || discriminate). }
  split; [exact H1 |]. split; [exact H2 |].
  exact (getElapsedMs_meets_spec _ _ _ _ _ H1 H2).
Defined.

Lemma getElapsedMs_paused_without_pausedAt_witness :
  TimerManager.getState "carbonara" store_odd = Ok (Some carbonara_odd)
  /\ startTime carbonara_odd = VNum (Fin 1000) /\ 1000 <> 0
  /\ isPaused carbonara_odd = VBool true
  /\ pausedAt carbonara_odd = VNull
  /\ TimerManager.getElapsedMs 5000 "carbonara" store_odd = Ok (Fin 4000).
Proof.
  assert (Hnz : 1000 <> 0) by discriminate.
  repeat (split; [first [reflexivity | exact Hnz] |]).
  exact (getElapsedMs_paused_without_pausedAt 5000 "carbonara" store_odd
           carbonara_odd 1000 eq_refl eq_refl Hnz eq_refl
           (or_intror (or_introl eq_refl))).
Defined.


Lemma pause_resume_no_drift_witness :
  slug_of carbonara_running = Some "carbonara"
  /\ 0 < 1000 /\ 2000 <= 9000
  /\ exists w1 w2,
       pauseTimer 2000 carbonara_running = Ok w1
       /\ resumeTimer 9000 w1 = Ok w2
       /\ TimerManager.getState "carbonara" (localStorage w2)
          = Ok (Some {| startTime := VNum (Fin (1000 + (9000 - 2000)));
                        servingSize := VNum (Fin 4);
                        currentStepId := VNull;
                        isPaused := VBool false;
                        pausedAt := VNull |})
       /\ TimerManager.getElapsedMs 2000 "carbonara" (localStorage carbonara_running)
          = Ok (Fin (2000 - 1000))
       /\ TimerManager.getElapsedMs 9000 "carbonara" (localStorage w2)
          = Ok (Fin (2000 - 1000)).
Proof.
  assert (Hpos : 0 < 1000) by reflexivity.
  assert (Hle : 2000 <= 9000) by discriminate.
  split; [reflexivity |]. split; [exact Hpos |]. split; [exact Hle |].
  exact (pause_resume_no_drift 2000 9000 carbonara_running "carbonara"
           {| startTime := VNum (Fin 1000); servingSize := VNum (Fin 4);
              currentStepId := VNull; isPaused := VBool false;
              pausedAt := VNull |} 1000
           eq_refl eq_refl eq_refl Hpos eq_refl Hle).
Defined.


End Scenarios.

(** ** More of the store: writing, clearing, failing *)

Section StoreExtras.

Import JSON.

Lemma readable_object_inv ls m slug s :
  readable ls m -> m !! slug = Some s -> ls = Some (WellFormed (DObject m)).
Proof. destruct 1; [by rewrite lookup_empty .. | done]. Qed.

Lemma setState_Ok_readable slug st ls ls' :
  TimerManager.setState slug st ls = Ok ls' -> exists m, readable ls m.
Proof.
  destruct ls as [[| | [| m]] |]; cbn; intros H; try discriminate.
  - exists ∅. constructor.
  - exists m. constructor.
  - exists ∅. constructor.
Qed.

(** X1: on a store [getState] can read, and for a slug that is not the
    name of a member of [Object.prototype], [setState] returns, and the
    state then read back under the same slug is the one written, a [NaN]
    field read back as [null]; a state without [NaN] comes back as it
    was. *)
Theorem setState_then_getState (slug : string) (st : TimerState)
    (ls : Storage) (r : option TimerState) :
  plain_key slug ->
  TimerManager.getState slug ls = Ok r ->
  exists ls',
    TimerManager.setState slug st ls = Ok ls'
    /\ TimerManager.getState slug ls' = Ok (Some (reread st))
    /\ (all_storable st -> TimerManager.getState slug ls' = Ok (Some st)).
Proof.
  intros _ (m & Hr & _)%getState_Ok_readable.
  destruct (getState_setState slug st _ _ Hr) as (ls' & Hset & Hget & _).
  exists ls'. split; [done |]. split; [done |].
  intros Hst. by rewrite Hget, reread_storable.
Qed.


(** X3: the store functions fail together: [setState], [clearState] and
    [getElapsedMs] throw exactly when the text under the key does not parse
    or is [null], which is when [getState] throws. *)
Theorem store_functions_throw_together (slug : string) (st : TimerState)
    (now : Z) (ls : Storage) :
  (throws (TimerManager.getState slug ls) <-> unreadable ls)
  /\ (throws (TimerManager.setState slug st ls) <-> unreadable ls)
  /\ (throws (TimerManager.clearState slug ls) <-> unreadable ls)
  /\ (throws (TimerManager.getElapsedMs now slug ls) <-> unreadable ls).
Proof.
  unfold unreadable.
  split; [apply getState_throws_iff |].
  split; [| split].
  - destruct ls as [[| | [| m]] |]; cbn; split; intros H;
      try tauto; try (destruct H; discriminate); auto.
  - destruct ls as [[| | [| m]] |]; cbn; split; intros H;
      try tauto; try (destruct H; discriminate); auto.
  - rewrite <- (getState_throws_iff slug).
    destruct (TimerManager.getState slug ls) as [r | e] eqn:Hget.
    + destruct (getElapsedMs_finite now _ _ _ Hget) as (ms & ->). by cbn.
    + unfold TimerManager.getElapsedMs. rewrite Hget. by cbn.
Qed.

(** X4: when [clearState] returns, for a slug that is not the name of a
    member of [Object.prototype], the recipe has no state, and clearing
    again changes nothing; with nothing under the key it writes nothing. *)
Theorem clearState_idempotent (slug : string) (ls ls' : Storage) :
  plain_key slug ->
  TimerManager.clearState slug ls = Ok ls' ->
  TimerManager.getState slug ls' = Ok None
  /\ TimerManager.clearState slug ls' = Ok ls'
  /\ (ls = None -> ls' = None).
Proof.
  intros _.
  destruct ls as [[| | [| m]] |]; cbn; intros H; try discriminate;
    injection H as <-.
  - by cbn.
  - rewrite fmap_delete, stringify_parse_map.
    rewrite getState_object, clearState_object, lookup_delete_eq.
    rewrite delete_delete_eq. by cbn.
  - by cbn.
Qed.

End StoreExtras.

(** ** More of the controls: restart, reset, calls out of order *)

Section ControlExtras.

Import JSON.

(** X5: for a timer the controls have written, [getElapsedMs] returns a
    number: in every world reached from Stopped by [startTimer],
    [pauseTimer] and [resumeTimer], in any order and at any clock readings,
    it neither throws nor yields [NaN].  The slug is not the name of a
    member of [Object.prototype]. *)
Theorem getElapsedMs_never_NaN (now : Z) (slug : string) (w : World) :
  plain_key slug ->
  reachable slug w ->
  exists ms,
    TimerManager.getElapsedMs now slug (localStorage w) = Ok (Fin ms).
Proof.
  intros _ Hreach.
  destruct (reachable_invariant _ _ Hreach) as (_ & r & Hget & _).
  by apply (getElapsedMs_finite now slug _ r).
Qed.

Lemma reread_started now selector :
  reread (started now selector) = fresh_state now selector.
Proof.
  unfold reread, started, fresh_state, State_map. cbn.
  by destruct (getSelectedServingSize selector).
Qed.

(** X6: [startTimer] starts over: whatever state the recipe had, the stored
    state afterwards is the fresh one (not paused, [pausedAt] null, the
    selected serving size or [4] without a selector), the interval is
    installed, and the elapsed time at any later reading [now] is
    [now - t0].  The current recipe is not named like a member of
    [Object.prototype]. *)
Theorem startTimer_starts_over (t0 now : Z) (selector : option number)
    (w : World) (slug : string) (r : option TimerState) :
  plain_key slug ->
  slug_of w = Some slug ->
  TimerManager.getState slug (localStorage w) = Ok r ->
  t0 <> 0 ->
  exists w',
    startTimer t0 selector w = Ok w'
    /\ TimerManager.getState slug (localStorage w')
       = Ok (Some (fresh_state t0 selector))
    /\ TimerManager.getElapsedMs now slug (localStorage w') = Ok (Fin (now - t0))
    /\ timerInterval w' = true.
Proof.
  intros _ Hslug Hget Hnz.
  destruct (startTimer_stored t0 selector _ _ _ Hslug Hget) as (w' & Hw & _ & Hg).
  rewrite reread_started in Hg.
  assert (timerInterval w' = true) as Hti.
  { unfold startTimer in Hw. rewrite Hslug in Hw.
    destruct (TimerManager.setState _ _ _); cbn in Hw; [| done].
    by injection Hw as <-. }
  exists w'. repeat split; try done.
  by apply (getElapsedMs_running _ _ _ _ t0 Hg).
Qed.

Lemma clearState_readable slug ls m :
  readable ls m ->
  exists ls', TimerManager.clearState slug ls = Ok ls'
    /\ readable ls' (delete slug m).
Proof.
  destruct 1.
  - exists None. split; [done |]. rewrite delete_empty. constructor.
  - exists (Some EmptyText). split; [done |]. rewrite delete_empty. constructor.
  - eexists. split; [apply clearState_object | constructor].
Qed.

(** X7: a confirmed [resetTimer] removes the state of the current recipe
    and of no other, stops the interval, and leaves the elapsed time at [0];
    a declined one changes nothing.  The current recipe is not named like a
    member of [Object.prototype]. *)
Theorem resetTimer_forgets_current_recipe (now : Z) (w : World)
    (slug : string) (r : option TimerState) :
  plain_key slug ->
  slug_of w = Some slug ->
  TimerManager.getState slug (localStorage w) = Ok r ->
  resetTimer false w = Ok w
  /\ exists w',
       resetTimer true w = Ok w'
       /\ TimerManager.getState slug (localStorage w') = Ok None
       /\ TimerManager.getElapsedMs now slug (localStorage w') = Ok (Fin 0)
       /\ timerInterval w' = false
       /\ forall other, other <> slug ->
            TimerManager.getState other (localStorage w')
            = TimerManager.getState other (localStorage w).
Proof.
  intros _ Hslug (m & Hr & _)%getState_Ok_readable.
  split; [unfold resetTimer; by rewrite Hslug |].
  destruct (clearState_readable slug _ _ Hr) as (ls' & Hclear & Hr').
  unfold resetTimer. rewrite Hslug, Hclear. cbn.
  eexists. split; [reflexivity |]. cbn.
  assert (TimerManager.getState slug ls' = Ok None) as Hnone.
  { rewrite (getState_readable _ _ _ Hr'). by rewrite lookup_delete_eq. }
  split; [done |]. split.
  { unfold TimerManager.getElapsedMs. by rewrite Hnone. }
  split; [done |]. intros other Hne.
  rewrite (getState_readable _ _ _ Hr'), (getState_readable _ _ _ Hr).
  by rewrite lookup_delete_ne.
Qed.

(** X8: a control called out of order does nothing and does not fail:
    every control without a current recipe, [pauseTimer] and [resumeTimer]
    with no stored state, and [resumeTimer] on a state that is not paused
    return the world as it was; with a current recipe, it is one not named
    like a member of [Object.prototype]. *)
Theorem controls_out_of_order (now : Z) (selector : option number)
    (confirmed : bool) (w : World) :
  (slug_of w = None ->
     startTimer now selector w = Ok w /\ pauseTimer now w = Ok w
     /\ resumeTimer now w = Ok w /\ resetTimer confirmed w = Ok w)
  /\ (forall slug, plain_key slug -> slug_of w = Some slug ->
        TimerManager.getState slug (localStorage w) = Ok None ->
        pauseTimer now w = Ok w /\ resumeTimer now w = Ok w)
  /\ (forall slug st, plain_key slug -> slug_of w = Some slug ->
        TimerManager.getState slug (localStorage w) = Ok (Some st) ->
        ToBoolean (isPaused st) = false ->
        resumeTimer now w = Ok w).
Proof.
  split; [| split].
  - intros Hnone. unfold startTimer, pauseTimer, resumeTimer, resetTimer.
    by rewrite Hnone.
  - intros slug _ Hslug Hget. split.
    + by apply (pauseTimer_none _ _ slug).
    + by apply (resumeTimer_none _ _ slug).
  - intros slug st _ Hslug Hget Hip.
    by apply (resumeTimer_not_paused _ _ slug st).
Qed.

(** X9: [resumeTimer] is idempotent: when it returns, a second call, at
    whatever clock reading, returns the same world. *)
Theorem resumeTimer_twice (t t' : Z) (w w1 : World) :
  resumeTimer t w = Ok w1 -> resumeTimer t' w1 = Ok w1.
Proof.
  intros H1.
  destruct (slug_of w) as [slug |] eqn:Hslug.
  2: { assert (w1 = w) as ->
         by (unfold resumeTimer in H1; rewrite Hslug in H1; by injection H1).
       unfold resumeTimer. by rewrite Hslug. }
  destruct (TimerManager.getState slug (localStorage w)) as [r | e] eqn:Hget.
  2: { unfold resumeTimer in H1. rewrite Hslug, Hget in H1. done. }
  destruct r as [st |].
  2: { rewrite (resumeTimer_none _ _ _ Hslug Hget) in H1. injection H1 as <-.
       by apply (resumeTimer_none _ _ slug). }
  destruct (ToBoolean (isPaused st)) eqn:Hip.
  - destruct (resumeTimer_stored t _ _ _ Hslug Hget Hip) as (v & Hv & Hs & Hg & _).
    rewrite Hv in H1. injection H1 as <-.
    by apply (resumeTimer_not_paused _ _ slug _ Hs Hg).
  - rewrite (resumeTimer_not_paused _ _ _ _ Hslug Hget Hip) in H1.
    injection H1 as <-. by apply (resumeTimer_not_paused _ _ slug st).
Qed.

(** X10: when [pauseTimer] runs twice before a [resumeTimer], the elapsed
    time after the resume is the one at the second pause: the time between
    the two pauses is counted, whatever the first clock reading was. *)
Theorem pause_pause_resume (t1 t2 t3 : Z) (w : World) (slug : string)
    (st : TimerState) (t0 : Z) :
  slug_of w = Some slug ->
  TimerManager.getState slug (localStorage w) = Ok (Some st) ->
  startTime st = VNum (Fin t0) -> 0 < t0 ->
  t2 <= t3 ->
  exists w1 w2 w3,
    pauseTimer t1 w = Ok w1 /\ pauseTimer t2 w1 = Ok w2
    /\ resumeTimer t3 w2 = Ok w3
    /\ TimerManager.getElapsedMs t3 slug (localStorage w3) = Ok (Fin (t2 - t0)).
Proof.
  intros Hslug Hget Ht0 Hpos Hle.
  pose proof (getState_storable _ _ _ Hget) as (_ & S2 & S3 & _).
  destruct (pauseTimer_stored t1 _ _ _ Hslug Hget) as (w1 & Hp1 & Hs1 & Hg1 & _).
  destruct (pauseTimer_stored t2 _ _ _ Hs1 Hg1) as (w2 & Hp2 & Hs2 & Hg2 & _).
  destruct (resumeTimer_stored t3 _ _ _ Hs2 Hg2 eq_refl) as (w3 & Hr3 & _ & Hg3 & _).
  exists w1, w2, w3. repeat split; try done.
  assert (reread (resumed t3 (paused t2 (paused t1 st)))
          = {| startTime := VNum (Fin (t0 + (t3 - t2)));
               servingSize := servingSize st;
               currentStepId := currentStepId st;
               isPaused := VBool false;
               pausedAt := VNull |}) as Hst.
  { unfold resumed, paused. cbn. rewrite Ht0. cbn.
    apply reread_storable. by repeat split. }
  rewrite Hst in Hg3.
  replace (t2 - t0) with (t3 - (t0 + (t3 - t2))) by lia.
  apply (getElapsedMs_running _ _ _ _ _ Hg3); [done | cbn; lia | done].
Qed.

End ControlExtras.

(** ** More of the timeline: next step, critical path, later queries *)

Section TimelineExtras.

Import TimelineManager.

Lemma filter_filter_andb {A} (f g : A -> bool) (l : list A) :
  List.filter f (List.filter g l) = List.filter (fun x => g x && f x) l.
Proof.
  induction l as [| x l IH]; [done |]. cbn.
  destruct (g x); cbn; [destruct (f x) |]; by rewrite IH.
Qed.

Lemma filter_filter_comm {A} (f g : A -> bool) (l : list A) :
  List.filter f (List.filter g l) = List.filter g (List.filter f l).
Proof.
  rewrite !filter_filter_andb. apply filter_ext. intros x. apply andb_comm.
Qed.

(** The first element a filter lets through, and what came before it. *)
Lemma filter_head_split {A} (f : A -> bool) (l : list A) (x : A) (rest : list A) :
  List.filter f l = x :: rest ->
  exists before after,
    l = before ++ x :: after /\ f x = true
    /\ forall y, In y before -> f y = false.
Proof.
  induction l as [| y l IH]; [done |]. cbn.
  destruct (f y) eqn:Hy.
  - intros [= -> <-]. exists [], l. by repeat split.
  - intros (before & after & -> & Hx & Hb)%IH.
    exists (y :: before), after. repeat split; [done |].
    intros z [<- | Hz]; [done | by apply Hb].
Qed.

Lemma StronglySorted_filter {A} (R : A -> A -> Prop) (f : A -> bool) l :
  StronglySorted R l -> StronglySorted R (List.filter f l).
Proof.
  induction 1 as [| x l Hl IH Hx]; cbn; [constructor |].
  destruct (f x); [| done]. constructor; [done |].
  rewrite List.Forall_forall in *. intros y [Hy _]%filter_In. by apply Hx.
Qed.

Lemma getUpcomingSteps_unfold timeline e :
  getUpcomingSteps timeline e
  = Array_sort (by_key item_startMinute) (List.filter (is_upcoming e) timeline).
Proof. reflexivity. Qed.

(** X11: [getNextStep] returns nothing exactly when no top-level action or
    block starts after the elapsed time; otherwise it returns one that
    does, with the smallest [startMinute] of them all, and of those with
    that [startMinute] the first in the timeline. *)
Theorem getNextStep_earliest_first (timeline : list TimelineItem) (e : Q) :
  match getNextStep timeline e with
  | Some n =>
      is_step n /\ (e < item_startMinute n)%Q
      /\ (forall x, In x timeline -> is_step x -> (e < item_startMinute x)%Q ->
            (item_startMinute n <= item_startMinute x)%Q)
      /\ exists before after,
           timeline = before ++ n :: after
           /\ forall x, In x before -> is_step x -> (e < item_startMinute x)%Q ->
                (item_startMinute n < item_startMinute x)%Q
  | None =>
      forall x, In x timeline -> is_step x -> ~ (e < item_startMinute x)%Q
  end.
Proof.
  unfold getNextStep. rewrite getUpcomingSteps_unfold.
  set (selected := List.filter (is_upcoming e) timeline).
  pose proof (Array_sort_Permutation item_startMinute selected) as Hperm.
  pose proof (Array_sort_sorted item_startMinute selected) as Hsorted.
  pose proof (fun q => Array_sort_with_key item_startMinute q selected) as Hstable.
  destruct (Array_sort (by_key item_startMinute) selected) as [| n rest].
  - intros x Hx Hstep Hlt.
    assert (In x selected) as Hin
      by (apply filter_In; split; [done | by apply is_upcoming_iff]).
    apply Permutation_nil in Hperm.
    rewrite Hperm in Hin. done.
  - assert (In n selected) as Hn
      by (eapply Permutation_in; [exact Hperm | by left]).
    apply filter_In in Hn as [Hn Hup]. apply is_upcoming_iff in Hup as [Hs Hlt].
    apply StronglySorted_inv in Hsorted as [_ Hmin].
    rewrite List.Forall_forall in Hmin.
    assert (Hle : forall x, In x timeline -> is_step x ->
              (e < item_startMinute x)%Q ->
              (item_startMinute n <= item_startMinute x)%Q).
    { intros x Hx Hstep Hltx.
      assert (In x (n :: rest)) as [<- | Hin].
      { eapply Permutation_in; [symmetry; exact Hperm |].
        apply filter_In. split; [done | by apply is_upcoming_iff]. }
      - lra.
      - by apply Hmin. }
    repeat split; try done.
    specialize (Hstable (item_startMinute n)).
    unfold with_key in Hstable. cbn [List.filter] in Hstable.
    rewrite Qeq_bool_refl in Hstable. unfold selected in Hstable.
    rewrite filter_filter_andb in Hstable. symmetry in Hstable.
    apply filter_head_split in Hstable as (before & after & -> & _ & Hb).
    exists before, after. split; [done |].
    intros x Hx Hstep Hltx.
    assert (item_startMinute n <= item_startMinute x)%Q as Hnx
      by (apply Hle; [apply in_or_app; by left | done | done]).
    specialize (Hb x Hx).
    assert (is_upcoming e x = true) as Hux by (by apply is_upcoming_iff).
    rewrite Hux in Hb. cbn in Hb. apply Qeq_bool_neq in Hb. lra.
Qed.

Lemma fold_critical_visit timeline steps :
  fold_left critical_visit timeline steps
  = steps ++ flat_map critical_of timeline.
Proof.
  revert steps. induction timeline as [| item timeline IH]; intros steps; cbn.
  - by rewrite app_nil_r.
  - rewrite IH. destruct item as [a | i s l | t s]; cbn.
    + destruct (isCriticalPath a); cbn; [by rewrite <- app_assoc | done].
    + by rewrite <- app_assoc.
    + done.
Qed.

(** X12: [getCriticalPathSteps] returns exactly the critical actions of the
    timeline, those inside parallel blocks included, sorted ascending by
    [startMinute], actions with equal [startMinute] in the order they occur
    in the timeline. *)
Theorem getCriticalPathSteps_flattens (timeline : list TimelineItem) :
  let steps := getCriticalPathSteps timeline in
  let critical := flat_map critical_of timeline in
  (forall a, In a steps
     <-> isCriticalPath a = true /\ action_of_timeline a timeline)
  /\ Permutation steps critical
  /\ StronglySorted (key_le startMinute) steps
  /\ forall q, with_key startMinute q steps = with_key startMinute q critical.
Proof.
  cbn zeta. unfold getCriticalPathSteps.
  change (fun a b : Action => (startMinute a - startMinute b)%Q)
    with (by_key startMinute).
  rewrite fold_critical_visit. cbn [app].
  split; [| split; [| split]].
  - intros a. transitivity (In a (flat_map critical_of timeline)).
    { split; apply Permutation_in; [| symmetry]; apply Array_sort_Permutation. }
    rewrite in_flat_map. unfold action_of_timeline. split.
    + intros ([b | i s l | t s] & Hitem & Hin); cbn in Hin.
      * destruct (isCriticalPath b) eqn:Hb; [| done].
        destruct Hin as [<- | []]. split; [done | by left].
      * apply filter_In in Hin as [Hin Hc]. split; [done |].
        right. by exists i, s, l.
      * done.
    + intros [Hc [Hin | (i & s & l & Hitem & Hin)]].
      * exists (ItemAction a). split; [done |]. cbn. rewrite Hc. by left.
      * exists (ItemParallel i s l). split; [done |]. cbn.
        by apply filter_In.
  - apply Array_sort_Permutation.
  - apply Array_sort_sorted.
  - intros q. apply Array_sort_with_key.
Qed.

Lemma is_upcoming_later e e' item :
  (e <= e')%Q -> is_upcoming e' item = true -> is_upcoming e item = true.
Proof.
  intros Hle. rewrite !is_upcoming_iff. intros [Hs Hlt]. split; [done | lra].
Qed.

(** X13: asking again later only drops items: for [e <= e'] the upcoming
    steps at [e'] are the upcoming steps at [e] that start after [e'], in
    the same order. *)
Theorem getUpcomingSteps_later (timeline : list TimelineItem) (e e' : Q) :
  (e <= e')%Q ->
  getUpcomingSteps timeline e'
  = List.filter (is_upcoming e') (getUpcomingSteps timeline e).
Proof.
  intros Hle. symmetry. rewrite !getUpcomingSteps_unfold.
  apply (sorted_stable_unique item_startMinute).
  - apply StronglySorted_filter, Array_sort_sorted.
  - apply Array_sort_sorted.
  - intros q. rewrite Array_sort_with_key. unfold with_key.
    rewrite filter_filter_comm.
    change (List.filter (fun x => Qeq_bool (item_startMinute x) q) ?l)
      with (with_key item_startMinute q l).
    rewrite Array_sort_with_key. unfold with_key.
    rewrite filter_filter_comm. f_equal.
    rewrite filter_filter_andb. apply filter_ext_in. intros x _.
    destruct (is_upcoming e' x) eqn:E'; [| by rewrite andb_false_r].
    by rewrite (is_upcoming_later e e' x Hle E').
Qed.

Lemma getCurrentStep_in_window timeline e a :
  getCurrentStep timeline e = Some a -> in_window e a.
Proof.
  unfold getCurrentStep.
  induction timeline as [| item timeline IH] using rev_ind; [done |].
  rewrite fold_left_app. cbn [fold_left].
  destruct item as [b | i s l | t s]; try exact IH.
  destruct (in_window_dec e b) as [Hin | Hout].
  - rewrite current_visit_in_window by done. by intros [= <-].
  - by rewrite current_visit_outside.
Qed.

(** X14: the current step and the next step are never the same: the
    current one has started by the elapsed time, the next one starts after
    it. *)
Theorem current_step_before_next (timeline : list TimelineItem) (e : Q)
    (a : Action) (n : TimelineItem) :
  getCurrentStep timeline e = Some a ->
  getNextStep timeline e = Some n ->
  (startMinute a <= e)%Q /\ (e < item_startMinute n)%Q /\ n <> ItemAction a.
Proof.
  intros [Ha _]%getCurrentStep_in_window Hn.
  assert (e < item_startMinute n)%Q as Hlt.
  { unfold getNextStep in Hn. rewrite getUpcomingSteps_unfold in Hn.
    pose proof (Array_sort_Permutation item_startMinute
                  (List.filter (is_upcoming e) timeline)) as Hperm.
    destruct (Array_sort _ _) as [| first rest]; [done |].
    injection Hn as ->.
    assert (In n (List.filter (is_upcoming e) timeline)) as Hin
      by (eapply Permutation_in; [exact Hperm | by left]).
    apply filter_In in Hin as [_ Hup]. by apply is_upcoming_iff in Hup as [_ ?]. }
  repeat split; try done. intros ->. cbn in Hlt. lra.
Qed.

End TimelineExtras.

(** ** More of the tick: hiding, marking once, running it again *)

Section TickExtras.

Import DOM.

Lemma highlight_with_length unmark mark e cards :
  length (highlight_with unmark mark e cards) = length cards.
Proof.
  unfold highlight_with.
  destruct (nextStep _); by rewrite ?length_alter, length_fmap.
Qed.

Lemma StepCard_tick_length elapsedMs cards :
  length (StepCard.updateStepCountdowns elapsedMs cards) = length cards.
Proof.
  unfold StepCard.updateStepCountdowns.
  change (StepCard.highlightNextStep ?e ?l)
    with (highlight_with StepCard.unmark (fun _ => StepCard.mark) e l).
  by rewrite highlight_with_length, length_fmap.
Qed.

(** What a tick of [src/js/timer.js] makes of the card in position [i]. *)
Lemma StepCard_tick_lookup elapsedMs cards i c c' :
  cards !! i = Some c ->
  StepCard.updateStepCountdowns elapsedMs cards !! i = Some c' ->
  let e := minutes_of elapsedMs in
  let v := StepCard.countdown_visit e c in
  (is_next e cards i /\ c' = StepCard.mark (StepCard.unmark v))
  \/ (~ is_next e cards i /\ c' = StepCard.unmark v).
Proof.
  intros Hc. unfold StepCard.updateStepCountdowns. fold (minutes_of elapsedMs).
  set (e := minutes_of elapsedMs). cbn zeta.
  change (StepCard.highlightNextStep e ?l)
    with (highlight_with StepCard.unmark (fun _ => StepCard.mark) e l).
  intros (c1 & Hc1 & Hcase)%highlight_with_lookup.
  rewrite is_next_fmap in Hcase by apply StepCard_countdown_visit_startMinute.
  rewrite list_lookup_fmap, Hc in Hc1. injection Hc1 as <-.
  exact Hcase.
Qed.

Lemma StepCard_tick_lookup_Some elapsedMs cards i c :
  cards !! i = Some c ->
  exists c', StepCard.updateStepCountdowns elapsedMs cards !! i = Some c'.
Proof.
  intros Hc. apply lookup_lt_is_Some. rewrite StepCard_tick_length.
  by eapply lookup_lt_Some.
Qed.

Lemma past_iff e c :
  Qlt_bool 0 (Double.add (data_startMinute c)
                (TimelineManager.or_zero (data_durationMinutes c)))
  && Qlt_bool (Double.add (data_startMinute c)
                 (TimelineManager.or_zero (data_durationMinutes c))) e = true
  <-> past e c.
Proof. by rewrite andb_true_iff, !Qlt_bool_iff. Qed.

Lemma StepCard_visit_hidden e c :
  "hidden" ∈ classList (StepCard.countdown_visit e c)
  <-> match countdownEl c with
      | Some _ => past e c
      | None => "hidden" ∈ classList c
      end.
Proof.
  unfold StepCard.countdown_visit.
  destruct (countdownEl c) as [el |]; [| done].
  pose proof (past_iff e c) as Hp.
  destruct (_ && _).
  - unfold add. cbn. split; [intros _; by apply Hp | set_solver].
  - assert (~ past e c) as Hn by (intros H%Hp; done).
    destruct (Qle_bool _ _); unfold add, remove; cbn; set_solver.
Qed.

Lemma StepCard_tick_hidden elapsedMs cards i c c' :
  cards !! i = Some c ->
  StepCard.updateStepCountdowns elapsedMs cards !! i = Some c' ->
  "hidden" ∈ classList c'
  <-> match countdownEl c with
      | Some _ => past (minutes_of elapsedMs) c
      | None => "hidden" ∈ classList c
      end.
Proof.
  intros Hc Hc'.
  rewrite <- StepCard_visit_hidden.
  destruct (StepCard_tick_lookup _ _ _ _ _ Hc Hc') as [[_ ->] | [_ ->]];
    unfold StepCard.mark, StepCard.unmark, add, remove; cbn; set_solver.
Qed.

(** X15: after a tick, a card with a countdown element carries [hidden]
    exactly when its step is over ([endMinute > 0] and the elapsed minutes
    beyond it, both as the script computes them in doubles), so a marker
    step at minute [0] without duration is never hidden; a card without a
    countdown element keeps [hidden] as it had it. *)
Theorem StepCard_hides_past_steps (elapsedMs : Z) (cards : list Card)
    (i : nat) (c c' : Card) :
  cards !! i = Some c ->
  StepCard.updateStepCountdowns elapsedMs cards !! i = Some c' ->
  "hidden" ∈ classList c'
  <-> match countdownEl c with
      | Some _ => past (minutes_of elapsedMs) c
      | None => "hidden" ∈ classList c
      end.
Proof. apply StepCard_tick_hidden. Qed.

(** X16: after a tick at most one card carries the mark of the next step,
    and, durations not being negative, never a card the tick hides. *)
Theorem StepCard_one_next_never_hidden (elapsedMs : Z) (cards : list Card)
    (i j : nat) (ci cj' ci' : Card) :
  cards !! i = Some ci ->
  StepCard.updateStepCountdowns elapsedMs cards !! i = Some ci' ->
  StepCard.updateStepCountdowns elapsedMs cards !! j = Some cj' ->
  "border-accent" ∈ classList ci' ->
  ("border-accent" ∈ classList cj' -> i = j)
  /\ (is_Some (countdownEl ci) ->
      (0 <= TimelineManager.or_zero (data_durationMinutes ci))%Q ->
      "hidden" ∉ classList ci').
Proof.
  intros Hci Hi Hj Hmark.
  pose proof (StepCard_marks_next elapsedMs cards i ci' Hi) as [Hni _].
  apply Hni in Hmark as Hnext. split.
  - intros Hmj.
    pose proof (StepCard_marks_next elapsedMs cards j cj' Hj) as [Hnj _].
    apply Hnj in Hmj. by eapply is_next_unique.
  - intros [el Hel] Hdur Hhid.
    apply (StepCard_tick_hidden _ _ _ _ _ Hci Hi) in Hhid.
    rewrite Hel in Hhid. destruct Hhid as [_ Hend].
    destruct Hnext as (c0 & Hc0 & Hpos & _).
    fold (minutes_of elapsedMs) in Hc0, Hpos.
    assert (c0 = ci) as -> by congruence.
    unfold remaining, Double.sub in Hpos. unfold end_minute, Double.add in Hend.
    apply round_pos_inv in Hpos.
    pose proof (round_idem (Double.round (inject_Z elapsedMs)
                            / Double.round 60000)) as Hid.
    fold (Double.div (inject_Z elapsedMs) 60000) in Hid.
    fold (minutes_of elapsedMs) in Hid.
    pose proof (round_nonneg_le _ Hdur) as Hd.
    pose proof (round_idem (data_startMinute ci)) as Hs.
    pose proof (round_le (Double.round (data_startMinute ci))
                  (Double.round (data_startMinute ci)
                   + Double.round
                       (TimelineManager.or_zero (data_durationMinutes ci)))
                  ltac:(lra)) as Hle.
    lra.
Qed.

End TickExtras.

Section TickAgain.

Import DOM.

Lemma is_next_ext e (l l' : list Card) i :
  (forall j, data_startMinute <$> l !! j = data_startMinute <$> l' !! j) ->
  is_next e l i -> is_next e l' i.
Proof.
  intros Hext (c & Hc & Hpos & Hmin & Hfirst).
  assert (forall j c', l' !! j = Some c' ->
            exists c0, l !! j = Some c0 /\ remaining e c0 = remaining e c')
    as Hback.
  { intros j c' Hj. specialize (Hext j). rewrite Hj in Hext.
    destruct (l !! j) as [c0 |]; [| done]. cbn in Hext.
    exists c0. split; [done |]. unfold remaining. congruence. }
  pose proof (Hext i) as Hi. rewrite Hc in Hi.
  destruct (l' !! i) as [c' |] eqn:Hc'; [| done]. cbn in Hi.
  assert (remaining e c' = remaining e c) as Hrem
    by (unfold remaining; congruence).
  exists c'. rewrite Hrem. repeat split; try done.
  - intros j c1 Hj Hp. destruct (Hback j c1 Hj) as (c0 & Hc0 & E).
    rewrite <- E in *. by apply (Hmin j).
  - intros j c1 Hlt Hj Hp. destruct (Hback j c1 Hj) as (c0 & Hc0 & E).
    rewrite <- E in *. by apply (Hfirst j).
Qed.

Lemma StepCard_tick_startMinute elapsedMs cards j :
  data_startMinute <$> StepCard.updateStepCountdowns elapsedMs cards !! j
  = data_startMinute <$> cards !! j.
Proof.
  destruct (cards !! j) as [c |] eqn:Hc.
  - destruct (StepCard_tick_lookup_Some elapsedMs _ _ _ Hc) as (c' & Hc').
    rewrite Hc'. cbn. f_equal.
    destruct (StepCard_tick_lookup _ _ _ _ _ Hc Hc') as [[_ ->] | [_ ->]];
      cbn; apply StepCard_countdown_visit_startMinute.
  - rewrite (lookup_ge_None_2 (StepCard.updateStepCountdowns _ _)); [done |].
    rewrite StepCard_tick_length. by apply lookup_ge_None.
Qed.

Lemma Card_eq s d (cl cl' : gset string) (el el' : option Element) :
  cl = cl' -> el = el' -> mkCard s d cl el = mkCard s d cl' el'.
Proof. by intros -> ->. Qed.

Lemma Element_eq (cl cl' : gset string) (text : string) :
  cl = cl' -> Some (mkElement cl text) = Some (mkElement cl' text).
Proof. by intros ->. Qed.

Lemma StepCard_visit_unfold e c :
  StepCard.countdown_visit e c
  = StepCard_visit_with (is_over e c) (is_due e c) (countdown_text e c) c.
Proof. reflexivity. Qed.

Lemma StepCard_visit_again (g : gset string -> gset string) e c :
  (forall cl, g (g cl) = g cl) ->
  (forall cl, g (add ["hidden"] (g cl)) = g (add ["hidden"] cl)) ->
  (forall cl, g (add ["opacity-60"] (remove ["hidden"] (g cl)))
              = g (add ["opacity-60"] (remove ["hidden"] cl))) ->
  (forall cl, g (remove ["opacity-60"] (remove ["hidden"] (g cl)))
              = g (remove ["opacity-60"] (remove ["hidden"] cl))) ->
  let again c := with_classList c (g (classList c)) in
  again (StepCard.countdown_visit e (again (StepCard.countdown_visit e c)))
  = again (StepCard.countdown_visit e c).
Proof.
  intros Hg Hh Hd Hw. cbn zeta. rewrite !StepCard_visit_unfold.
  set (v := StepCard_visit_with (is_over e c) (is_due e c) (countdown_text e c) c).
  assert (data_startMinute (with_classList v (g (classList v)))
          = data_startMinute c
          /\ data_durationMinutes (with_classList v (g (classList v)))
             = data_durationMinutes c) as [Hs Hdur].
  { unfold v, StepCard_visit_with.
    destruct (countdownEl c); [| done].
    destruct (is_over e c); [done |]. by destruct (is_due e c). }
  replace (is_over e (with_classList v (g (classList v)))) with (is_over e c)
    by (unfold is_over, end_minute; by rewrite Hs, Hdur).
  replace (is_due e (with_classList v (g (classList v)))) with (is_due e c)
    by (unfold is_due, remaining; by rewrite Hs).
  replace (countdown_text e (with_classList v (g (classList v))))
    with (countdown_text e c)
    by (unfold countdown_text, remaining; by rewrite Hs).
  unfold v. clear v Hs Hdur.
  generalize (countdown_text e c) as text.
  destruct (is_over e c), (is_due e c), c as [s d cl [el |]]; intros text;
    unfold StepCard_visit_with, with_classList, with_countdownEl; cbn;
    rewrite ?Hg, ?Hh, ?Hd, ?Hw; try reflexivity.
  all: apply Card_eq;
    [ apply (f_equal g); unfold add, remove; cbn; set_solver
    | try reflexivity; apply Element_eq; unfold add, remove; cbn; set_solver ].
Qed.

Lemma StepCard_unmark_again e c :
  StepCard.unmark (StepCard.countdown_visit e
    (StepCard.unmark (StepCard.countdown_visit e c)))
  = StepCard.unmark (StepCard.countdown_visit e c).
Proof.
  apply (StepCard_visit_again (remove ["border-2"; "border-accent"]));
    intros cl; unfold add, remove; cbn; set_solver.
Qed.

Lemma StepCard_mark_again e c :
  StepCard.mark (StepCard.unmark (StepCard.countdown_visit e
    (StepCard.mark (StepCard.unmark (StepCard.countdown_visit e c)))))
  = StepCard.mark (StepCard.unmark (StepCard.countdown_visit e c)).
Proof.
  apply (StepCard_visit_again
           (fun cl => add ["border-2"; "border-accent"]
                        (remove ["border-2"; "border-accent"] cl)));
    intros cl; unfold add, remove; cbn; set_solver.
Qed.

Lemma StepCard_tick_twice elapsedMs cards :
  StepCard.updateStepCountdowns elapsedMs
    (StepCard.updateStepCountdowns elapsedMs cards)
  = StepCard.updateStepCountdowns elapsedMs cards.
Proof.
  apply list_eq. intros i.
  set (once := StepCard.updateStepCountdowns elapsedMs cards).
  destruct (cards !! i) as [c |] eqn:Hc.
  - destruct (StepCard_tick_lookup_Some elapsedMs _ _ _ Hc) as (c1 & Hc1).
    fold once in Hc1.
    destruct (StepCard_tick_lookup_Some elapsedMs _ _ _ Hc1) as (c2 & Hc2).
    rewrite Hc2, Hc1. f_equal.
    assert (is_next (minutes_of elapsedMs) once i
            <-> is_next (minutes_of elapsedMs) cards i) as Hnext.
    { split; apply is_next_ext; intros j; unfold once;
        by rewrite StepCard_tick_startMinute. }
    destruct (StepCard_tick_lookup _ _ _ _ _ Hc Hc1) as [[Hn E1] | [Hn E1]];
      destruct (StepCard_tick_lookup _ _ _ _ _ Hc1 Hc2) as [[Hn' E2] | [Hn' E2]];
      try tauto; rewrite E2, E1.
    + apply StepCard_mark_again.
    + apply StepCard_unmark_again.
  - assert (once !! i = None) as Hnone
      by (apply lookup_ge_None; unfold once; rewrite StepCard_tick_length;
          by apply lookup_ge_None).
    rewrite Hnone. apply lookup_ge_None. rewrite StepCard_tick_length.
    by apply lookup_ge_None.
Qed.

(** X17: running the tick again at the same elapsed time changes nothing:
    what [updateStepCountdowns] makes of its own outcome is that
    outcome. *)
Theorem StepCard_tick_again (elapsedMs : Z) (cards : list Card) :
  StepCard.updateStepCountdowns elapsedMs
    (StepCard.updateStepCountdowns elapsedMs cards)
  = StepCard.updateStepCountdowns elapsedMs cards.
Proof. apply StepCard_tick_twice. Qed.

End TickAgain.

Section TickStates.

Import DOM.

Lemma is_over_false e c : ~ past e c -> is_over e c = false.
Proof.
  intros Hn. apply not_true_is_false. intros H. apply Hn.
  by apply past_iff.
Qed.

Lemma is_due_iff e c : is_due e c = true <-> (remaining e c <= 0)%Q.
Proof. apply Qle_bool_iff. Qed.

Lemma is_due_false e c : is_due e c = false <-> (0 < remaining e c)%Q.
Proof.
  unfold is_due. rewrite <- not_true_iff_false, Qle_bool_iff.
  split; [apply Qnot_le_lt | apply Qlt_not_le].
Qed.

(** X18: after a tick of [src/js/timer.js], a card with a countdown
    element whose step is not over shows its state: when the step has
    started the card is dimmed ([opacity-60]) and the countdown reads
    ["✓ Now!"] in [text-success]; before that the card is not dimmed and
    the countdown shows, in [text-accent], the whole seconds in the
    remaining minutes times [60], difference and product being those of
    doubles. *)
Theorem StepCard_shows_state (elapsedMs : Z) (cards : list Card) (i : nat)
    (c c' : Card) (el : Element) :
  cards !! i = Some c ->
  countdownEl c = Some el ->
  ~ past (minutes_of elapsedMs) c ->
  StepCard.updateStepCountdowns elapsedMs cards !! i = Some c' ->
  let r := remaining (minutes_of elapsedMs) c in
  exists el',
    countdownEl c' = Some el'
    /\ ((r <= 0)%Q ->
          "opacity-60" ∈ classList c' /\ textContent el' = "✓ Now!"
          /\ "text-success" ∈ el_classList el'
          /\ "text-accent" ∉ el_classList el')
    /\ ((0 < r)%Q ->
          ("opacity-60" ∉ classList c')
          /\ textContent el' = formatTime (Qfloor (Double.mul r 60))
          /\ "text-accent" ∈ el_classList el'
          /\ "text-success" ∉ el_classList el').
Proof.
  intros Hc Hel Hnot Hc'. cbn zeta.
  set (e := minutes_of elapsedMs) in *.
  assert (exists g, c' = with_classList (StepCard.countdown_visit e c)
                          (g (classList (StepCard.countdown_visit e c)))
                    /\ forall cl, "opacity-60" ∈ g cl <-> "opacity-60" ∈ cl)
    as (g & -> & Hg).
  { destruct (StepCard_tick_lookup _ _ _ _ _ Hc Hc') as [[_ ->] | [_ ->]].
    - exists (fun cl => add ["border-2"; "border-accent"]
                          (remove ["border-2"; "border-accent"] cl)).
      split; [done |]. intros cl. unfold add, remove. cbn. set_solver.
    - exists (remove ["border-2"; "border-accent"]).
      split; [done |]. intros cl. unfold add, remove. cbn. set_solver. }
  rewrite StepCard_visit_unfold, (is_over_false _ _ Hnot).
  unfold StepCard_visit_with. rewrite Hel.
  destruct (is_due e c) eqn:Hdue; cbn.
  - apply is_due_iff in Hdue. eexists. split; [reflexivity |]. cbn. split.
    + intros _. rewrite Hg. unfold add, remove. cbn.
      repeat split; set_solver.
    + intros Hpos. fold e in Hdue. lra.
  - apply is_due_false in Hdue. eexists. split; [reflexivity |]. cbn. split.
    + intros Hle. lra.
    + intros _. rewrite Hg. unfold add, remove. cbn.
      repeat split; set_solver.
Qed.

Lemma StepTicket_tick_lookup elapsedMs cards i c c' :
  cards !! i = Some c ->
  StepTicket.updateStepCountdowns elapsedMs cards !! i = Some c' ->
  let e := minutes_of elapsedMs in
  let v := StepTicket.countdown_visit e c in
  (is_next e cards i
   /\ c' = StepTicket.mark (Some (remaining e c)) (StepTicket.unmark v))
  \/ (~ is_next e cards i /\ c' = StepTicket.unmark v).
Proof.
  intros Hc. unfold StepTicket.updateStepCountdowns. fold (minutes_of elapsedMs).
  set (e := minutes_of elapsedMs). cbn zeta.
  change (StepTicket.highlightNextStep e ?l)
    with (highlight_with StepTicket.unmark StepTicket.mark e l).
  intros (c1 & Hc1 & Hcase)%highlight_with_lookup.
  rewrite is_next_fmap in Hcase by apply StepTicket_countdown_visit_startMinute.
  rewrite list_lookup_fmap, Hc in Hc1. injection Hc1 as <-.
  assert (remaining e (StepTicket.countdown_visit e c) = remaining e c) as Hrem
    by (unfold remaining; by rewrite StepTicket_countdown_visit_startMinute).
  by rewrite Hrem in Hcase.
Qed.

(** X19: after a tick of the ticket copy, a ticket with a countdown element
    whose step is not over is in exactly one of the two states: done, with
    the countdown reading ["Now"], when the step has started, and waiting,
    with the countdown reading ["T-"] and the whole seconds in the
    remaining minutes times [60] (difference and product of doubles),
    before that. *)
Theorem StepTicket_done_or_waiting (elapsedMs : Z) (cards : list Card)
    (i : nat) (c c' : Card) (el : Element) :
  cards !! i = Some c ->
  countdownEl c = Some el ->
  ~ past (minutes_of elapsedMs) c ->
  StepTicket.updateStepCountdowns elapsedMs cards !! i = Some c' ->
  let r := remaining (minutes_of elapsedMs) c in
  exists el',
    countdownEl c' = Some el'
    /\ ("step-ticket--done" ∈ classList c' <-> (r <= 0)%Q)
    /\ ("step-ticket--waiting" ∈ classList c' <-> (0 < r)%Q)
    /\ ((r <= 0)%Q -> textContent el' = "Now"
                      /\ "step-countdown--done" ∈ el_classList el')
    /\ ((0 < r)%Q ->
        textContent el' = "T-" +:+ formatTime (Qfloor (Double.mul r 60))
        /\ "step-countdown--done" ∉ el_classList el').
Proof.
  intros Hc Hel Hnot Hc'. cbn zeta.
  set (e := minutes_of elapsedMs) in *.
  assert (exists g, c' = with_classList (StepTicket.countdown_visit e c)
                          (g (classList (StepTicket.countdown_visit e c)))
                    /\ (forall cl, "step-ticket--done" ∈ g cl
                                   <-> "step-ticket--done" ∈ cl)
                    /\ (forall cl, "step-ticket--waiting" ∈ g cl
                                   <-> "step-ticket--waiting" ∈ cl))
    as (g & -> & Hgd & Hgw).
  { destruct (StepTicket_tick_lookup _ _ _ _ _ Hc Hc') as [[_ ->] | [_ ->]].
    - exists (fun cl =>
                let cl' := add ["step-ticket--next"]
                             (remove ["step-ticket--next"; "step-ticket--firing"]
                                cl) in
                if Qlt_bool (remaining (minutes_of elapsedMs) c) (1 # 2)
                then add ["step-ticket--firing"] cl' else cl').
      split; [done |].
      split; intros cl; destruct (Qlt_bool _ _); unfold add, remove; cbn;
        set_solver.
    - exists (remove ["step-ticket--next"; "step-ticket--firing"]).
      split; [done |].
      split; intros cl; unfold add, remove; cbn; set_solver. }
  unfold StepTicket.countdown_visit. rewrite Hel.
  pose proof (past_iff e c) as Hp.
  destruct (_ && _); [destruct Hnot; by apply Hp |].
  fold (remaining e c).
  destruct (Qle_bool (remaining e c) 0) eqn:Hdue; cbn.
  - apply Qle_bool_iff in Hdue.
    eexists. split; [reflexivity |]. cbn. rewrite Hgd, Hgw.
    unfold add, remove. cbn.
    split; [split; [done | set_solver] |].
    split; [split; [intros H; exfalso; set_solver | intros H; lra] |].
    split; [intros _; split; [done | set_solver] | intros H; lra].
  - assert (0 < remaining e c)%Q as Hpos.
    { apply Qnot_le_lt. intros H%Qle_bool_iff. congruence. }
    eexists. split; [reflexivity |]. cbn. rewrite Hgd, Hgw.
    unfold add, remove. cbn.
    split; [split; [intros H; exfalso; set_solver | intros H; lra] |].
    split; [split; [done | set_solver] |].
    split; [intros H; lra | intros _; split; [done | set_solver]].
Qed.

End TickStates.

(** ** The process generators: start minutes, order, the current step *)

Section GeneratorExtras.

Import TimelineManager.

Local Abbreviation dur step := (or_zero (Generator.durationMinutes step)).

Lemma run_steps_from keep steps p :
  Generator.items (fold_left (Generator.push_step keep) steps p)
  = Generator.items p ++ timeline_from keep (Generator.currentMinute p) steps
  /\ Generator.currentMinute (fold_left (Generator.push_step keep) steps p)
     = fold_left (fun c step => Double.add c (dur step)) steps
         (Generator.currentMinute p).
Proof.
  revert p. induction steps as [| step steps IH]; intros p; cbn.
  - by rewrite app_nil_r.
  - destruct (IH (Generator.push_step keep p step)) as [-> ->]. cbn.
    by rewrite <- app_assoc.
Qed.

Lemma minutes_before_fold k steps cur :
  fold_left (fun c step => Double.add c (dur step)) (take k steps) cur
  = fold_left Double.add
      (or_zero ∘ Generator.durationMinutes <$> take k steps) cur.
Proof.
  generalize (take k steps) as l. intros l. revert cur.
  induction l as [| step l IH]; intros cur; cbn; [done | apply IH].
Qed.

Lemma timeline_from_length keep cur steps :
  length (timeline_from keep cur steps) = length steps.
Proof.
  revert cur. induction steps as [| step steps IH]; intros cur; cbn;
    [done | by rewrite IH].
Qed.

Lemma timeline_from_lookup keep steps cur k step :
  steps !! k = Some step ->
  exists a,
    timeline_from keep cur steps !! k = Some (ItemAction a)
    /\ id a = Generator.id step
    /\ startMinute a
       = fold_left (fun c step => Double.add c (dur step)) (take k steps) cur
    /\ durationMinutes a = Some (dur step)
    /\ isCriticalPath a = true.
Proof.
  revert cur k. induction steps as [| s steps IH]; intros cur k; [done |].
  destruct k as [| k]; cbn.
  - intros [= ->]. eexists. split; [reflexivity |]. by cbn.
  - intros H. apply (IH (Double.add cur (dur s))) in H. exact H.
Qed.

Lemma timeline_from_inv keep steps cur k item :
  timeline_from keep cur steps !! k = Some item ->
  exists step a,
    steps !! k = Some step /\ item = ItemAction a
    /\ startMinute a
       = fold_left (fun c step => Double.add c (dur step)) (take k steps) cur
    /\ durationMinutes a = Some (dur step).
Proof.
  intros Hk.
  assert (k < length steps)%nat as Hlt
    by (rewrite <- (timeline_from_length keep cur); by eapply lookup_lt_Some).
  apply lookup_lt_is_Some in Hlt as [step Hstep].
  destruct (timeline_from_lookup keep _ cur _ _ Hstep) as (a & Ha & _ & Hs & Hd & _).
  exists step, a. rewrite Ha in Hk. injection Hk as <-. by repeat split.
Qed.

Lemma add_is_double a b : (Double.round (Double.add a b) == Double.add a b)%Q.
Proof. apply round_idem. Qed.

Lemma fold_dur_ge steps cur :
  durations_not_negative steps ->
  (Double.round cur == cur)%Q ->
  (cur <= fold_left (fun c step => Double.add c (dur step)) steps cur)%Q.
Proof.
  intros Hnn. revert cur.
  induction Hnn as [| step steps Hd _ IH]; intros cur Hcur; cbn; [lra |].
  specialize (IH (Double.add cur (dur step)) (add_is_double _ _)).
  pose proof (add_nonneg_le cur (dur step) Hcur Hd). lra.
Qed.

Lemma durations_not_negative_take k steps :
  durations_not_negative steps -> durations_not_negative (take k steps).
Proof. unfold durations_not_negative. apply Forall_take. Qed.

(** X20: the generated timeline has one critical action per step, in the
    order of the steps and with their ids, each starting at the sum of the
    durations of the steps before it (a missing duration counting as [0]),
    and [totalDurationMinutes] is the sum over all steps; the sums are sums
    of doubles, added up in the order of the steps.  The process is stored
    under the slug, which is not [__proto__]. *)
Theorem generateProcess_start_minutes (recipes : gmap string Generator.Recipe)
    (processes : gmap string Generator.CookingProcess) (recipeSlug : string)
    (recipe : Generator.Recipe) :
  recipeSlug <> "__proto__" ->
  recipes !! recipeSlug = Some recipe ->
  exists process,
    Generator.generateProcess recipes processes recipeSlug
    = Some (process, <[recipeSlug := process]> processes)
    /\ length (Generator.timeline process) = length (Generator.steps recipe)
    /\ Generator.totalDurationMinutes process
       = minutes_before (length (Generator.steps recipe)) (Generator.steps recipe)
    /\ forall k step, Generator.steps recipe !! k = Some step ->
         exists a,
           Generator.timeline process !! k = Some (ItemAction a)
           /\ id a = Generator.id step
           /\ startMinute a = minutes_before k (Generator.steps recipe)
           /\ durationMinutes a = Some (dur step)
           /\ isCriticalPath a = true.
Proof.
  intros _ Hrecipe. unfold Generator.generateProcess. rewrite Hrecipe.
  eexists. split; [reflexivity |]. cbn.
  unfold Generator.run_steps.
  destruct (run_steps_from true (Generator.steps recipe)
              {| Generator.currentMinute := 0; Generator.items := [] |})
    as [-> ->]. cbn.
  split; [apply timeline_from_length |]. split.
  - unfold minutes_before. rewrite <- minutes_before_fold.
    by rewrite firstn_all.
  - intros k step Hstep.
    destruct (timeline_from_lookup true _ 0%Q _ _ Hstep)
      as (a & Ha & Hid & Hs & Hd & Hc).
    exists a. repeat split; try done.
    unfold minutes_before. by rewrite <- minutes_before_fold.
Qed.

Lemma timeline_from_starts keep steps cur item :
  durations_not_negative steps ->
  (Double.round cur == cur)%Q ->
  In item (timeline_from keep cur steps) ->
  (cur <= item_startMinute item)%Q.
Proof.
  intros Hnn. revert cur.
  induction Hnn as [| step steps Hd _ IH]; intros cur Hcur; cbn; [done |].
  intros [<- | Hin]; [cbn; lra |].
  specialize (IH _ (add_is_double _ _) Hin).
  pose proof (add_nonneg_le cur (dur step) Hcur Hd). lra.
Qed.

Lemma timeline_from_sorted keep steps cur :
  durations_not_negative steps ->
  (Double.round cur == cur)%Q ->
  StronglySorted (key_le item_startMinute) (timeline_from keep cur steps).
Proof.
  intros Hnn. revert cur.
  induction Hnn as [| step steps Hd Hnn IH]; intros cur Hcur; cbn;
    [constructor |].
  constructor; [apply IH, add_is_double |].
  rewrite List.Forall_forall. intros item Hin.
  apply (timeline_from_starts keep steps) in Hin;
    [| done | apply add_is_double].
  pose proof (add_nonneg_le cur (dur step) Hcur Hd).
  unfold key_le. cbn. lra.
Qed.

Lemma Array_sort_of_sorted {A} (key : A -> Q) (l : list A) :
  StronglySorted (key_le key) l -> Array_sort (by_key key) l = l.
Proof.
  induction 1 as [| x l Hl IH Hx]; cbn; [done |]. rewrite IH.
  destruct l as [| y l]; cbn; [done |].
  apply Forall_inv in Hx. apply by_key_le in Hx. by rewrite Hx.
Qed.

(** X21: when no step has a negative duration, the generated timeline is
    in ascending order of [startMinute], and the upcoming steps of it are
    the steps that start after the elapsed time, in recipe order: the sort
    of [getUpcomingSteps] moves nothing. *)
Theorem generated_timeline_in_order (keep_image : bool)
    (steps : list Generator.Step) (e : Q) :
  durations_not_negative steps ->
  let timeline := Generator.items (Generator.run_steps keep_image steps) in
  StronglySorted (key_le item_startMinute) timeline
  /\ getUpcomingSteps timeline e
     = List.filter (fun item => Qlt_bool e (item_startMinute item)) timeline.
Proof.
  intros Hnn. cbn zeta. unfold Generator.run_steps.
  destruct (run_steps_from keep_image steps
              {| Generator.currentMinute := 0; Generator.items := [] |})
    as [-> _]. cbn.
  pose proof (timeline_from_sorted keep_image steps 0%Q Hnn round_0)
    as Hsorted.
  split; [done |].
  unfold getUpcomingSteps.
  change (fun a b : TimelineItem => (item_startMinute a - item_startMinute b)%Q)
    with (by_key item_startMinute).
  rewrite Array_sort_of_sorted by (by apply StronglySorted_filter).
  apply filter_ext_in. intros item Hin.
  apply list_elem_of_In, list_elem_of_lookup in Hin as [k Hk].
  apply timeline_from_inv in Hk as (step & a & _ & -> & _). done.
Qed.

End GeneratorExtras.

Section GeneratorCurrent.

Import TimelineManager.

Local Abbreviation dur step := (or_zero (Generator.durationMinutes step)).

Lemma getCurrentStep_Some_lookup timeline e a :
  getCurrentStep timeline e = Some a ->
  exists k, timeline !! k = Some (ItemAction a).
Proof.
  unfold getCurrentStep.
  induction timeline as [| item timeline IH] using rev_ind; [done |].
  rewrite fold_left_app. cbn [fold_left].
  assert (forall k, timeline !! k = Some (ItemAction a) ->
            exists k, (timeline ++ [item]) !! k = Some (ItemAction a)) as Hweak
    by (intros k Hk; exists k; by apply lookup_app_l_Some).
  destruct item as [b | i s l | t s]; cbn [current_visit];
    try (intros (k & Hk)%IH; by apply (Hweak k)).
  destruct (Qle_bool (startMinute b) e);
    [destruct (Qlt_bool e _) |];
    try (intros (k & Hk)%IH; by apply (Hweak k)).
  intros [= <-]. exists (length timeline). by rewrite list_lookup_middle.
Qed.

Lemma getCurrentStep_exists timeline e a :
  In (ItemAction a) timeline -> in_window e a ->
  exists b, getCurrentStep timeline e = Some b.
Proof.
  unfold getCurrentStep.
  induction timeline as [| item timeline IH] using rev_ind; [done |].
  rewrite fold_left_app. cbn [fold_left].
  intros [Hin | [-> | []]]%in_app_or Hw.
  - destruct (IH Hin Hw) as (b & ->).
    destruct item as [c | i s l | t s]; cbn [current_visit]; try by exists b.
    destruct (Qle_bool (startMinute c) e);
      [destruct (Qlt_bool e _) |]; by eexists.
  - rewrite current_visit_in_window by done. by exists a.
Qed.

Lemma timeline_from_covers keep steps cur e :
  durations_not_negative steps ->
  (cur <= e)%Q ->
  (e < fold_left (fun c step => Double.add c (dur step)) steps cur)%Q ->
  exists a, In (ItemAction a) (timeline_from keep cur steps) /\ in_window e a.
Proof.
  intros Hnn. revert cur.
  induction Hnn as [| step steps Hd _ IH]; intros cur Hle Hlt; cbn in *; [lra |].
  destruct (Qlt_le_dec e (Double.add cur (dur step))) as [Hin | Hout].
  - eexists. split; [by left |]. unfold in_window. by cbn.
  - destruct (IH _ Hout Hlt) as (a & Ha & Hw). exists a. split; [by right | done].
Qed.

Lemma timeline_from_one_window keep steps cur e i j a b :
  durations_not_negative steps ->
  timeline_from keep cur steps !! i = Some (ItemAction a) ->
  timeline_from keep cur steps !! j = Some (ItemAction b) ->
  in_window e a -> in_window e b -> i = j.
Proof.
  intros Hnn. revert cur i j.
  induction Hnn as [| step steps Hd Hnn IH]; intros cur i j; cbn; [done |].
  assert (forall k c, timeline_from keep (Double.add cur (dur step)) steps !! k
                      = Some (ItemAction c) ->
            in_window e c -> (Double.add cur (dur step) <= e)%Q) as Hlater.
  { intros k c Hk [Hs _].
    assert (In (ItemAction c)
              (timeline_from keep (Double.add cur (dur step)) steps)) as Hin
      by (apply list_elem_of_In, list_elem_of_lookup; by exists k).
    apply timeline_from_starts in Hin; [| done | apply add_is_double].
    cbn in Hin. lra. }
  destruct i as [| i], j as [| j]; cbn; try done.
  - intros [= <-] Hj [_ Ha] Hb. specialize (Hlater _ _ Hj Hb). cbn in Ha. lra.
  - intros Hi [= <-] Ha [_ Hb]. specialize (Hlater _ _ Hi Ha). cbn in Hb. lra.
  - intros Hi Hj Ha Hb. f_equal. by apply (IH (Double.add cur (dur step))).
Qed.

(** X22: when no step has a negative duration, the windows of the
    generated actions do not overlap and fill the time from [0] to
    [totalDurationMinutes]: at every elapsed time in that range
    [getCurrentStep] returns a step, and it is the only action of the
    timeline whose window holds that time. *)
Theorem generated_timeline_current_step (keep_image : bool)
    (steps : list Generator.Step) (e : Q) :
  durations_not_negative steps ->
  (0 <= e)%Q ->
  (e < Generator.currentMinute (Generator.run_steps keep_image steps))%Q ->
  let timeline := Generator.items (Generator.run_steps keep_image steps) in
  exists a,
    getCurrentStep timeline e = Some a
    /\ in_window e a
    /\ forall b, In (ItemAction b) timeline -> in_window e b -> b = a.
Proof.
  intros Hnn Hle Hlt. cbn zeta. revert Hlt. unfold Generator.run_steps.
  destruct (run_steps_from keep_image steps
              {| Generator.currentMinute := 0; Generator.items := [] |})
    as [-> ->]. cbn. intros Hlt.
  destruct (timeline_from_covers keep_image _ _ _ Hnn Hle Hlt) as (a0 & Hin0 & Hw0).
  destruct (getCurrentStep_exists _ _ _ Hin0 Hw0) as (a & Ha).
  exists a. split; [done |].
  pose proof (getCurrentStep_in_window _ _ _ Ha) as Hw.
  split; [done |]. intros b Hb Hwb.
  apply getCurrentStep_Some_lookup in Ha as (i & Hi).
  apply list_elem_of_In, list_elem_of_lookup in Hb as (j & Hj).
  assert (j = i) as -> by (by eapply timeline_from_one_window).
  congruence.
Qed.

Lemma timeline_from_without_images cur steps :
  Forall2
    (fun item item' =>
       exists a,
         item = ItemAction a
         /\ item' = ItemAction
              {| id := id a; instruction := instruction a;
                 startMinute := startMinute a;
                 durationMinutes := durationMinutes a;
                 isCriticalPath := isCriticalPath a;
                 resource := resource a; image := None |})
    (timeline_from true cur steps) (timeline_from false cur steps).
Proof.
  revert cur. induction steps as [| step steps IH]; intros cur; cbn;
    constructor; [| apply IH].
  by eexists.
Qed.

(** X23: the two generators agree on the timing: for the same recipe,
    [generateCookingProcess] and [generateProcess] give the same total
    duration and timelines of the same actions, the images left out by the
    first apart. *)
Theorem generators_agree (recipes : gmap string Generator.Recipe)
    (processes : gmap string Generator.CookingProcess)
    (recipe : Generator.Recipe) :
  recipes !! Generator.slug recipe = Some recipe ->
  exists process processes',
    Generator.generateProcess recipes processes (Generator.slug recipe)
    = Some (process, processes')
    /\ Generator.recipeSlug process
       = Generator.recipeSlug (Generator.generateCookingProcess recipe)
    /\ Generator.totalDurationMinutes process
       = Generator.totalDurationMinutes (Generator.generateCookingProcess recipe)
    /\ Forall2
         (fun item item' =>
            exists a,
              item = ItemAction a
              /\ item' = ItemAction
                   {| id := id a; instruction := instruction a;
                      startMinute := startMinute a;
                      durationMinutes := durationMinutes a;
                      isCriticalPath := isCriticalPath a;
                      resource := resource a; image := None |})
         (Generator.timeline process)
         (Generator.timeline (Generator.generateCookingProcess recipe)).
Proof.
  intros Hrecipe. unfold Generator.generateProcess. rewrite Hrecipe.
  eexists _, _. split; [reflexivity |]. cbn. split; [done |].
  unfold Generator.run_steps.
  destruct (run_steps_from true (Generator.steps recipe)
              {| Generator.currentMinute := 0; Generator.items := [] |})
    as [-> ->].
  destruct (run_steps_from false (Generator.steps recipe)
              {| Generator.currentMinute := 0; Generator.items := [] |})
    as [-> ->].
  cbn. split; [done | apply timeline_from_without_images].
Qed.

End GeneratorCurrent.

(** ** [formatTime]: the shape of the text *)

Section FormatTime.

Import DOM.

Lemma pad_below_100 :
  forallb (fun k => Nat.eqb (String.length (pad (Z.of_nat k))) 2) (seq 0 100)
  = true.
Proof. vm_compute. reflexivity. Qed.

Lemma pad_two_characters n : 0 <= n < 100 -> String.length (pad n) = 2%nat.
Proof.
  intros Hn. pose proof pad_below_100 as H.
  rewrite forallb_forall in H. specialize (H (Z.to_nat n)).
  rewrite Z2Nat.id in H by lia. apply Nat.eqb_eq, H, in_seq. lia.
Qed.

Lemma pad_distinct_below_100 :
  forallb (fun a =>
    forallb (fun b =>
      implb (String.eqb (pad (Z.of_nat a)) (pad (Z.of_nat b))) (Nat.eqb a b))
      (seq 0 100)) (seq 0 100)
  = true.
Proof. vm_compute. reflexivity. Qed.

Lemma pad_inj n n' : 0 <= n < 100 -> 0 <= n' < 100 -> pad n = pad n' -> n = n'.
Proof.
  intros Hn Hn' Heq. pose proof pad_distinct_below_100 as H.
  rewrite forallb_forall in H. specialize (H (Z.to_nat n)).
  rewrite forallb_forall in H by (apply in_seq; lia).
  specialize (H ltac:(apply in_seq; lia) (Z.to_nat n') ltac:(apply in_seq; lia)).
  rewrite !Z2Nat.id, Heq, String.eqb_refl in H by lia. cbn in H.
  apply Nat.eqb_eq in H. lia.
Qed.

Lemma append_inj (a a' x x' : string) :
  String.length a = String.length a' ->
  a +:+ x = a' +:+ x' -> a = a' /\ x = x'.
Proof.
  revert a'. induction a as [| ch a IH]; intros [| ch' a']; try done.
  change (S (String.length a) = S (String.length a') ->
          String ch (a +:+ x) = String ch' (a' +:+ x') ->
          String ch a = String ch' a' /\ x = x').
  intros [= Hlen] [= -> Happ]. destruct (IH _ Hlen Happ) as [-> ->]. done.
Qed.

Lemma length_append (a b : string) :
  String.length (a +:+ b) = (String.length a + String.length b)%nat.
Proof.
  induction a as [| ch a IH]; [done |].
  change (S (String.length (a +:+ b))
          = S (String.length a + String.length b)).
  by rewrite IH.
Qed.

Lemma colon_inj (x y : string) : ":" +:+ x = ":" +:+ y -> x = y.
Proof. intros H. by apply (append_inj ":" ":") in H as [_ ->]. Qed.

Lemma formatTime_minutes t :
  0 <= t < 3600 ->
  formatTime t = pad (t / 60) +:+ ":" +:+ pad (t mod 60).
Proof.
  intros Ht. unfold formatTime.
  rewrite (Z.div_small t 3600), !Z.rem_mod_nonneg by lia.
  rewrite (Z.mod_small t 3600) by lia. reflexivity.
Qed.

Lemma formatTime_hours t :
  3600 <= t ->
  formatTime t
  = pad (t / 3600) +:+ ":" +:+ pad (t mod 3600 / 60) +:+ ":" +:+ pad (t mod 60).
Proof.
  intros Ht. unfold formatTime.
  assert (0 < t / 3600) as Hh by (apply Z.div_str_pos; lia).
  apply Z.ltb_lt in Hh. rewrite Hh, !Z.rem_mod_nonneg by lia. reflexivity.
Qed.

(** X24: for a number of seconds below a hundred hours, [formatTime]
    writes five characters, [mm:ss], under an hour and eight, [hh:mm:ss],
    from an hour on, and different numbers of seconds give different
    texts. *)
Theorem formatTime_shape (t t' : Z) :
  0 <= t < 360000 -> 0 <= t' < 360000 ->
  String.length (formatTime t) = (if (t <? 3600)%Z then 5 else 8)%nat
  /\ (formatTime t = formatTime t' -> t = t').
Proof.
  assert (Hlen : forall u, 0 <= u < 360000 ->
            String.length (formatTime u) = (if (u <? 3600)%Z then 5 else 8)%nat).
  { intros u Hu. destruct (Z.ltb_spec u 3600).
    - rewrite formatTime_minutes, !length_append by lia.
      by rewrite !pad_two_characters
        by (Z.to_euclidean_division_equations; lia).
    - rewrite formatTime_hours, !length_append by lia.
      by rewrite !pad_two_characters
        by (Z.to_euclidean_division_equations; lia). }
  intros Ht Ht'. split; [by apply Hlen |]. intros Heq.
  pose proof (Hlen t Ht) as L. pose proof (Hlen t' Ht') as L'.
  rewrite Heq in L. rewrite L in L'.
  destruct (Z.ltb_spec t 3600), (Z.ltb_spec t' 3600); try done.
  - rewrite !formatTime_minutes in Heq by lia.
    apply append_inj in Heq as [Hm Hs];
      [| by rewrite !pad_two_characters
           by (Z.to_euclidean_division_equations; lia)].
    apply colon_inj in Hs.
    apply pad_inj in Hm, Hs; Z.to_euclidean_division_equations; lia.
  - rewrite !formatTime_hours in Heq by lia.
    apply append_inj in Heq as [Hh Hrest];
      [| by rewrite !pad_two_characters
           by (Z.to_euclidean_division_equations; lia)].
    apply colon_inj in Hrest.
    apply append_inj in Hrest as [Hm Hs];
      [| by rewrite !pad_two_characters
           by (Z.to_euclidean_division_equations; lia)].
    apply colon_inj in Hs.
    apply pad_inj in Hh, Hm, Hs; Z.to_euclidean_division_equations; lia.
Qed.

End FormatTime.

(** ** The serving size and the timer *)

Section ServingSize.

Import JSON.


End ServingSize.

(** ** The controls with the page *)

Section PageSteps.

Import Page.

Lemma returns_bind {A B} (m : Exec A) (k : A -> Exec B) env Q :
  returns m env (fun a env1 => returns (k a) env1 Q) ->
  returns (m ≫= k) env Q.
Proof.
  intros (a & env1 & Hm & b & env2 & Hk & HQ).
  exists b, env2. split; [| done].
  unfold mbind, Exec_bind. by rewrite Hm.
Qed.

Lemma returns_weaken {A} (m : Exec A) env (P Q : A -> Env -> Prop) :
  returns m env P -> (forall a env', P a env' -> Q a env') -> returns m env Q.
Proof. intros (a & env' & Hm & HP) HPQ. exists a, env'. auto. Qed.

Lemma returns_ret {A} (a : A) env (Q : A -> Env -> Prop) :
  Q a env -> returns (mret a) env Q.
Proof. intros HQ. by exists a, env. Qed.

Lemma page_work_refl ids env : page_work ids env env.
Proof. by repeat split. Qed.

Lemma page_work_trans ids ids' env0 env1 env2 :
  page_work ids env0 env1 -> page_work ids' env1 env2 ->
  page_work (ids ++ ids') env0 env2.
Proof.
  intros (S1 & R1 & T1 & C1 & V1 & K1 & D1) (S2 & R2 & T2 & C2 & V2 & K2 & D2).
  repeat split; try congruence.
  - intros id Hid. rewrite K2, K1; [done | |]; set_solver.
  - rewrite D2. apply D1.
  - rewrite D2. apply D1.
Qed.

Lemma page_work_mono ids ids' env env' :
  ids ⊆ ids' -> page_work ids env env' -> page_work ids' env env'.
Proof.
  intros Hsub (S1 & R1 & T1 & C1 & V1 & K1 & D1). repeat split; try done.
  - intros id Hid. apply K1. set_solver.
  - apply D1.
  - apply D1.
Qed.

Lemma page_work_with_byId env id el (f : DOM.Element -> DOM.Element) :
  byId env !! id = Some el ->
  page_work [id] env (with_byId env (<[id := f el]> (byId env))).
Proof.
  intros Hel. repeat split; cbn; try done.
  - intros id' Hid'. apply lookup_insert_ne. set_solver.
  - destruct (decide (id = id0)) as [<- | Hne].
    + by rewrite Hel.
    + by rewrite lookup_insert_ne.
  - destruct (decide (id = id0)) as [<- | Hne].
    + by rewrite lookup_insert_eq.
    + by rewrite lookup_insert_ne.
Qed.

Lemma on_element_returns id f env el :
  byId env !! id = Some el ->
  returns (on_element id f) env (fun _ env' =>
    page_work [id] env env' /\ byId env' !! id = Some (f el)
    /\ stepCards env' = stepCards env /\ expanded env' = expanded env
    /\ reads env' = reads env).
Proof.
  intros Hel. exists tt, (with_byId env (<[id := f el]> (byId env))).
  unfold on_element. rewrite Hel. split; [done |].
  split; [by apply page_work_with_byId |]. cbn. by rewrite lookup_insert_eq.
Qed.

Lemma on_element_if_there_returns id f env :
  returns (on_element_if_there id f) env (fun _ env' =>
    page_work [id] env env'
    /\ byId env' !! id = f <$> byId env !! id
    /\ stepCards env' = stepCards env /\ expanded env' = expanded env
    /\ reads env' = reads env).
Proof.
  unfold on_element_if_there, returns.
  destruct (byId env !! id) as [el |] eqn:Hel.
  - eexists tt, _. split; [reflexivity |].
    split; [by apply page_work_with_byId |]. cbn. by rewrite lookup_insert_eq.
  - exists tt, env. split; [done |]. split; [apply page_work_refl |].
    by rewrite Hel.
Qed.

Lemma shown_page_work ids id env env' :
  id ∉ ids -> page_work ids env env' -> shown id env -> shown id env'.
Proof.
  intros Hid (_ & _ & _ & _ & _ & K & _) (el & Hel & Hs).
  exists el. by rewrite K.
Qed.

Lemma hidden_page_work ids id env env' :
  id ∉ ids -> page_work ids env env' -> hidden id env -> hidden id env'.
Proof.
  intros Hid (_ & _ & _ & _ & _ & K & _) (el & Hel & Hs).
  exists el. by rewrite K.
Qed.

Lemma controls_there_page_work ids env env' :
  page_work ids env env' -> controls_there env -> controls_there env'.
Proof.
  intros (_ & _ & _ & _ & _ & _ & D). unfold controls_there.
  apply List.Forall_impl. intros id. by rewrite D.
Qed.

End PageSteps.

Section PageShow.

Import Page.

Lemma show_with_returns status start pause resume reset c env :
  controls_there env ->
  returns (show_with status start pause resume reset c) env (fun _ env' =>
    page_work control_ids env env'
    /\ byId env' !! "timer-status" = status <$> byId env !! "timer-status"
    /\ byId env' !! "start-btn" = start <$> byId env !! "start-btn"
    /\ byId env' !! "pause-btn" = pause <$> byId env !! "pause-btn"
    /\ byId env' !! "resume-btn" = resume <$> byId env !! "resume-btn"
    /\ byId env' !! "reset-btn" = reset <$> byId env !! "reset-btn"
    /\ stepCards env' = on_countdown c <$> stepCards env
    /\ expanded env' = expanded env /\ reads env' = reads env).
Proof.
  intros Hthere. unfold controls_there in Hthere.
  apply Forall_cons in Hthere as [[e1 X1] Hthere].
  apply Forall_cons in Hthere as [[e2 X2] Hthere].
  apply Forall_cons in Hthere as [[e3 X3] Hthere].
  apply Forall_cons in Hthere as [[e4 X4] Hthere].
  apply Forall_cons in Hthere as [[e5 X5] _].
  unfold show_with.
  apply returns_bind.
  eapply returns_weaken; [by apply on_element_returns |].
  intros _ env1 (W1 & L1 & C1 & E1 & R1).
  pose proof W1 as (_ & _ & _ & _ & _ & K1 & _).
  apply returns_bind.
  eapply returns_weaken;
    [apply on_element_returns; rewrite K1 by set_solver; eassumption |].
  intros _ env2 (W2 & L2 & C2 & E2 & R2).
  pose proof W2 as (_ & _ & _ & _ & _ & K2 & _).
  apply returns_bind.
  eapply returns_weaken;
    [apply on_element_returns; rewrite K2, K1 by set_solver; eassumption |].
  intros _ env3 (W3 & L3 & C3 & E3 & R3).
  pose proof W3 as (_ & _ & _ & _ & _ & K3 & _).
  apply returns_bind.
  eapply returns_weaken;
    [apply on_element_returns; rewrite K3, K2, K1 by set_solver; eassumption |].
  intros _ env4 (W4 & L4 & C4 & E4 & R4).
  pose proof W4 as (_ & _ & _ & _ & _ & K4 & _).
  apply returns_bind.
  eapply returns_weaken;
    [apply on_element_returns; rewrite K4, K3, K2, K1 by set_solver;
     eassumption |].
  intros _ env5 (W5 & L5 & C5 & E5 & R5).
  pose proof W5 as (_ & _ & _ & _ & _ & K5 & _).
  eexists tt, _. split; [reflexivity |]. cbn.
  assert (page_work control_ids env env5) as W.
  { eapply page_work_mono;
      [| exact (page_work_trans _ _ _ _ _
                  (page_work_trans _ _ _ _ _
                     (page_work_trans _ _ _ _ _
                        (page_work_trans _ _ _ _ _ W1 W2) W3) W4) W5)].
    unfold control_ids. set_solver. }
  split.
  { destruct W as (? & ? & ? & ? & ? & ? & D). repeat split; try done; apply D. }
  rewrite K5, K4, K3, K2, L1 by set_solver.
  rewrite K5, K4, K3, L2 by set_solver.
  rewrite K5, K4, L3 by set_solver.
  rewrite K5, L4 by set_solver. rewrite L5.
  repeat split; try congruence.
  all: by rewrite ?X1, ?X2, ?X3, ?X4, ?X5.
Qed.

Lemma shown_remove env id el :
  byId env !! id = Some (classList_remove ["hidden"] el) -> shown id env.
Proof.
  intros H. eexists. split; [exact H |].
  unfold classList_remove, DOM.remove. cbn. set_solver.
Qed.

Lemma hidden_add env id el :
  byId env !! id = Some (classList_add ["hidden"] el) -> hidden id env.
Proof.
  intros H. eexists. split; [exact H |].
  unfold classList_add, DOM.add. cbn. set_solver.
Qed.

End PageShow.

Section PageStore.

Import Page.

Lemma store_kept_refl env : store_kept env env.
Proof. by split. Qed.

Lemma store_kept_trans env0 env1 env2 :
  store_kept env0 env1 -> store_kept env1 env2 -> store_kept env0 env2.
Proof. intros [? ?] [? ?]. split; congruence. Qed.

Lemma readable_store_kept env env' :
  store_kept env env' -> readable_store env -> readable_store env'.
Proof. intros [Hs _] [m Hm]. exists m. by rewrite Hs. Qed.

Lemma page_part_bind {A B} (m : Exec A) (k : A -> Exec B) :
  page_part m -> (forall a, page_part (k a)) -> page_part (m ≫= k).
Proof.
  intros Hm Hk env Hr. specialize (Hm env Hr). unfold mbind, Exec_bind.
  destruct (m env) as [a env1 | e env1]; [| done].
  specialize (Hk a env1 (readable_store_kept _ _ Hm Hr)).
  destruct (k a env1) as [b env2 | e env2].
  - by eapply store_kept_trans.
  - destruct Hk as [Hk ->]. split; [by eapply store_kept_trans | done].
Qed.

Lemma page_part_ret {A} (a : A) : page_part (mret a : Exec A).
Proof. intros env _. apply store_kept_refl. Qed.

Lemma page_part_on_element id f : page_part (on_element id f).
Proof. intros env _. unfold on_element. by destruct (byId env !! id). Qed.

Lemma page_part_on_element_if_there id f :
  page_part (on_element_if_there id f).
Proof.
  intros env _. unfold on_element_if_there. by destruct (byId env !! id).
Qed.

Lemma page_part_on_countdowns f : page_part (on_countdowns f).
Proof. by intros env _. Qed.

Lemma page_part_Date_now : page_part Date_now.
Proof. by intros env _. Qed.

Lemma page_part_getState slug : page_part (getState slug).
Proof.
  intros env [m Hm]. unfold getState.
  rewrite (getState_readable _ _ _ Hm). apply store_kept_refl.
Qed.

Lemma page_part_show_with s1 s2 s3 s4 s5 c :
  page_part (show_with s1 s2 s3 s4 s5 c).
Proof.
  unfold show_with.
  repeat (apply page_part_bind; [apply page_part_on_element | intros _]).
  apply page_part_on_countdowns.
Qed.

Lemma page_part_getElapsedMs slug : page_part (getElapsedMs slug).
Proof.
  unfold getElapsedMs.
  apply page_part_bind; [apply page_part_getState |].
  intros [st |]; [| apply page_part_ret].
  destruct (negb _); [apply page_part_ret |].
  destruct (_ && _); [apply page_part_ret |].
  apply page_part_bind; [apply page_part_Date_now |].
  intros now. apply page_part_ret.
Qed.

Lemma page_part_updateTimerDisplay : page_part updateTimerDisplay.
Proof.
  intros env Hr. unfold updateTimerDisplay.
  destruct (current_slug env) as [slug |]; [| apply store_kept_refl].
  revert env Hr. apply (page_part_bind (getElapsedMs slug));
    [apply page_part_getElapsedMs |].
  intros n.
  apply page_part_bind; [apply page_part_on_element_if_there |].
  by intros _ env' _.
Qed.

Lemma page_part_startTimerInterval : page_part startTimerInterval.
Proof.
  intros env Hr. unfold startTimerInterval.
  apply (page_part_updateTimerDisplay (with_ticking env true) Hr).
Qed.

Lemma page_part_stopTimerInterval : page_part stopTimerInterval.
Proof. intros env _. unfold stopTimerInterval. by destruct (ticking env). Qed.

Lemma page_part_updateToggleButtonState b :
  page_part (updateToggleButtonState b).
Proof.
  intros env _. unfold updateToggleButtonState.
  by destruct (byId env !! "toggle-icon"), (byId env !! "toggle-text").
Qed.

Lemma page_part_collapse : page_part collapseIngredientsSection.
Proof.
  unfold collapseIngredientsSection.
  repeat (apply page_part_bind;
          [apply page_part_on_element_if_there | intros _]).
  apply page_part_updateToggleButtonState.
Qed.

Lemma page_part_expand : page_part expandIngredientsSection.
Proof.
  unfold expandIngredientsSection.
  repeat (apply page_part_bind;
          [apply page_part_on_element_if_there | intros _]).
  apply page_part_on_element_if_there.
Qed.

Lemma page_part_resetStepDisplays : page_part resetStepDisplays.
Proof. by intros env _. Qed.

(** A write to the store followed by page work ends like the write. *)
Lemma stores_like_after_write (m : Exec unit) env env1 w' :
  page_part m ->
  readable_store env1 ->
  store env1 = localStorage w' ->
  recipeSlug env1 = recipeSlug env ->
  stores_like (m env1) env (Ok w').
Proof.
  intros Hm Hr Hs Hslug. specialize (Hm env1 Hr). unfold stores_like.
  destruct (m env1) as [[] env2 | e env2].
  - exists env2. destruct Hm as [? ?]. split; [by left |]. split; congruence.
  - destruct Hm as [[? ?] ->]. exists env2. split; [by right |].
    split; congruence.
Qed.

End PageStore.

Section PageHandlersStore.


Lemma bind_apply {A B} (m : Page.Exec A) (k : A -> Page.Exec B) env :
  (m ≫= k) env
  = match m env with
    | Page.Returned a env1 => k a env1
    | Page.Thrown e env1 => Page.Thrown e env1
    end.
Proof. reflexivity. Qed.

Lemma with_reads_same env : Page.with_reads env (Page.reads env) = env.
Proof. by destruct env. Qed.

Lemma setState_Ok_readable_after slug st ls ls' :
  TimerManager.setState slug st ls = Ok ls' -> exists m, readable ls' m.
Proof.
  intros Hset. destruct (setState_Ok_readable _ _ _ _ Hset) as (m & Hr).
  rewrite (setState_readable _ _ _ _ Hr) in Hset. injection Hset as <-.
  eexists. constructor.
Qed.

Lemma clearState_Ok_readable_after slug ls ls' :
  TimerManager.clearState slug ls = Ok ls' -> exists m, readable ls' m.
Proof.
  destruct ls as [[| | [| m]] |]; cbn; intros H; try discriminate;
    injection H as <-; eexists; constructor.
Qed.

Lemma page_part_showTimerRunning : page_part Page.showTimerRunning.
Proof. apply page_part_show_with. Qed.

Lemma page_part_showTimerPaused : page_part Page.showTimerPaused.
Proof. apply page_part_show_with. Qed.

Lemma page_part_showTimerStopped : page_part Page.showTimerStopped.
Proof. apply page_part_show_with. Qed.

(** X26: the handlers store what the controls of the state machine store,
    and they do it before any page work: [startTimer], [pauseTimer],
    [resumeTimer] and [resetTimer] of the script end with the store of the
    control called at the clock reading they take, also when they then
    throw because an element of the page is missing; with an unreadable
    store they throw the error of the store and change nothing. *)
Theorem handlers_store_first (confirmed : bool) (env : Page.Env) :
  let now := Page.clock env (Page.reads env) in
  stores_like (Page.startTimer env) env
    (startTimer now (Page.servingSelector env) (world_of env))
  /\ stores_like (Page.pauseTimer env) env (pauseTimer now (world_of env))
  /\ stores_like (Page.resumeTimer env) env (resumeTimer now (world_of env))
  /\ stores_like (Page.resetTimer confirmed env) env
       (resetTimer confirmed (world_of env)).
Proof.
  cbn zeta.
  assert (Hnone : stores_like (Page.Returned tt env) env (Ok (world_of env))).
  { exists env. split; [by left | by split]. }
  assert (Hslug : slug_of (world_of env) = Page.current_slug env) by reflexivity.
  split; [| split; [| split]].
  - unfold Page.startTimer, startTimer. rewrite Hslug.
    destruct (Page.current_slug env) as [slug |]; [| exact Hnone].
    rewrite bind_apply. cbn [Page.Date_now]. cbv zeta. rewrite bind_apply.
    unfold Page.setState at 1. cbn [Page.store Page.with_reads world_of localStorage].
    destruct (TimerManager.setState _ _ _) as [ls | e] eqn:Hset;
        cbn [mbind Result_bind mret Result_ret].
    + apply stores_like_after_write; try done.
      * apply page_part_bind; [apply page_part_showTimerRunning | intros _].
        apply page_part_bind; [apply page_part_startTimerInterval | intros _].
        apply page_part_collapse.
      * by apply setState_Ok_readable_after in Hset.
    + by eexists.
  - unfold Page.pauseTimer, pauseTimer. rewrite Hslug.
    destruct (Page.current_slug env) as [slug |]; [| exact Hnone].
    rewrite bind_apply. unfold Page.getState at 1.
    cbn [world_of localStorage].
    destruct (TimerManager.getState slug (Page.store env)) as [[st |] | e] eqn:Hget;
      cbn [mbind Result_bind].
    + rewrite bind_apply. cbn [Page.Date_now]. cbv zeta. rewrite bind_apply.
      unfold Page.setState at 1. cbn [Page.store Page.with_reads].
      destruct (TimerManager.setState _ _ _) as [ls | e] eqn:Hset;
        cbn [mbind Result_bind mret Result_ret].
      * apply stores_like_after_write; try done.
        -- apply page_part_bind; [apply page_part_stopTimerInterval | intros _].
           apply page_part_showTimerPaused.
        -- by apply setState_Ok_readable_after in Hset.
      * by eexists.
    + exact Hnone.
    + exists (Page.reads env). by rewrite with_reads_same.
  - unfold Page.resumeTimer, resumeTimer. rewrite Hslug.
    destruct (Page.current_slug env) as [slug |]; [| exact Hnone].
    rewrite bind_apply. unfold Page.getState at 1.
    cbn [world_of localStorage].
    destruct (TimerManager.getState slug (Page.store env)) as [[st |] | e] eqn:Hget;
      cbn [mbind Result_bind].
    + destruct (negb (ToBoolean (isPaused st))); [exact Hnone |].
      rewrite bind_apply. cbn [Page.Date_now]. cbv zeta. rewrite bind_apply.
      unfold Page.setState at 1. cbn [Page.store Page.with_reads].
      destruct (TimerManager.setState _ _ _) as [ls | e] eqn:Hset;
        cbn [mbind Result_bind mret Result_ret].
      * apply stores_like_after_write; try done.
        -- apply page_part_bind; [apply page_part_showTimerRunning | intros _].
           apply page_part_startTimerInterval.
        -- by apply setState_Ok_readable_after in Hset.
      * by eexists.
    + exact Hnone.
    + exists (Page.reads env). by rewrite with_reads_same.
  - unfold Page.resetTimer, resetTimer. rewrite Hslug.
    destruct (Page.current_slug env) as [slug |]; [| exact Hnone].
    destruct confirmed; [| exact Hnone].
    rewrite bind_apply. unfold Page.clearState at 1. cbn [world_of localStorage].
    destruct (TimerManager.clearState slug (Page.store env)) as [ls | e] eqn:Hclear;
      cbn [mbind Result_bind].
    + apply stores_like_after_write; try done.
      * apply page_part_bind; [apply page_part_stopTimerInterval | intros _].
        apply page_part_bind; [apply page_part_showTimerStopped | intros _].
        apply page_part_bind; [apply page_part_resetStepDisplays | intros _].
        apply page_part_expand.
      * by apply clearState_Ok_readable_after in Hclear.
    + exists (Page.reads env). by rewrite with_reads_same.
Qed.

End PageHandlersStore.

Section PageSpecs.

Import Page.

Lemma page_work_with_reads env n : page_work [] env (with_reads env n).
Proof. by repeat split. Qed.

Lemma page_work_with_stepCards env cards :
  page_work [] env (with_stepCards env cards).
Proof. by repeat split. Qed.

Lemma getElapsedMs_returns slug env :
  readable_store env ->
  returns (getElapsedMs slug) env (fun n env' =>
    page_work [] env env' /\ expanded env' = expanded env
    /\ stepCards env' = stepCards env /\ byId env' = byId env
    /\ TimerManager.getElapsedMs (clock env (reads env)) slug (store env) = Ok n).
Proof.
  intros [m Hm]. unfold getElapsedMs, TimerManager.getElapsedMs, returns.
  rewrite bind_apply. unfold getState.
  rewrite (getState_readable _ _ _ Hm). cbn [mbind Result_bind].
  destruct (_ <$> m !! slug) as [st |].
  2: { eexists _, env. split; [reflexivity |].
       split; [apply page_work_refl | done]. }
  destruct (negb (ToBoolean (startTime st))).
  { eexists _, env. split; [reflexivity |].
    split; [apply page_work_refl | done]. }
  destruct (ToBoolean (isPaused st) && ToBoolean (pausedAt st)).
  { eexists _, env. split; [reflexivity |].
    split; [apply page_work_refl | done]. }
  eexists _, _. split; [reflexivity |].
  split; [apply page_work_with_reads | done].
Qed.

Lemma updateTimerDisplay_returns env :
  readable_store env ->
  returns updateTimerDisplay env (fun _ env' =>
    page_work ["elapsed-time"] env env' /\ expanded env' = expanded env).
Proof.
  intros Hr.
  assert (forall m : Exec unit, updateTimerDisplay env = m env ->
            forall Q, returns m env Q -> returns updateTimerDisplay env Q)
    as Hext.
  { intros m Hm Q (a & env' & Hm' & HQ). exists a, env'. by rewrite Hm. }
  unfold updateTimerDisplay in Hext.
  destruct (current_slug env) as [slug |].
  2: { apply (Hext skip eq_refl). apply returns_ret.
       split; [apply page_work_refl | done]. }
  eapply Hext; [reflexivity |].
  apply returns_bind.
  eapply returns_weaken; [by apply getElapsedMs_returns |].
  intros n env1 (W1 & E1 & _).
  apply returns_bind.
  eapply returns_weaken; [apply on_element_if_there_returns |].
  intros _ env2 (W2 & _ & _ & E2 & _).
  eexists tt, _. split; [reflexivity |]. split; [| cbn; congruence].
  eapply page_work_mono;
    [| exact (page_work_trans _ _ _ _ _
                (page_work_trans _ _ _ _ _ W1 W2)
                (page_work_with_stepCards env2 _))].
  set_solver.
Qed.

Lemma updateToggleButtonState_returns b env :
  returns (updateToggleButtonState b) env (fun _ env' =>
    page_work ["toggle-icon"; "toggle-text"] env env'
    /\ expanded env' = b /\ stepCards env' = stepCards env).
Proof.
  unfold updateToggleButtonState, returns.
  eexists tt, _. split; [reflexivity |].
  destruct (byId env !! "toggle-icon") as [icon |] eqn:Hi,
           (byId env !! "toggle-text") as [text |] eqn:Ht; cbn;
    (split; [| done]); try (by repeat split).
  repeat split; cbn; try done.
  - intros id Hid. rewrite !lookup_insert_ne by set_solver. done.
  - intros [el Hel]. destruct (decide (id = "toggle-text")) as [-> | ?];
      [by rewrite Ht |].
    destruct (decide (id = "toggle-icon")) as [-> | ?]; [by rewrite Hi |].
    rewrite !lookup_insert_ne in Hel by done. by rewrite Hel.
  - intros [el Hel]. destruct (decide (id = "toggle-text")) as [-> | ?];
      [by rewrite lookup_insert_eq |].
    destruct (decide (id = "toggle-icon")) as [-> | ?];
      [by rewrite lookup_insert_ne, lookup_insert_eq |].
    rewrite !lookup_insert_ne by done. by rewrite Hel.
Qed.

Lemma hidden_if_there_lookup id env (el : option DOM.Element) :
  byId env !! id = classList_add ["hidden"] <$> el -> hidden_if_there id env.
Proof.
  intros H el' Hel'. rewrite Hel' in H.
  destruct el as [el |]; [| done]. injection H as ->.
  unfold classList_add, DOM.add. cbn. set_solver.
Qed.

Lemma shown_if_there_lookup id env (el : option DOM.Element) :
  byId env !! id = classList_remove ["hidden"] <$> el -> shown_if_there id env.
Proof.
  intros H el' Hel'. rewrite Hel' in H.
  destruct el as [el |]; [| done]. injection H as ->.
  unfold classList_remove, DOM.remove. cbn. set_solver.
Qed.

(** The four guarded edits [collapseIngredientsSection] and
    [expandIngredientsSection] start with. *)
Lemma four_sections_returns (f g : DOM.Element -> DOM.Element)
    (k : Exec unit) env (Q : unit -> Env -> Prop) :
  (forall env4,
     page_work ["serving-section"; "ingredients-section";
                "recipe-header-section"; "sections-toggle"] env env4 ->
     byId env4 !! "serving-section" = f <$> byId env !! "serving-section" ->
     byId env4 !! "ingredients-section"
       = f <$> byId env !! "ingredients-section" ->
     byId env4 !! "recipe-header-section"
       = f <$> byId env !! "recipe-header-section" ->
     byId env4 !! "sections-toggle" = g <$> byId env !! "sections-toggle" ->
     stepCards env4 = stepCards env -> expanded env4 = expanded env ->
     returns k env4 Q) ->
  returns
    (_ ← on_element_if_there "serving-section" f;
     _ ← on_element_if_there "ingredients-section" f;
     _ ← on_element_if_there "recipe-header-section" f;
     _ ← on_element_if_there "sections-toggle" g;
     k) env Q.
Proof.
  intros Hk.
  apply returns_bind.
  eapply returns_weaken; [apply on_element_if_there_returns |].
  intros _ env1 (W1 & L1 & C1 & E1 & _).
  pose proof W1 as (_ & _ & _ & _ & _ & K1 & _).
  apply returns_bind.
  eapply returns_weaken; [apply on_element_if_there_returns |].
  intros _ env2 (W2 & L2 & C2 & E2 & _).
  pose proof W2 as (_ & _ & _ & _ & _ & K2 & _).
  apply returns_bind.
  eapply returns_weaken; [apply on_element_if_there_returns |].
  intros _ env3 (W3 & L3 & C3 & E3 & _).
  pose proof W3 as (_ & _ & _ & _ & _ & K3 & _).
  apply returns_bind.
  eapply returns_weaken; [apply on_element_if_there_returns |].
  intros _ env4 (W4 & L4 & C4 & E4 & _).
  pose proof W4 as (_ & _ & _ & _ & _ & K4 & _).
  apply Hk; try congruence.
  - eapply page_work_mono;
      [| exact (page_work_trans _ _ _ _ _
                  (page_work_trans _ _ _ _ _
                     (page_work_trans _ _ _ _ _ W1 W2) W3) W4)].
    set_solver.
  - rewrite K4, K3, K2 by set_solver. done.
  - rewrite K4, K3, L2, K1 by set_solver. done.
  - rewrite K4, L3, K2, K1 by set_solver. done.
  - rewrite L4, K3, K2, K1 by set_solver. done.
Qed.

Lemma collapse_returns env :
  returns collapseIngredientsSection env (fun _ env' =>
    page_work section_ids env env'
    /\ hidden_if_there "serving-section" env'
    /\ hidden_if_there "ingredients-section" env'
    /\ hidden_if_there "recipe-header-section" env'
    /\ shown_if_there "sections-toggle" env'
    /\ expanded env' = false /\ stepCards env' = stepCards env).
Proof.
  unfold collapseIngredientsSection.
  apply four_sections_returns. intros env4 W4 L1 L2 L3 L4 C4 E4.
  eapply returns_weaken; [apply updateToggleButtonState_returns |].
  intros _ env5 (W5 & E5 & C5).
  pose proof W5 as (_ & _ & _ & _ & _ & K5 & _).
  split.
  { eapply page_work_mono; [| exact (page_work_trans _ _ _ _ _ W4 W5)].
    unfold section_ids. set_solver. }
  split; [eapply hidden_if_there_lookup; rewrite K5 by set_solver; eassumption |].
  split; [eapply hidden_if_there_lookup; rewrite K5 by set_solver; eassumption |].
  split; [eapply hidden_if_there_lookup; rewrite K5 by set_solver; eassumption |].
  split; [eapply shown_if_there_lookup; rewrite K5 by set_solver; eassumption |].
  split; congruence.
Qed.

Lemma expand_returns env :
  returns expandIngredientsSection env (fun _ env' =>
    page_work section_ids env env'
    /\ shown_if_there "serving-section" env'
    /\ shown_if_there "ingredients-section" env'
    /\ shown_if_there "recipe-header-section" env'
    /\ hidden_if_there "sections-toggle" env'
    /\ expanded env' = expanded env /\ stepCards env' = stepCards env).
Proof.
  unfold expandIngredientsSection.
  assert (forall env0,
            on_element_if_there "sections-toggle" (classList_add ["hidden"]) env0
            = (_ ← on_element_if_there "sections-toggle"
                     (classList_add ["hidden"]); skip) env0) as Hskip.
  { intros env0. rewrite bind_apply.
    by destruct (on_element_if_there _ _ env0) as [[] ? | ? ?]. }
  unfold returns.
  assert (forall m m' : Exec unit, (forall env0, m env0 = m' env0) ->
            forall Q, returns m' env Q -> returns m env Q) as Hext.
  { intros m m' Hmm Q (a & env' & Hm & HQ). exists a, env'. by rewrite Hmm. }
  eapply (Hext _
            (_ ← on_element_if_there "serving-section" (classList_remove ["hidden"]);
             _ ← on_element_if_there "ingredients-section"
                   (classList_remove ["hidden"]);
             _ ← on_element_if_there "recipe-header-section"
                   (classList_remove ["hidden"]);
             _ ← on_element_if_there "sections-toggle" (classList_add ["hidden"]);
             skip)).
  { intros env0. rewrite !bind_apply.
    destruct (on_element_if_there _ _ env0) as [[] env1 | ? ?]; [| done].
    rewrite !bind_apply.
    destruct (on_element_if_there _ _ env1) as [[] env2 | ? ?]; [| done].
    rewrite !bind_apply.
    destruct (on_element_if_there _ _ env2) as [[] env3 | ? ?]; [| done].
    apply Hskip. }
  apply four_sections_returns. intros env4 W4 L1 L2 L3 L4 C4 E4.
  apply returns_ret.
  split.
  { eapply page_work_mono; [| exact W4]. unfold section_ids. set_solver. }
  split; [by eapply shown_if_there_lookup |].
  split; [by eapply shown_if_there_lookup |].
  split; [by eapply shown_if_there_lookup |].
  split; [by eapply hidden_if_there_lookup |]. done.
Qed.

End PageSpecs.

Section PageLooks.

Import Page.

Lemma shown_fmap env id (o : option DOM.Element) :
  is_Some o -> byId env !! id = classList_remove ["hidden"] <$> o ->
  shown id env.
Proof. intros [el ->] H. by eapply shown_remove. Qed.

Lemma hidden_fmap env id (o : option DOM.Element) :
  is_Some o -> byId env !! id = classList_add ["hidden"] <$> o ->
  hidden id env.
Proof. intros [el ->] H. by eapply hidden_add. Qed.

Lemma controls_there_inv env :
  controls_there env ->
  is_Some (byId env !! "timer-status") /\ is_Some (byId env !! "start-btn")
  /\ is_Some (byId env !! "pause-btn") /\ is_Some (byId env !! "resume-btn")
  /\ is_Some (byId env !! "reset-btn").
Proof.
  unfold controls_there. intros H.
  apply Forall_cons in H as [H1 H]. apply Forall_cons in H as [H2 H].
  apply Forall_cons in H as [H3 H]. apply Forall_cons in H as [H4 H].
  apply Forall_cons in H as [H5 _]. done.
Qed.

Lemma showTimerRunning_returns env :
  controls_there env ->
  returns showTimerRunning env (fun _ env' =>
    page_work control_ids env env' /\ looks_running env'
    /\ stepCards env' = on_countdown (classList_remove ["hidden"]) <$> stepCards env
    /\ expanded env' = expanded env /\ reads env' = reads env).
Proof.
  intros Hthere.
  destruct (controls_there_inv env Hthere) as (H1 & H2 & H3 & H4 & H5).
  eapply returns_weaken; [exact (show_with_returns _ _ _ _ _ _ env Hthere) |].
  intros _ env' (W & L1 & L2 & L3 & L4 & L5 & C & E & R).
  split; [done |]. split; [| done].
  repeat split;
    first [by eapply shown_fmap; [| eassumption]
          | by eapply hidden_fmap; [| eassumption]].
Qed.

Lemma showTimerPaused_returns env :
  controls_there env ->
  returns showTimerPaused env (fun _ env' =>
    page_work control_ids env env' /\ looks_paused env'
    /\ stepCards env' = on_countdown (classList_remove ["hidden"]) <$> stepCards env
    /\ expanded env' = expanded env /\ reads env' = reads env).
Proof.
  intros Hthere.
  destruct (controls_there_inv env Hthere) as (H1 & H2 & H3 & H4 & H5).
  eapply returns_weaken; [exact (show_with_returns _ _ _ _ _ _ env Hthere) |].
  intros _ env' (W & L1 & L2 & L3 & L4 & L5 & C & E & R).
  split; [done |]. split; [| done].
  repeat split;
    first [by eapply shown_fmap; [| eassumption]
          | by eapply hidden_fmap; [| eassumption]].
Qed.

Lemma showTimerStopped_returns env :
  controls_there env ->
  returns showTimerStopped env (fun _ env' =>
    page_work control_ids env env' /\ looks_stopped env'
    /\ stepCards env' = on_countdown (classList_add ["hidden"]) <$> stepCards env
    /\ expanded env' = expanded env /\ reads env' = reads env).
Proof.
  intros Hthere.
  destruct (controls_there_inv env Hthere) as (H1 & H2 & H3 & H4 & H5).
  eapply returns_weaken; [exact (show_with_returns _ _ _ _ _ _ env Hthere) |].
  intros _ env' (W & L1 & L2 & L3 & L4 & L5 & C & E & R).
  split; [done |]. split; [| done].
  repeat split;
    first [by eapply shown_fmap; [| eassumption]
          | by eapply hidden_fmap; [| eassumption]].
Qed.

Lemma startTimerInterval_returns env :
  readable_store env ->
  returns startTimerInterval env (fun _ env' =>
    page_work ["elapsed-time"] (with_ticking env true) env'
    /\ expanded env' = expanded env).
Proof. intros Hr. exact (updateTimerDisplay_returns (with_ticking env true) Hr). Qed.

(** The looks are about the five controls only. *)
Lemma looks_kept env env' :
  (forall id, id ∈ control_ids -> byId env' !! id = byId env !! id) ->
  (looks_running env -> looks_running env')
  /\ (looks_paused env -> looks_paused env')
  /\ (looks_stopped env -> looks_stopped env').
Proof.
  intros K.
  assert (forall id, id ∈ control_ids -> shown id env -> shown id env') as Hs.
  { intros id Hid (el & Hel & Hn). exists el. by rewrite K. }
  assert (forall id, id ∈ control_ids -> hidden id env -> hidden id env') as Hh.
  { intros id Hid (el & Hel & Hn). exists el. by rewrite K. }
  unfold looks_running, looks_paused, looks_stopped.
  split; [| split]; intros (? & ? & ? & ? & ?);
    repeat split; (apply Hs || apply Hh); try done;
    unfold control_ids; set_solver.
Qed.

Lemma looks_page_work ids env env' :
  (forall id, id ∈ control_ids -> id ∉ ids) ->
  page_work ids env env' ->
  (looks_running env -> looks_running env')
  /\ (looks_paused env -> looks_paused env')
  /\ (looks_stopped env -> looks_stopped env').
Proof.
  intros Hids (_ & _ & _ & _ & _ & K & _). apply looks_kept.
  intros id Hid. apply K. by apply Hids.
Qed.

Lemma controls_not_elapsed id : id ∈ control_ids -> id ∉ ["elapsed-time"].
Proof. unfold control_ids. set_solver. Qed.

Lemma controls_not_sections id : id ∈ control_ids -> id ∉ section_ids.
Proof. unfold control_ids, section_ids. set_solver. Qed.

Lemma setState_returns slug st env :
  readable_store env ->
  returns (setState slug st) env (fun _ env' =>
    readable_store env' /\ exists ls, env' = with_store env ls).
Proof.
  intros [m Hm]. unfold setState, returns.
  rewrite (setState_readable _ _ _ _ Hm).
  eexists tt, _. split; [reflexivity |]. split; [| by eexists].
  eexists. cbn. apply readable_object.
Qed.

Lemma stopTimerInterval_returns env :
  returns stopTimerInterval env (fun _ env' =>
    ticking env' = false /\ store env' = store env /\ byId env' = byId env
    /\ stepCards env' = stepCards env /\ expanded env' = expanded env
    /\ recipeSlug env' = recipeSlug env).
Proof.
  unfold stopTimerInterval, returns. eexists tt, _. split; [reflexivity |].
  by destruct (ticking env) eqn:E.
Qed.

(** X27: with the five controls on the page and a readable store, the
    handlers return and leave the page in the look of the state they have
    stored: after [startTimer] the controls look running, the interval is
    set and the three sections of the recipe are hidden behind the toggle;
    after [pauseTimer], when a state is stored, they look paused and the
    interval is cleared; after [resumeTimer] of a paused state they look
    running again and the interval is set. *)
Theorem handlers_show_state (env : Env) (slug : string)
    (r : option TimerState) :
  controls_there env ->
  current_slug env = Some slug ->
  TimerManager.getState slug (store env) = Ok r ->
  returns startTimer env (fun _ env' =>
    looks_running env' /\ ticking env' = true
    /\ hidden_if_there "serving-section" env'
    /\ hidden_if_there "ingredients-section" env'
    /\ hidden_if_there "recipe-header-section" env'
    /\ shown_if_there "sections-toggle" env')
  /\ (is_Some r ->
      returns pauseTimer env (fun _ env' =>
        looks_paused env' /\ ticking env' = false))
  /\ (forall st, r = Some st -> ToBoolean (isPaused st) = true ->
      returns resumeTimer env (fun _ env' =>
        looks_running env' /\ ticking env' = true)).
Proof.
  intros Hthere Hslug Hget.
  destruct (getState_Ok_readable _ _ _ Hget) as (m & Hm & _).
  assert (readable_store env) as Hr by (by exists m).
  assert (forall n ls, controls_there (with_store (with_reads env n) ls))
    as Hthere' by (intros; exact Hthere).
  split; [| split].
  - unfold returns, startTimer. rewrite Hslug.
    apply returns_bind. eexists _, _. split; [reflexivity |].
    apply returns_bind.
    eapply returns_weaken; [apply setState_returns; exact Hr |].
    intros _ env2 (Hr2 & ls & ->).
    apply returns_bind.
    eapply returns_weaken; [apply showTimerRunning_returns, Hthere' |].
    intros _ env3 (W3 & Hlook & _).
    apply returns_bind.
    eapply returns_weaken;
      [apply startTimerInterval_returns;
       destruct Hr2 as [m2 Hm2]; exists m2;
       destruct W3 as (-> & _); exact Hm2 |].
    intros _ env4 (W4 & _).
    eapply returns_weaken; [apply collapse_returns |].
    intros _ env5 (W5 & S1 & S2 & S3 & S4 & _).
    split.
    { apply (looks_page_work _ _ _ controls_not_sections W5).
      by apply (looks_page_work _ _ _ controls_not_elapsed W4). }
    split; [| done].
    destruct W5 as (_ & _ & -> & _), W4 as (_ & _ & -> & _). done.
  - intros [st ->].
    unfold returns, pauseTimer. rewrite Hslug.
    rewrite bind_apply. unfold getState at 1. rewrite Hget.
    apply returns_bind. eexists _, _. split; [reflexivity |].
    apply returns_bind.
    eapply returns_weaken; [apply setState_returns; exact Hr |].
    intros _ env2 (Hr2 & ls & ->).
    apply returns_bind.
    eapply returns_weaken; [apply stopTimerInterval_returns |].
    intros _ env3 (T3 & _ & B3 & _).
    eapply returns_weaken;
      [apply showTimerPaused_returns; unfold controls_there; rewrite B3;
       apply Hthere' |].
    intros _ env4 (W4 & Hlook & _).
    split; [done |]. destruct W4 as (_ & _ & -> & _). done.
  - intros st -> Hpaused.
    unfold returns, resumeTimer. rewrite Hslug.
    rewrite bind_apply. unfold getState at 1. rewrite Hget, Hpaused.
    cbn [negb].
    apply returns_bind. eexists _, _. split; [reflexivity |].
    apply returns_bind.
    eapply returns_weaken; [apply setState_returns; exact Hr |].
    intros _ env2 (Hr2 & ls & ->).
    apply returns_bind.
    eapply returns_weaken; [apply showTimerRunning_returns, Hthere' |].
    intros _ env3 (W3 & Hlook & _).
    eapply returns_weaken;
      [apply startTimerInterval_returns;
       destruct Hr2 as [m2 Hm2]; exists m2;
       destruct W3 as (-> & _); exact Hm2 |].
    intros _ env4 (W4 & _).
    split.
    { by apply (looks_page_work _ _ _ controls_not_elapsed W4). }
    destruct W4 as (_ & _ & -> & _). done.
Qed.

End PageLooks.

Section PageReset.

Import Page.

Lemma clearState_returns slug env m :
  readable (store env) m ->
  returns (clearState slug) env (fun _ env' =>
    exists ls, env' = with_store env ls /\ readable ls (delete slug m)).
Proof.
  intros Hm. destruct (clearState_readable slug _ _ Hm) as (ls & Hclear & Hls).
  unfold clearState, returns. rewrite Hclear.
  eexists tt, _. split; [reflexivity |]. by exists ls.
Qed.

Lemma reset_card_after_stop (c : DOM.Card) :
  let c' := reset_card (on_countdown (classList_add ["hidden"]) c) in
  ("opacity-60" ∉ DOM.classList c') /\ ("border-accent" ∉ DOM.classList c')
  /\ ("hidden" ∈ DOM.classList c' <-> "hidden" ∈ DOM.classList c)
  /\ forall el, DOM.countdownEl c' = Some el ->
       DOM.textContent el = "--:--" /\ "hidden" ∈ DOM.el_classList el.
Proof.
  destruct c as [s d cl [el |]]; cbn;
    unfold reset_card, on_countdown, classList_add, classList_remove,
      DOM.remove, DOM.add; cbn.
  - split; [set_solver |]. split; [set_solver |]. split; [set_solver |].
    intros el' [= <-]. cbn. split; [done | set_solver].
  - split; [set_solver |]. split; [set_solver |]. split; [set_solver |].
    done.
Qed.


End PageReset.

Section PageInit.

Import Page.

Lemma hidden_if_there_page_work ids id env env' :
  id ∉ ids -> page_work ids env env' ->
  hidden_if_there id env -> hidden_if_there id env'.
Proof.
  intros Hid (_ & _ & _ & _ & _ & K & _) H el. rewrite K by done. apply H.
Qed.

Lemma sections_not_elapsed :
  ("serving-section" ∉ ["elapsed-time"])
  /\ ("ingredients-section" ∉ ["elapsed-time"])
  /\ "recipe-header-section" ∉ ["elapsed-time"].
Proof. set_solver. Qed.

(** X29: when the page is loaded, [initTimer] makes the recipe current and
    leaves the store alone.  With a started timer stored it gives the page
    the look of that timer: paused, without setting the interval, or
    running, with the interval set; the sections of the recipe are hidden
    either way.  With nothing stored for the recipe, or a state without
    start time, it touches nothing else. *)
Theorem initTimer_restores (env : Env) (slug : string)
    (r : option TimerState) :
  controls_there env ->
  TimerManager.getState slug (store env) = Ok r ->
  returns (initTimer slug) env (fun _ env' =>
    store env' = store env /\ recipeSlug env' = Some slug
    /\ match r with
       | Some st =>
           if ToBoolean (startTime st) then
             (if ToBoolean (isPaused st)
              then looks_paused env' /\ ticking env' = ticking env
              else looks_running env' /\ ticking env' = true)
             /\ hidden_if_there "serving-section" env'
             /\ hidden_if_there "ingredients-section" env'
             /\ hidden_if_there "recipe-header-section" env'
           else env' = with_recipeSlug env (Some slug)
       | None => env' = with_recipeSlug env (Some slug)
       end).
Proof.
  intros Hthere Hget.
  destruct (getState_Ok_readable _ _ _ Hget) as (m & Hm & _).
  unfold returns, initTimer. rewrite bind_apply. unfold getState at 1.
  cbn [store with_recipeSlug]. rewrite Hget.
  set (env0 := with_recipeSlug env (Some slug)).
  assert (controls_there env0) as Hthere0 by exact Hthere.
  destruct r as [st |]; [| by eexists tt, _].
  destruct (ToBoolean (startTime st)); [| by eexists tt, _].
  destruct sections_not_elapsed as (N1 & N2 & N3).
  apply returns_bind.
  destruct (ToBoolean (isPaused st)).
  - eapply returns_weaken; [by apply showTimerPaused_returns |].
    intros _ env1 (W1 & Hlook & _).
    apply returns_bind.
    eapply returns_weaken; [apply collapse_returns |].
    intros _ env2 (W2 & S1 & S2 & S3 & _).
    eapply returns_weaken;
      [apply updateTimerDisplay_returns; exists m;
       destruct W2 as (-> & _), W1 as (-> & _); exact Hm |].
    intros _ env3 (W3 & _).
    split.
    { destruct W3 as (-> & _), W2 as (-> & _), W1 as (-> & _). done. }
    split.
    { destruct W3 as (_ & -> & _), W2 as (_ & -> & _), W1 as (_ & -> & _).
      done. }
    split; [split |].
    + apply (looks_page_work _ _ _ controls_not_elapsed W3).
      by apply (looks_page_work _ _ _ controls_not_sections W2).
    + destruct W3 as (_ & _ & -> & _), W2 as (_ & _ & -> & _),
        W1 as (_ & _ & -> & _). done.
    + repeat split; by eapply hidden_if_there_page_work.
  - apply returns_bind.
    eapply returns_weaken; [by apply showTimerRunning_returns |].
    intros _ env1 (W1 & Hlook & _).
    eapply returns_weaken;
      [apply startTimerInterval_returns; exists m;
       destruct W1 as (-> & _); exact Hm |].
    intros _ env1' (W1' & _).
    apply returns_bind.
    eapply returns_weaken; [apply collapse_returns |].
    intros _ env2 (W2 & S1 & S2 & S3 & _).
    eapply returns_weaken;
      [apply updateTimerDisplay_returns; exists m;
       destruct W2 as (-> & _), W1' as (-> & _); cbn;
       destruct W1 as (-> & _); exact Hm |].
    intros _ env3 (W3 & _).
    split.
    { destruct W3 as (-> & _), W2 as (-> & _), W1' as (-> & _). cbn.
      destruct W1 as (-> & _). done. }
    split.
    { destruct W3 as (_ & -> & _), W2 as (_ & -> & _), W1' as (_ & -> & _).
      cbn. destruct W1 as (_ & -> & _). done. }
    split; [split |].
    + apply (looks_page_work _ _ _ controls_not_elapsed W3).
      apply (looks_page_work _ _ _ controls_not_sections W2).
      by apply (looks_page_work _ _ _ controls_not_elapsed W1').
    + destruct W3 as (_ & _ & -> & _), W2 as (_ & _ & -> & _),
        W1' as (_ & _ & -> & _). done.
    + repeat split; by eapply hidden_if_there_page_work.
Qed.

End PageInit.

Section PagePaused.

Import Page.

(** X30: while the timer is paused the display stands still.  A tick then
    does not read the clock: it shows the time from the start to the pause,
    on the elapsed time and on the step cards, whatever the time is now, and
    a further tick changes nothing on the page. *)
Theorem paused_display_stands_still (env : Env) (slug : string)
    (st : TimerState) (t0 p : Z) :
  current_slug env = Some slug ->
  TimerManager.getState slug (store env) = Ok (Some st) ->
  startTime st = VNum (Fin t0) -> t0 <> 0 ->
  ToBoolean (isPaused st) = true ->
  pausedAt st = VNum (Fin p) -> p <> 0 ->
  returns updateTimerDisplay env (fun _ env' =>
    reads env' = reads env
    /\ stepCards env'
       = StepCard.updateStepCountdowns (p - t0) (stepCards env)
    /\ byId env' !! "elapsed-time"
       = set_textContent (DOM.formatTime ((p - t0) / 1000))
           <$> byId env !! "elapsed-time"
    /\ updateTimerDisplay env' = Returned tt env').
Proof.
  intros Hslug Hget Ht0 Hnz Hpaused Hp Hpnz.
  assert (forall env1, current_slug env1 = Some slug ->
            store env1 = store env ->
            updateTimerDisplay env1
            = Returned tt
                (with_stepCards
                   (match byId env1 !! "elapsed-time" with
                    | Some el =>
                        with_byId env1
                          (<["elapsed-time" :=
                               set_textContent
                                 (DOM.formatTime ((p - t0) / 1000)) el]>
                             (byId env1))
                    | None => env1
                    end)
                   (StepCard.updateStepCountdowns (p - t0) (stepCards env1))))
    as Htick.
  { intros env1 Hslug1 Hstore1. unfold updateTimerDisplay. rewrite Hslug1.
    rewrite bind_apply. unfold getElapsedMs at 1. rewrite bind_apply.
    unfold getState at 1. rewrite Hstore1, Hget, Ht0, Hp, Hpaused.
    cbn [ToBoolean negb andb].
    destruct (t0 =? 0) eqn:E0; [lia |]. destruct (p =? 0) eqn:Ep; [lia |].
    cbn [negb andb]. cbn [mret Exec_ret].
    rewrite bind_apply. unfold on_element_if_there at 1.
    by destruct (byId env1 !! "elapsed-time"). }
  unfold returns. rewrite (Htick env Hslug eq_refl).
  eexists tt, _. split; [reflexivity |].
  destruct (byId env !! "elapsed-time") as [el |] eqn:Hel; cbn.
  - rewrite lookup_insert_eq. do 3 (split; [done |]).
    rewrite Htick by done. cbn. rewrite lookup_insert_eq.
    unfold with_stepCards, with_byId. cbn.
    by rewrite insert_insert_eq, StepCard_tick_twice.
  - rewrite Hel. do 3 (split; [done |]).
    rewrite Htick by done. cbn. rewrite Hel.
    unfold with_stepCards. cbn. by rewrite StepCard_tick_twice.
Qed.

End PagePaused.

(** ** The properties above at the example data *)

Section MoreScenarios.

Import TimelineManager.

Lemma setState_then_getState_witness :
  JSON.plain_key "carbonara"
  /\ TimerManager.getState "carbonara" store_E = Ok (Some carbonara_held)
  /\ exists ls',
       TimerManager.setState "carbonara" ragu_held store_E = Ok ls'
       /\ TimerManager.getState "carbonara" ls' = Ok (Some (reread ragu_held))
       /\ (all_storable ragu_held ->
           TimerManager.getState "carbonara" ls' = Ok (Some ragu_held)).
Proof.
  assert (Hk : JSON.plain_key "carbonara")
    by (apply (bool_decide_unpack _); vm_compute; exact I).
  split; [exact Hk |]. split; [reflexivity |].
  exact (setState_then_getState "carbonara" ragu_held store_E
           (Some carbonara_held) Hk eq_refl).
Defined.


Lemma clearState_idempotent_witness :
  JSON.plain_key "carbonara"
  /\ exists ls',
       TimerManager.clearState "carbonara" store_E = Ok ls'
       /\ TimerManager.getState "carbonara" ls' = Ok None
       /\ TimerManager.clearState "carbonara" ls' = Ok ls'
       /\ (store_E = None -> ls' = None).
Proof.
  assert (Hk : JSON.plain_key "carbonara")
    by (apply (bool_decide_unpack _); vm_compute; exact I).
  split; [exact Hk |]. eexists. split; [reflexivity |].
  exact (clearState_idempotent "carbonara" store_E _ Hk eq_refl).
Defined.

Lemma getElapsedMs_never_NaN_witness :
  JSON.plain_key "carbonara"
  /\ reachable "carbonara" carbonara_resumed
  /\ exists ms,
       TimerManager.getElapsedMs 9500 "carbonara" (localStorage carbonara_resumed)
       = Ok (Fin ms).
Proof.
  assert (Hk : JSON.plain_key "carbonara")
    by (apply (bool_decide_unpack _); vm_compute; exact I).
  assert (Hreach : reachable "carbonara" carbonara_resumed).
  { apply (reachable_step _ carbonara_paused).
    - apply (reachable_step _ carbonara_running).
      + apply (reachable_step _ carbonara_stopped).
        * apply reachable_stopped. split; reflexivity.
        * apply (step_run _ (Start 1000 (Some (Fin 4)))). reflexivity.
      + apply (step_run _ (Pause 2000)). reflexivity.
    - apply (step_run _ (Resume 9000)). reflexivity. }
  split; [exact Hk |]. split; [exact Hreach |].
  exact (getElapsedMs_never_NaN 9500 "carbonara" carbonara_resumed Hk Hreach).
Defined.

Lemma startTimer_starts_over_witness :
  JSON.plain_key "carbonara"
  /\ slug_of two_timers = Some "carbonara"
  /\ TimerManager.getState "carbonara" (localStorage two_timers)
     = Ok (Some carbonara_started)
  /\ 5000 <> 0
  /\ exists w',
       startTimer 5000 (Some (Fin 2)) two_timers = Ok w'
       /\ TimerManager.getState "carbonara" (localStorage w')
          = Ok (Some (fresh_state 5000 (Some (Fin 2))))
       /\ TimerManager.getElapsedMs 9000 "carbonara" (localStorage w')
          = Ok (Fin (9000 - 5000))
       /\ timerInterval w' = true.
Proof.
  assert (Hk : JSON.plain_key "carbonara")
    by (apply (bool_decide_unpack _); vm_compute; exact I).
  assert (Hnz : 5000 <> 0) by discriminate.
  split; [exact Hk |].
  split; [reflexivity |]. split; [reflexivity |]. split; [exact Hnz |].
  exact (startTimer_starts_over 5000 9000 (Some (Fin 2)) two_timers
           "carbonara" (Some carbonara_started) Hk eq_refl eq_refl Hnz).
Defined.

Lemma resetTimer_forgets_current_recipe_witness :
  JSON.plain_key "carbonara"
  /\ slug_of two_timers = Some "carbonara"
  /\ TimerManager.getState "carbonara" (localStorage two_timers)
     = Ok (Some carbonara_started)
  /\ resetTimer false two_timers = Ok two_timers
  /\ exists w',
       resetTimer true two_timers = Ok w'
       /\ TimerManager.getState "carbonara" (localStorage w') = Ok None
       /\ TimerManager.getElapsedMs 9000 "carbonara" (localStorage w')
          = Ok (Fin 0)
       /\ timerInterval w' = false
       /\ forall other, other <> "carbonara" ->
            TimerManager.getState other (localStorage w')
            = TimerManager.getState other (localStorage two_timers).
Proof.
  assert (Hk : JSON.plain_key "carbonara")
    by (apply (bool_decide_unpack _); vm_compute; exact I).
  split; [exact Hk |]. split; [reflexivity |]. split; [reflexivity |].
  exact (resetTimer_forgets_current_recipe 9000 two_timers "carbonara"
           (Some carbonara_started) Hk eq_refl eq_refl).
Defined.

Lemma resumeTimer_twice_witness :
  exists w1,
    resumeTimer 9000 carbonara_paused = Ok w1
    /\ resumeTimer 9500 w1 = Ok w1.
Proof.
  eexists. split; [reflexivity |].
  exact (resumeTimer_twice 9000 9500 carbonara_paused _ eq_refl).
Defined.

Lemma pause_pause_resume_witness :
  slug_of carbonara_running = Some "carbonara"
  /\ TimerManager.getState "carbonara" (localStorage carbonara_running)
     = Ok (Some carbonara_started)
  /\ 0 < 1000 /\ 3000 <= 4000
  /\ exists w1 w2 w3,
       pauseTimer 2000 carbonara_running = Ok w1
       /\ pauseTimer 3000 w1 = Ok w2
       /\ resumeTimer 4000 w2 = Ok w3
       /\ TimerManager.getElapsedMs 4000 "carbonara" (localStorage w3)
          = Ok (Fin (3000 - 1000)).
Proof.
  assert (Hpos : 0 < 1000) by reflexivity.
  assert (Hle : 3000 <= 4000) by discriminate.
  split; [reflexivity |]. split; [reflexivity |].
  split; [exact Hpos |]. split; [exact Hle |].
  exact (pause_pause_resume 2000 3000 4000 carbonara_running "carbonara"
           carbonara_started 1000 eq_refl eq_refl eq_refl Hpos Hle).
Defined.

Lemma getUpcomingSteps_later_witness :
  (1 <= 6)%Q
  /\ getUpcomingSteps [ItemAction step_b; ItemParallel "p" 7 [step_x];
                       ItemAction step_a] 6
     = List.filter (is_upcoming 6)
         (getUpcomingSteps [ItemAction step_b; ItemParallel "p" 7 [step_x];
                            ItemAction step_a] 1).
Proof.
  assert (Hle : (1 <= 6)%Q) by discriminate.
  split; [exact Hle |].
  exact (getUpcomingSteps_later
           [ItemAction step_b; ItemParallel "p" 7 [step_x]; ItemAction step_a]
           1 6 Hle).
Defined.

Lemma current_step_before_next_witness :
  getCurrentStep [ItemAction step_a; ItemAction step_b] 1 = Some step_a
  /\ getNextStep [ItemAction step_a; ItemAction step_b] 1
     = Some (ItemAction step_b)
  /\ (startMinute step_a <= 1)%Q
  /\ (1 < item_startMinute (ItemAction step_b))%Q
  /\ ItemAction step_b <> ItemAction step_a.
Proof.
  split; [reflexivity |]. split; [reflexivity |].
  exact (current_step_before_next [ItemAction step_a; ItemAction step_b] 1
           step_a (ItemAction step_b) eq_refl eq_refl).
Defined.

Lemma StepCard_hides_past_steps_witness :
  [prep_card; sear_card] !! 1%nat = Some sear_card
  /\ StepCard.updateStepCountdowns 600000 [prep_card; sear_card] !! 1%nat
     = Some (ticked_card 600000)
  /\ ("hidden" ∈ DOM.classList (ticked_card 600000)
      <-> past (minutes_of 600000) sear_card).
Proof.
  assert (StepCard.updateStepCountdowns 600000 [prep_card; sear_card] !! 1%nat
          = Some (ticked_card 600000)) as H by (vm_compute; reflexivity).
  split; [reflexivity |]. split; [exact H |].
  exact (StepCard_hides_past_steps 600000 [prep_card; sear_card] 1 sear_card _
           eq_refl H).
Defined.

Lemma StepCard_one_next_never_hidden_witness :
  [prep_card; sear_card] !! 1%nat = Some sear_card
  /\ StepCard.updateStepCountdowns 0 [prep_card; sear_card] !! 1%nat
     = Some (ticked_card 0)
  /\ "border-accent" ∈ DOM.classList (ticked_card 0)
  /\ ("border-accent" ∈ DOM.classList (ticked_card 0) -> 1%nat = 1%nat)
  /\ (is_Some (DOM.countdownEl sear_card) ->
      (0 <= or_zero (DOM.data_durationMinutes sear_card))%Q ->
      "hidden" ∉ DOM.classList (ticked_card 0)).
Proof.
  assert (StepCard.updateStepCountdowns 0 [prep_card; sear_card] !! 1%nat
          = Some (ticked_card 0)) as H by (vm_compute; reflexivity).
  assert ("border-accent" ∈ DOM.classList (ticked_card 0)) as Hmark
    by (apply (bool_decide_unpack _); vm_compute; exact I).
  split; [reflexivity |]. split; [exact H |]. split; [exact Hmark |].
  exact (StepCard_one_next_never_hidden 0 [prep_card; sear_card] 1 1 sear_card
           _ _ eq_refl H H Hmark).
Defined.

Lemma sear_card_not_past : ~ past (minutes_of 0) sear_card.
Proof. intros [_ H]. vm_compute in H. discriminate H. Qed.

Lemma StepCard_shows_state_witness :
  [prep_card; sear_card] !! 1%nat = Some sear_card
  /\ DOM.countdownEl sear_card
     = Some {| DOM.el_classList := ∅; DOM.textContent := "--:--" |}
  /\ ~ past (minutes_of 0) sear_card
  /\ StepCard.updateStepCountdowns 0 [prep_card; sear_card] !! 1%nat
     = Some (ticked_card 0)
  /\ exists el',
       DOM.countdownEl (ticked_card 0) = Some el'
       /\ ((DOM.remaining (minutes_of 0) sear_card <= 0)%Q ->
             "opacity-60" ∈ DOM.classList (ticked_card 0)
             /\ DOM.textContent el' = "✓ Now!"
             /\ "text-success" ∈ DOM.el_classList el'
             /\ "text-accent" ∉ DOM.el_classList el')
       /\ ((0 < DOM.remaining (minutes_of 0) sear_card)%Q ->
             ("opacity-60" ∉ DOM.classList (ticked_card 0))
             /\ DOM.textContent el'
                = DOM.formatTime
                    (Qfloor (Double.mul
                               (DOM.remaining (minutes_of 0) sear_card) 60))
             /\ "text-accent" ∈ DOM.el_classList el'
             /\ "text-success" ∉ DOM.el_classList el').
Proof.
  assert (StepCard.updateStepCountdowns 0 [prep_card; sear_card] !! 1%nat
          = Some (ticked_card 0)) as H by (vm_compute; reflexivity).
  split; [reflexivity |]. split; [reflexivity |].
  split; [exact sear_card_not_past |]. split; [exact H |].
  exact (StepCard_shows_state 0 [prep_card; sear_card] 1 sear_card _ _
           eq_refl eq_refl sear_card_not_past H).
Defined.

Lemma StepTicket_done_or_waiting_witness :
  [prep_card; sear_card] !! 1%nat = Some sear_card
  /\ DOM.countdownEl sear_card
     = Some {| DOM.el_classList := ∅; DOM.textContent := "--:--" |}
  /\ ~ past (minutes_of 0) sear_card
  /\ StepTicket.updateStepCountdowns 0 [prep_card; sear_card] !! 1%nat
     = Some (ticked_ticket 0)
  /\ exists el',
       DOM.countdownEl (ticked_ticket 0) = Some el'
       /\ ("step-ticket--done" ∈ DOM.classList (ticked_ticket 0)
           <-> (DOM.remaining (minutes_of 0) sear_card <= 0)%Q)
       /\ ("step-ticket--waiting" ∈ DOM.classList (ticked_ticket 0)
           <-> (0 < DOM.remaining (minutes_of 0) sear_card)%Q)
       /\ ((DOM.remaining (minutes_of 0) sear_card <= 0)%Q ->
             DOM.textContent el' = "Now"
             /\ "step-countdown--done" ∈ DOM.el_classList el')
       /\ ((0 < DOM.remaining (minutes_of 0) sear_card)%Q ->
             DOM.textContent el'
             = "T-" +:+ DOM.formatTime
                 (Qfloor (Double.mul
                            (DOM.remaining (minutes_of 0) sear_card) 60))
             /\ "step-countdown--done" ∉ DOM.el_classList el').
Proof.
  assert (StepTicket.updateStepCountdowns 0 [prep_card; sear_card] !! 1%nat
          = Some (ticked_ticket 0)) as H by (vm_compute; reflexivity).
  split; [reflexivity |]. split; [reflexivity |].
  split; [exact sear_card_not_past |]. split; [exact H |].
  exact (StepTicket_done_or_waiting 0 [prep_card; sear_card] 1 sear_card _ _
           eq_refl eq_refl sear_card_not_past H).
Defined.

Lemma generateProcess_start_minutes_witness :
  "carbonara" <> "__proto__"
  /\ ({[ "carbonara" := carbonara_recipe ]} : gmap string Generator.Recipe)
    !! "carbonara" = Some carbonara_recipe
  /\ exists process,
       Generator.generateProcess {[ "carbonara" := carbonara_recipe ]} ∅
         "carbonara"
       = Some (process, <["carbonara" := process]> ∅)
       /\ length (Generator.timeline process)
          = length (Generator.steps carbonara_recipe)
       /\ Generator.totalDurationMinutes process
          = minutes_before (length (Generator.steps carbonara_recipe))
              (Generator.steps carbonara_recipe)
       /\ forall k step, Generator.steps carbonara_recipe !! k = Some step ->
            exists a,
              Generator.timeline process !! k = Some (ItemAction a)
              /\ id a = Generator.id step
              /\ startMinute a
                 = minutes_before k (Generator.steps carbonara_recipe)
              /\ durationMinutes a
                 = Some (or_zero (Generator.durationMinutes step))
              /\ isCriticalPath a = true.
Proof.
  assert (Hne : "carbonara" <> "__proto__") by discriminate.
  split; [exact Hne |]. split; [reflexivity |].
  exact (generateProcess_start_minutes {[ "carbonara" := carbonara_recipe ]} ∅
           "carbonara" carbonara_recipe Hne eq_refl).
Defined.

Lemma carbonara_durations :
  durations_not_negative (Generator.steps carbonara_recipe).
Proof. repeat constructor; discriminate. Qed.

Lemma generated_timeline_in_order_witness :
  durations_not_negative (Generator.steps carbonara_recipe)
  /\ StronglySorted (key_le item_startMinute)
       (Generator.items
          (Generator.run_steps true (Generator.steps carbonara_recipe)))
  /\ getUpcomingSteps
       (Generator.items
          (Generator.run_steps true (Generator.steps carbonara_recipe))) 3
     = List.filter (fun item => Qlt_bool 3 (item_startMinute item))
         (Generator.items
            (Generator.run_steps true (Generator.steps carbonara_recipe))).
Proof.
  split; [exact carbonara_durations |].
  exact (generated_timeline_in_order true (Generator.steps carbonara_recipe) 3
           carbonara_durations).
Defined.

Lemma generated_timeline_current_step_witness :
  durations_not_negative (Generator.steps carbonara_recipe)
  /\ (0 <= 12)%Q
  /\ (12 < Generator.currentMinute
             (Generator.run_steps true (Generator.steps carbonara_recipe)))%Q
  /\ exists a,
       getCurrentStep
         (Generator.items
            (Generator.run_steps true (Generator.steps carbonara_recipe))) 12
       = Some a
       /\ in_window 12 a
       /\ forall b,
            In (ItemAction b)
              (Generator.items
                 (Generator.run_steps true (Generator.steps carbonara_recipe))) ->
            in_window 12 b -> b = a.
Proof.
  assert (H0 : (0 <= 12)%Q) by discriminate.
  assert (H1 : (12 < Generator.currentMinute
                       (Generator.run_steps true
                          (Generator.steps carbonara_recipe)))%Q)
    by reflexivity.
  split; [exact carbonara_durations |]. split; [exact H0 |].
  split; [exact H1 |].
  exact (generated_timeline_current_step true
           (Generator.steps carbonara_recipe) 12 carbonara_durations H0 H1).
Defined.

Lemma generators_agree_witness :
  ({[ "carbonara" := carbonara_recipe ]} : gmap string Generator.Recipe)
    !! Generator.slug carbonara_recipe = Some carbonara_recipe
  /\ exists process processes',
       Generator.generateProcess {[ "carbonara" := carbonara_recipe ]} ∅
         (Generator.slug carbonara_recipe)
       = Some (process, processes')
       /\ Generator.recipeSlug process
          = Generator.recipeSlug
              (Generator.generateCookingProcess carbonara_recipe)
       /\ Generator.totalDurationMinutes process
          = Generator.totalDurationMinutes
              (Generator.generateCookingProcess carbonara_recipe)
       /\ Forall2
            (fun item item' =>
               exists a,
                 item = ItemAction a
                 /\ item' = ItemAction
                      {| id := id a; instruction := instruction a;
                         startMinute := startMinute a;
                         durationMinutes := durationMinutes a;
                         isCriticalPath := isCriticalPath a;
                         resource := resource a; image := None |})
            (Generator.timeline process)
            (Generator.timeline
               (Generator.generateCookingProcess carbonara_recipe)).
Proof.
  split; [reflexivity |].
  exact (generators_agree {[ "carbonara" := carbonara_recipe ]} ∅
           carbonara_recipe eq_refl).
Defined.

Lemma formatTime_shape_witness :
  0 <= 75 < 360000 /\ 0 <= 4000 < 360000
  /\ String.length (DOM.formatTime 75)
     = (if (75 <? 3600)%Z then 5 else 8)%nat
  /\ (DOM.formatTime 75 = DOM.formatTime 4000 -> 75 = 4000).
Proof.
  assert (H1 : 0 <= 75 < 360000) by lia.
  assert (H2 : 0 <= 4000 < 360000) by lia.
  split; [exact H1 |]. split; [exact H2 |].
  exact (formatTime_shape 75 4000 H1 H2).
Defined.


Lemma kitchen_controls : controls_there kitchen.
Proof.
  unfold controls_there.
  repeat (apply Forall_cons; split; [eexists; reflexivity |]).
  apply Forall_nil. done.
Qed.

Lemma handlers_show_state_witness :
  controls_there kitchen
  /\ Page.current_slug kitchen = Some "carbonara"
  /\ TimerManager.getState "carbonara" (Page.store kitchen)
     = Ok (Some carbonara_paused_state)
  /\ returns Page.startTimer kitchen (fun _ env' =>
       looks_running env' /\ Page.ticking env' = true
       /\ hidden_if_there "serving-section" env'
       /\ hidden_if_there "ingredients-section" env'
       /\ hidden_if_there "recipe-header-section" env'
       /\ shown_if_there "sections-toggle" env')
  /\ (is_Some (Some carbonara_paused_state) ->
      returns Page.pauseTimer kitchen (fun _ env' =>
        looks_paused env' /\ Page.ticking env' = false))
  /\ (forall st, Some carbonara_paused_state = Some st ->
      ToBoolean (isPaused st) = true ->
      returns Page.resumeTimer kitchen (fun _ env' =>
        looks_running env' /\ Page.ticking env' = true)).
Proof.
  split; [exact kitchen_controls |]. split; [reflexivity |].
  split; [reflexivity |].
  exact (handlers_show_state kitchen "carbonara" (Some carbonara_paused_state)
           kitchen_controls eq_refl eq_refl).
Defined.


Lemma initTimer_restores_witness :
  controls_there kitchen
  /\ TimerManager.getState "carbonara" (Page.store kitchen)
     = Ok (Some carbonara_paused_state)
  /\ returns (Page.initTimer "carbonara") kitchen (fun _ env' =>
       Page.store env' = Page.store kitchen
       /\ Page.recipeSlug env' = Some "carbonara"
       /\ (looks_paused env' /\ Page.ticking env' = Page.ticking kitchen)
       /\ hidden_if_there "serving-section" env'
       /\ hidden_if_there "ingredients-section" env'
       /\ hidden_if_there "recipe-header-section" env').
Proof.
  split; [exact kitchen_controls |]. split; [reflexivity |].
  exact (initTimer_restores kitchen "carbonara" (Some carbonara_paused_state)
           kitchen_controls eq_refl).
Defined.

Lemma paused_display_stands_still_witness :
  Page.current_slug kitchen = Some "carbonara"
  /\ TimerManager.getState "carbonara" (Page.store kitchen)
     = Ok (Some carbonara_paused_state)
  /\ 1000 <> 0 /\ ToBoolean (isPaused carbonara_paused_state) = true
  /\ 2000 <> 0
  /\ returns Page.updateTimerDisplay kitchen (fun _ env' =>
       Page.reads env' = Page.reads kitchen
       /\ Page.stepCards env'
          = StepCard.updateStepCountdowns (2000 - 1000) (Page.stepCards kitchen)
       /\ Page.byId env' !! "elapsed-time"
          = Page.set_textContent (DOM.formatTime ((2000 - 1000) / 1000))
              <$> Page.byId kitchen !! "elapsed-time"
       /\ Page.updateTimerDisplay env' = Page.Returned tt env').
Proof.
  assert (H0 : 1000 <> 0) by discriminate.
  assert (Hp : 2000 <> 0) by discriminate.
  split; [reflexivity |]. split; [reflexivity |]. split; [exact H0 |].
  split; [reflexivity |]. split; [exact Hp |].
  exact (paused_display_stands_still kitchen "carbonara" carbonara_paused_state
           1000 2000 eq_refl eq_refl eq_refl H0 eq_refl eq_refl Hp).
Defined.

End MoreScenarios.

(** ** Sums of minutes are sums of doubles *)

Section RoundingScenarios.

Import TimelineManager.

(** [0.1 + 0.2] is [0.30000000000000004], not [0.3], and [0.7 + 0.1] is
    [0.7999999999999999], not [0.8]; operands written as fractions are read
    as literals are. *)
Example scenario_sums :
  Double.add (Double.round (1 # 10)) (Double.round (2 # 10))
  = Double.round (30000000000000004 # 100000000000000000)
  /\ Double.add (1 # 10) (2 # 10)
     = Double.add (Double.round (1 # 10)) (Double.round (2 # 10))
  /\ (Double.round (3 # 10)
      < Double.add (Double.round (1 # 10)) (Double.round (2 # 10)))%Q
  /\ Double.add (Double.round (7 # 10)) (Double.round (1 # 10))
     = Double.round (7999999999999999 # 10000000000000000)
  /\ (Double.add (Double.round (7 # 10)) (Double.round (1 # 10))
      < Double.round (8 # 10))%Q.
Proof. repeat split; vm_compute; reflexivity. Qed.

(** The window of a step ends where the sum of doubles says: at
    [0.7999999999999999] the step from [0.7] lasting [0.1] is over, and at
    half a minute so is the step from [0.1] lasting [0.4]. *)
Example scenario_window_end :
  getCurrentStep [ItemAction toast_action]
    (Double.round (7999999999999999 # 10000000000000000)) = None
  /\ getCurrentStep [ItemAction grate_action] (1 # 2) = None
  /\ getCurrentStep [ItemAction grate_action]
       (Double.round (49 # 100)) = Some grate_action.
Proof. repeat split; vm_compute; reflexivity. Qed.

(** With [48] seconds elapsed the card of that step is hidden: the elapsed
    [0.8] minutes are past the end [0.7999999999999999]. *)
Example scenario_hidden_card :
  DOM.classList <$> StepCard.updateStepCountdowns 48000 [toast_card]
  = [list_to_set ["hidden"]].
Proof. vm_compute. reflexivity. Qed.

(** With [25] seconds elapsed a step that starts at minute [1] shows
    [00:34]: the remaining [0.5833333333333333] minutes are just short of
    [35] seconds. *)
Example scenario_countdown_text :
  DOM.textContent <$> DOM.countdownEl (ticked_card 25000) = Some "00:34"
  /\ DOM.textContent <$> DOM.countdownEl (ticked_ticket 25000)
     = Some "T-00:34".
Proof. split; vm_compute; reflexivity. Qed.

(** Steps of [0.1], [0.4] and [1] minutes: the third starts at [0.5], and
    at half a minute it is the current step. *)
Example scenario_generated :
  item_startMinute
    <$> Generator.items (Generator.run_steps true quick_steps)
  = [0%Q; Double.round (1 # 10); Double.round (1 # 2)]
  /\ id <$> getCurrentStep
              (Generator.items (Generator.run_steps true quick_steps)) (1 # 2)
     = Some "q3".
Proof. split; vm_compute; reflexivity. Qed.

End RoundingScenarios.
